(** * pca_quantize.py: per-row symmetric 8-bit quantization and binary encoding

    A shallow embedding of [gemma-data/rust-prep/pca_quantize.py].  The script
    loads a float32 embedding matrix, reduces it with scikit-learn's PCA,
    quantizes every reduced row to signed bytes with one float32 scale per
    row, and writes header, scales and bytes to one binary file.

    The arithmetic is IEEE-754 binary32, taken from the Standard Library's
    executable specification of floating-point numbers ([SpecFloat]), so that
    every definition below can be evaluated on concrete rows.  NumPy's
    element-wise operations are written out from their documented behaviour
    (NaN propagation, round-half-to-even, C conversion to [int8]). *)

From Stdlib Require Import ZArith List Lia Bool QArith Qabs Qround Lqa.
From Stdlib Require Import Floats.SpecFloat.
From stdpp Require Import gmap strings.
Import ListNotations.

#[local] Open Scope Z_scope.

(** ** IEEE-754 binary32 *)

Module F32.

(** Modelled from the spec: the element type of the embedding matrix.  The
    script reads whatever the input file holds; the specification fixes
    it to float32, and scikit-learn's PCA returns the reduced matrix in
    the type of its input.  These are the precision and the exponent
    range of binary32. *)
Definition prec : Z := 24.
Definition emax : Z := 128.

Abbreviation float32 := spec_float.

(** A finite [float32] is kept in canonical form: the mantissa has 24 bits
    when the number is normal, and the exponent is [-149] when it is
    subnormal. *)
Definition valid (x : float32) : bool := valid_binary prec emax x.

Definition is_nan (x : float32) : bool :=
  match x with S754_nan => true | _ => false end.

Definition is_finite (x : float32) : bool :=
  match x with S754_zero _ | S754_finite _ _ _ => true | _ => false end.

Definition is_zero (x : float32) : bool :=
  match x with S754_zero _ => true | _ => false end.

(** The floats a reduced matrix holds: finite, in canonical form. *)
Definition good (x : float32) : bool := valid x && is_finite x.

(** Conversion of an integer literal, rounding to nearest even. *)
Definition of_Z (z : Z) : float32 := binary_normalize prec emax z 0 false.

Definition zero : float32 := S754_zero false.
Definition one : float32 := of_Z 1.

(** The smallest positive normal float, [2^-126]. *)
Definition min_normal : float32 := S754_finite false (2 ^ 23) (-149).

Definition div : float32 -> float32 -> float32 := SFdiv prec emax.
Definition abs : float32 -> float32 := SFabs.
Definition ltb : float32 -> float32 -> bool := SFltb.
Definition leb : float32 -> float32 -> bool := SFleb.
Definition eqb : float32 -> float32 -> bool := SFeqb.

(** [2^e] as a rational number. *)
Definition pow2 (e : Z) : Q :=
  match e with
  | Z0 => 1%Q
  | Zpos p => inject_Z (Zpos (2 ^ p))
  | Zneg p => (1 # (2 ^ p))%Q
  end.

(** The real number a finite float stands for (0 for the others). *)
Definition B2Q (x : float32) : Q :=
  match x with
  | S754_finite s m e => (inject_Z (cond_Zopp s (Zpos m)) * pow2 e)%Q
  | _ => 0%Q
  end.

(** The value of a finite float counted in units of [2^-149], the spacing
    of the subnormal numbers: an integer for every valid float. *)
Definition units (x : float32) : Z :=
  match x with
  | S754_finite s m e => cond_Zopp s (Zpos m * 2 ^ (e + 149))
  | _ => 0
  end.

(** The bit pattern of a [float32]: sign, 8 exponent bits biased by 127,
    23 fraction bits.  NaN is the quiet NaN without payload. *)
Definition sign_bit (s : bool) : Z := if s then 2 ^ 31 else 0.

Definition bits (x : float32) : Z :=
  match x with
  | S754_zero s => sign_bit s
  | S754_infinity s => sign_bit s + 255 * 2 ^ 23
  | S754_nan => 255 * 2 ^ 23 + 2 ^ 22
  | S754_finite s m e =>
      sign_bit s +
      (if Zpos m <? 2 ^ 23 then Zpos m
       else (e + 150) * 2 ^ 23 + (Zpos m - 2 ^ 23))
  end.

End F32.

Import F32.

(** ** Rounding to nearest, ties to even

    The two predicates in which the rounding of [SpecFloat] is stated. *)

(** [n / d] lies in [[m, m+1)] at the place [l] names: on [m], below, on or
    above the midpoint. *)
Definition loc_ok (m : Z) (l : location) (n d : Z) : Prop :=
  0 < d /\ 0 <= m /\ m * d <= n < (m + 1) * d /\
  match l with
  | loc_Exact => n = m * d
  | loc_Inexact c => n <> m * d /\ (2 * n ?= (2 * m + 1) * d) = c
  end.

(** [r] is an integer nearest to [n / d], the even one when two are. *)
Definition rne (r n d : Z) : Prop :=
  (2 * r - 1) * d <= 2 * n <= (2 * r + 1) * d /\
  (2 * n = (2 * r - 1) * d \/ 2 * n = (2 * r + 1) * d -> Z.even r = true).

(** ** Exceptions and results *)

Inductive exn : Type :=
| FileNotFoundError
| ValueError
| IndexError
| StructError
| InvalidCast.   (* the conversion of NaN or of an out-of-range float to int8:
                    NumPy leaves its result unspecified *)

Inductive result (A : Type) : Type :=
| Ok (a : A)
| Raise (e : exn).
Arguments Ok {A} a.
Arguments Raise {A} e.

#[global] Instance result_ret : MRet result := fun A a => Ok a.
#[global] Instance result_bind : MBind result := fun A B f m =>
  match m with
  | Ok a => f a
  | Raise e => Raise e
  end.

Definition is_ok {A} (r : result A) : bool :=
  match r with Ok _ => true | Raise _ => false end.

(** Run [f] over a list from left to right, threading the accumulator and
    stopping at the first exception. *)
Fixpoint foldM {A B} (f : A -> B -> result A) (l : list B) (a : A) : result A :=
  match l with
  | [] => Ok a
  | b :: l' => a' ← f a b; foldM f l' a'
  end.

Fixpoint mapM {A B} (f : A -> result B) (l : list A) : result (list B) :=
  match l with
  | [] => Ok []
  | a :: l' => b ← f a; bs ← mapM f l'; Ok (b :: bs)
  end.

(** ** The NumPy operations the script calls *)

Module Np.

(** [np.abs] on a float32 array. *)
Definition abs (row : list float32) : list float32 := map F32.abs row.

(** The two-operand maximum of NumPy's reductions: a NaN operand wins. *)
Definition maximum (a b : float32) : float32 :=
  if is_nan a || F32.leb b a then a else b.

(** [a.max()]: no identity, so an empty array is an error. *)
Definition max (a : list float32) : result float32 :=
  match a with
  | [] => Raise ValueError
  | x :: a' => Ok (fold_left maximum a' x)
  end.

(** The nearest integer to [m / 2^k], ties going to the even one. *)
Definition rint_mag (m k : Z) : Z :=
  let q := m / 2 ^ k in
  let r := m mod 2 ^ k in
  match 2 * r ?= 2 ^ k with
  | Lt => q
  | Gt => q + 1
  | Eq => if Z.even q then q else q + 1
  end.

(** [np.round] with zero decimals is [rint]: round to the nearest integral
    float, halfway cases to the even one, the sign kept (so -0.3 gives -0.0);
    NaN and the infinities pass through. *)
Definition round1 (x : float32) : float32 :=
  match x with
  | S754_finite s m e =>
      if 0 <=? e then x
      else match rint_mag (Zpos m) (- e) with
           | Zpos n => binary_round prec emax s n 0
           | _ => S754_zero s
           end
  | _ => x
  end.

Definition round (a : list float32) : list float32 := map round1 a.

(** [np.clip x lo hi] is [min (max x lo) hi], a NaN [x] passing through. *)
Definition clip1 (lo hi x : float32) : float32 :=
  let t := if is_nan x || F32.ltb lo x then x else lo in
  if is_nan t || F32.ltb t hi then t else hi.

Definition clip (a : list float32) (lo hi : float32) : list float32 :=
  map (clip1 lo hi) a.

(** [array / scalar] on float32. *)
Definition divide (a : list float32) (s : float32) : list float32 :=
  map (fun x => F32.div x s) a.

(** The C conversion of a float to a signed byte truncates toward zero and
    is defined only when the truncated value fits; NaN, the infinities and
    values out of range have no defined result. *)
Definition trunc (x : float32) : option Z :=
  match x with
  | S754_zero _ => Some 0
  | S754_finite s m e =>
      Some (cond_Zopp s (if 0 <=? e then Zpos m * 2 ^ e else Zpos m / 2 ^ (- e)))
  | _ => None
  end.

Definition int8_of_float (x : float32) : result Z :=
  match trunc x with
  | Some z => if (-128 <=? z) && (z <=? 127) then Ok z else Raise InvalidCast
  | None => Raise InvalidCast
  end.

(** [a.astype(np.int8)]. *)
Definition astype_int8 (a : list float32) : result (list Z) := mapM int8_of_float a.

Definition byte_of_Z (z : Z) : Byte.byte :=
  match Byte.of_N (Z.to_N (z mod 256)) with
  | Some b => b
  | None => Byte.x00
  end.

(** [a.view(np.uint8)] on an int8 array: the same bits read as unsigned. *)
Definition view_uint8 (a : list Z) : list Byte.byte := map byte_of_Z a.

(** [np.vstack] of a list of 1-D arrays: at least one, all of one length. *)
Definition vstack {A} (rows : list (list A)) : result (list (list A)) :=
  match rows with
  | [] => Raise ValueError
  | r :: rows' =>
      if forallb (fun r' => Nat.eqb (length r') (length r)) rows'
      then Ok rows else Raise ValueError
  end.

End Np.

(** ** Byte order and [struct.pack] *)

(** [sys.byteorder] of the machine the script runs on. *)
Inductive byteorder : Type := little | big.

Definition le_bytes32 (v : Z) : list Byte.byte :=
  [Np.byte_of_Z v; Np.byte_of_Z (v / 2 ^ 8);
   Np.byte_of_Z (v / 2 ^ 16); Np.byte_of_Z (v / 2 ^ 24)].

(** A 32-bit word in the machine's byte order. *)
Definition native_bytes32 (order : byteorder) (v : Z) : list Byte.byte :=
  match order with
  | little => le_bytes32 v
  | big => rev (le_bytes32 v)
  end.

(** [struct.pack("III", a, b, c)]: no byte-order prefix, hence native order
    and native alignment (three unsigned ints need no padding); a value
    outside [0, 2^32) raises [struct.error]. *)
Definition struct_pack_III (order : byteorder) (a b c : Z) : result (list Byte.byte) :=
  if forallb (fun v => (0 <=? v) && (v <? 2 ^ 32)) [a; b; c]
  then Ok (native_bytes32 order a ++ native_bytes32 order b ++ native_bytes32 order c)
  else Raise StructError.

(** [np.array(scales, dtype=np.float32).tobytes()]. *)
Definition scales_tobytes (order : byteorder) (scales : list float32) : list Byte.byte :=
  concat (map (fun s => native_bytes32 order (F32.bits s)) scales).

(** [quantized.tobytes()] of a C-contiguous uint8 matrix: row after row. *)
Definition quantized_tobytes (quantized : list (list Byte.byte)) : list Byte.byte :=
  concat quantized.

(** ** The script *)

Definition INPUT : string := "../../gemma-data/embeddings.npy".
Definition OUTPUT : string := "../../gemma-data/embeddings_64d_q8.bin".
Definition TARGET_DIM : nat := 64.

(** A two-dimensional float32 array: its shape and its rows. *)
Record ndarray : Type := { shape : nat * nat; data : list (list float32) }.

(** [a[i]] for [i] from a [range]: never negative, an error past the end. *)
Definition getitem {A} (a : list A) (i : nat) : result A :=
  match nth_error a i with
  | Some x => Ok x
  | None => Raise IndexError
  end.

(** Lines 35-36: the scale of one row.  [abs_max] is a float32 scalar and
    [127.0] a Python float, which does not widen it (NumPy 2): the division
    is a float32 division.  [abs_max > 0] is false for NaN. *)
Definition row_scale (row : list float32) : result float32 :=
  abs_max ← Np.max (Np.abs row);
  Ok (if F32.ltb F32.zero abs_max then F32.div abs_max (F32.of_Z 127) else F32.one).

(** Rounding half to even on a rational: the nearest integer, and when two
    integers are equally near, the even one. *)
Definition round_half_even (q : Q) : Z :=
  let f := Qfloor (q + (1 # 2)) in
  if Qeq_bool (inject_Z f) (q + (1 # 2)) && Z.odd f then f - 1 else f.

(** A row of zeros (of either sign). *)
Definition all_zero (row : list float32) : bool := forallb F32.is_zero row.

(** Line 40: the signed bytes of one row, given its scale. *)
Definition q_row (row : list float32) (scale : float32) : result (list Z) :=
  Np.astype_int8
    (Np.clip (Np.round (Np.divide row scale)) (F32.of_Z (-127)) (F32.of_Z 127)).

(** One element of line 40 after the division: round, clamp, convert. *)
Definition quantize1 (q : float32) : result Z :=
  Np.int8_of_float (Np.clip1 (F32.of_Z (-127)) (F32.of_Z 127) (Np.round1 q)).

(** What one pass of the loop appends for its row: the scale and the bytes. *)
Definition quantize_row (row : list float32) : result (float32 * list Byte.byte) :=
  scale ← row_scale row;
  q ← q_row row scale;
  Ok (scale, Np.view_uint8 q).

(** Lines 34-41: one pass of the loop body on the lists built so far. *)
Definition loop_body (emb_reduced : list (list float32))
    (acc : list float32 * list (list Byte.byte)) (i : nat)
  : result (list float32 * list (list Byte.byte)) :=
  let '(scales, quantized) := acc in
  row ← getitem emb_reduced i;
  scale ← row_scale row;
  q ← q_row row scale;
  Ok (scales ++ [scale], quantized ++ [Np.view_uint8 q]).

(** Lines 30-44: the loop over [range(vocab_size)], then [np.vstack]. *)
Definition quantize (vocab_size : nat) (emb_reduced : list (list float32))
  : result (list float32 * list (list Byte.byte)) :=
  acc ← foldM (loop_body emb_reduced) (seq 0 vocab_size) ([], []);
  quantized ← Np.vstack (snd acc);
  Ok (fst acc, quantized).

(** The files of the machine, by path. *)
Abbreviation filesystem := (gmap string (list Byte.byte)).

(** [open(path, "wb")] creates the file or empties it. *)
Definition open_wb (path : string) (fs : filesystem) : filesystem :=
  <[path := []]> fs.

(** [f.write(bytes)] appends to what the handle has written so far. *)
Definition write (path : string) (bytes : list Byte.byte) (fs : filesystem) : filesystem :=
  match fs !! path with
  | Some old => <[path := old ++ bytes]> fs
  | None => <[path := bytes]> fs
  end.

(** Lines 48-54: the [with open(OUTPUT, "wb")] block.  The file is opened
    before the header is packed, so a failing [struct.pack] leaves it empty. *)
Definition write_binary (order : byteorder) (target_dim vocab_size : nat)
    (scales : list float32) (quantized : list (list Byte.byte))
    (fs : filesystem) : filesystem * result unit :=
  let fs := open_wb OUTPUT fs in
  match struct_pack_III order (Z.of_nat vocab_size) (Z.of_nat target_dim) 1 with
  | Raise e => (fs, Raise e)
  | Ok header =>
      let fs := write OUTPUT header fs in
      let fs := write OUTPUT (scales_tobytes order scales) fs in
      let fs := write OUTPUT (quantized_tobytes quantized) fs in
      (fs, Ok tt)
  end.

(** Lines 28-54: everything after the PCA, from the reduced matrix on. *)
Definition quantize_and_write (order : byteorder) (target_dim vocab_size : nat)
    (emb_reduced : list (list float32)) (fs : filesystem)
  : filesystem * result unit :=
  match quantize vocab_size emb_reduced with
  | Raise e => (fs, Raise e)
  | Ok (scales, quantized) => write_binary order target_dim vocab_size scales quantized fs
  end.

Section Script.

(** The machine's byte order, NumPy's reader of [.npy] files and
    scikit-learn's [PCA(n_components).fit_transform] are outside the
    repository; the script is read with them as given. *)
Variable order : byteorder.
Variable np_load : list Byte.byte -> result ndarray.
Variable fit_transform : nat -> ndarray -> result (list (list float32)).

(** The whole script, lines 17-54 (the progress messages left out). *)
Definition main (fs : filesystem) : filesystem * result unit :=
  match fs !! INPUT with
  | None => (fs, Raise FileNotFoundError)
  | Some bytes =>
      match np_load bytes with
      | Raise e => (fs, Raise e)
      | Ok emb =>
          let '(vocab_size, orig_dim) := shape emb in
          match fit_transform TARGET_DIM emb with
          | Raise e => (fs, Raise e)
          | Ok emb_reduced =>
              quantize_and_write order TARGET_DIM vocab_size emb_reduced fs
          end
      end
  end.

End Script.

(** ** Rows used in the scenarios *)

(** A row of [k] columns that is [z] except for [x] at column [i]. *)
Definition one_hot {A} (z : A) (k i : nat) (x : A) : list A :=
  map (fun j => if Nat.eqb j i then x else z) (seq 0 k).

(** 2.54 and 0.02 as float32, by correctly rounded division of integers. *)
Definition f32_2_54 : float32 := F32.div (F32.of_Z 254) (F32.of_Z 100).
Definition f32_0_02 : float32 := F32.div (F32.of_Z 2) (F32.of_Z 100).

(** A reduced matrix of two rows and four columns; the second row is zero. *)
Definition two_rows : list (list float32) :=
  [one_hot F32.zero 4 1 f32_2_54; [F32.zero; F32.zero; F32.zero; F32.zero]].

(** ** Reading bytes back

    The script only writes.  The functions below read a 32-bit word, a
    signed byte and a float32 back from their bytes; they are the left
    inverses of the encoders above and serve to show that the file
    determines what was written. *)

Definition byte_to_Z (b : Byte.byte) : Z := Z.of_N (Byte.to_N b).

(** Four bytes, least significant first, as an unsigned 32-bit integer. *)
Definition le_word32 (bs : list Byte.byte) : Z :=
  match bs with
  | [b0; b1; b2; b3] =>
      byte_to_Z b0 + 2 ^ 8 * byte_to_Z b1 + 2 ^ 16 * byte_to_Z b2 + 2 ^ 24 * byte_to_Z b3
  | _ => 0
  end.

(** Four bytes in the machine's byte order as an unsigned 32-bit integer. *)
Definition native_word32 (order : byteorder) (bs : list Byte.byte) : Z :=
  match order with
  | little => le_word32 bs
  | big => le_word32 (rev bs)
  end.

(** A byte read as [int8]: two's complement. *)
Definition int8_of_byte (b : Byte.byte) : Z :=
  if byte_to_Z b <? 128 then byte_to_Z b else byte_to_Z b - 256.

(** A 32-bit pattern read as a float32. *)
Definition float_of_bits (w : Z) : float32 :=
  let s := 2 ^ 31 <=? w in
  let ex := (w / 2 ^ 23) mod 256 in
  let frac := w mod 2 ^ 23 in
  if ex =? 0 then
    match frac with
    | Zpos m => S754_finite s m (-149)
    | _ => S754_zero s
    end
  else if ex =? 255 then
    if frac =? 0 then S754_infinity s else S754_nan
  else
    match frac + 2 ^ 23 with
    | Zpos m => S754_finite s m (ex - 150)
    | _ => S754_nan
    end.

(** The sign of a float (false for NaN). *)
Definition sign_of (x : float32) : bool :=
  match x with
  | S754_zero s | S754_infinity s | S754_finite s _ _ => s
  | S754_nan => false
  end.

(** * Facts about the binary32 format *)

Section Digits.

Lemma digits2_pos_bounds (p : positive) :
  2 ^ (Zpos (digits2_pos p) - 1) <= Zpos p < 2 ^ Zpos (digits2_pos p).
Proof.
  induction p as [p IH | p IH |]; cbn [digits2_pos].
  - rewrite Pos2Z.inj_succ.
    replace (Z.succ (Zpos (digits2_pos p)) - 1) with (Z.succ (Zpos (digits2_pos p) - 1)) by lia.
    rewrite !Z.pow_succ_r by lia. lia.
  - rewrite Pos2Z.inj_succ.
    replace (Z.succ (Zpos (digits2_pos p)) - 1) with (Z.succ (Zpos (digits2_pos p) - 1)) by lia.
    rewrite !Z.pow_succ_r by lia. lia.
  - cbn. lia.
Qed.

Lemma Zdigits2_log2 (m : Z) : 0 < m -> Zdigits2 m = Z.log2 m + 1.
Proof.
  destruct m as [| p | p]; try lia. intros _. cbn [Zdigits2].
  pose proof (digits2_pos_bounds p) as H.
  symmetry. rewrite (Z.log2_unique (Zpos p) (Zpos (digits2_pos p) - 1)); try lia.
  replace (Z.succ (Zpos (digits2_pos p) - 1)) with (Zpos (digits2_pos p)) by lia.
  exact H.
Qed.

Lemma Zdigits2_bounds (m : Z) :
  0 < m -> 2 ^ (Zdigits2 m - 1) <= m < 2 ^ Zdigits2 m.
Proof.
  destruct m as [| p | p]; try lia. intros _. apply digits2_pos_bounds.
Qed.

Lemma Zdigits2_pos (m : Z) : 0 < m -> 0 < Zdigits2 m.
Proof. destruct m; cbn; lia. Qed.

Lemma Zdigits2_unique (m d : Z) :
  2 ^ (d - 1) <= m < 2 ^ d -> 0 < d -> Zdigits2 m = d.
Proof.
  intros H Hd.
  assert (0 < m) by (pose proof (Z.pow_pos_nonneg 2 (d - 1)); lia).
  rewrite Zdigits2_log2 by assumption.
  rewrite (Z.log2_unique m (d - 1)); try lia.
  replace (Z.succ (d - 1)) with d by lia. exact H.
Qed.

Lemma Zdigits2_le (m d : Z) : 0 <= d -> 0 <= m < 2 ^ d -> Zdigits2 m <= d.
Proof.
  intros Hd [H0 H]. destruct (Z.eq_dec m 0) as [-> | Hm]; [cbn; lia |].
  rewrite Zdigits2_log2 by lia.
  enough (Z.log2 m < d) by lia. apply Z.log2_lt_pow2; lia.
Qed.

Lemma Zdigits2_ge (m d : Z) : 0 < d -> 2 ^ (d - 1) <= m -> d <= Zdigits2 m.
Proof.
  intros Hd H.
  assert (0 < m) by (pose proof (Z.pow_pos_nonneg 2 (d - 1)); lia).
  rewrite Zdigits2_log2 by lia.
  enough (d - 1 <= Z.log2 m) by lia. apply Z.log2_le_pow2; lia.
Qed.

Lemma Zdigits2_mul_pow2 (m k : Z) :
  0 < m -> 0 <= k -> Zdigits2 (m * 2 ^ k) = Zdigits2 m + k.
Proof.
  intros Hm Hk.
  assert (0 < 2 ^ k) by (apply Z.pow_pos_nonneg; lia).
  rewrite !Zdigits2_log2 by nia.
  rewrite Z.log2_mul_pow2 by lia. lia.
Qed.

Lemma Zdigits2_div_pow2 (m k : Z) :
  0 < m -> 0 <= k < Zdigits2 m -> Zdigits2 (m / 2 ^ k) = Zdigits2 m - k.
Proof.
  intros Hm Hk.
  pose proof (Zdigits2_bounds m Hm) as [Hlo Hhi].
  assert (Hp : 0 < 2 ^ k) by (apply Z.pow_pos_nonneg; lia).
  apply Zdigits2_unique; [| lia].
  assert (E1 : 2 ^ (Zdigits2 m - 1) = 2 ^ (Zdigits2 m - k - 1) * 2 ^ k)
    by (rewrite <- Z.pow_add_r by lia; f_equal; lia).
  assert (E2 : 2 ^ Zdigits2 m = 2 ^ (Zdigits2 m - k) * 2 ^ k)
    by (rewrite <- Z.pow_add_r by lia; f_equal; lia).
  split.
  - apply Z.div_le_lower_bound; lia.
  - apply Z.div_lt_upper_bound; lia.
Qed.

End Digits.

Section Fexp.

Lemma emin_eq : emin prec emax = -149.
Proof. reflexivity. Qed.

Lemma fexp_eq (e : Z) : fexp prec emax e = Z.max (e - 24) (-149).
Proof. reflexivity. Qed.

Lemma canonical_iff (m : positive) (e : Z) :
  canonical_mantissa prec emax m e = true <->
  e = Z.max (Zdigits2 (Zpos m) + e - 24) (-149).
Proof.
  unfold canonical_mantissa. rewrite Z.eqb_eq, fexp_eq. cbn [Zdigits2]. lia.
Qed.

Lemma valid_finite_iff (s : bool) (m : positive) (e : Z) :
  valid (S754_finite s m e) = true <->
  e = Z.max (Zdigits2 (Zpos m) + e - 24) (-149) /\ e <= 104.
Proof.
  unfold valid, valid_binary, bounded. rewrite andb_true_iff, canonical_iff, Z.leb_le.
  change (emax - prec) with 104. tauto.
Qed.

(** A valid finite float has at most 24 mantissa bits, an exponent between
    -149 and 104, and 24 bits exactly unless the exponent is -149. *)
Lemma valid_finite_bounds (s : bool) (m : positive) (e : Z) :
  valid (S754_finite s m e) = true ->
  -149 <= e <= 104 /\ Zpos m < 2 ^ 24 /\ (e = -149 \/ 2 ^ 23 <= Zpos m).
Proof.
  rewrite valid_finite_iff. intros [Hc He].
  pose proof (Zdigits2_bounds (Zpos m) ltac:(lia)) as [Hlo Hhi].
  assert (Hd : Zdigits2 (Zpos m) <= 24) by lia.
  repeat split; try lia.
  - eapply Z.lt_le_trans; [exact Hhi |]. apply Z.pow_le_mono_r; lia.
  - destruct (Z.eq_dec e (-149)) as [-> | Hne]; [left; reflexivity | right].
    assert (Zdigits2 (Zpos m) = 24) as Hd24 by lia.
    rewrite Hd24 in Hlo. exact Hlo.
Qed.

End Fexp.

(** * Rounding to nearest even *)

Section Rounding.

Lemma loc_of_shr_record_of_loc (m : Z) (l : location) :
  loc_of_shr_record (shr_record_of_loc m l) = l.
Proof. destruct l as [| []]; reflexivity. Qed.

Lemma shr_m_shr_record_of_loc (m : Z) (l : location) :
  shr_m (shr_record_of_loc m l) = m.
Proof. destruct l as [| []]; reflexivity. Qed.

Lemma shr_1_spec (m : Z) (r s : bool) :
  0 <= m ->
  shr_1 (Build_shr_record m r s) = Build_shr_record (m / 2) (Z.odd m) (r || s).
Proof.
  intros Hm. rewrite <- Z.div2_div.
  destruct m as [| [p | p |] | p]; try lia; reflexivity.
Qed.

Lemma shr_1_loc (mrs : shr_record) (n d : Z) :
  loc_ok (shr_m mrs) (loc_of_shr_record mrs) n d ->
  shr_m (shr_1 mrs) = shr_m mrs / 2 /\
  loc_ok (shr_m (shr_1 mrs)) (loc_of_shr_record (shr_1 mrs)) n (d * 2).
Proof.
  destruct mrs as [m r s]. unfold loc_ok. cbn [shr_m].
  intros (Hd & Hm & Hn & Hl).
  rewrite shr_1_spec by assumption. cbn [shr_m]. split; [reflexivity |].
  pose proof (Z.div2_odd m) as Hdiv. rewrite Z.div2_div in Hdiv.
  assert (0 <= m / 2) by (apply Z.div_pos; lia).
  split; [lia |]. split; [assumption |].
  rewrite Z.add_comm in Hdiv.
  destruct (Z.odd m), r, s; cbn [Z.b2z orb loc_of_shr_record] in *;
    rewrite ?Z.compare_lt_iff, ?Z.compare_gt_iff, ?Z.compare_eq_iff in *;
    repeat split; nia.
Qed.

Lemma iter_pos_shr_1_loc (p : positive) (mrs : shr_record) (n d : Z) :
  loc_ok (shr_m mrs) (loc_of_shr_record mrs) n d ->
  shr_m (SpecFloat.iter_pos shr_1 p mrs) = shr_m mrs / 2 ^ Zpos p /\
  loc_ok (shr_m (SpecFloat.iter_pos shr_1 p mrs)) (loc_of_shr_record (SpecFloat.iter_pos shr_1 p mrs))
    n (d * 2 ^ Zpos p).
Proof.
  revert mrs d.
  induction p as [p IH | p IH |]; intros mrs d H; cbn [SpecFloat.iter_pos].
  - destruct (shr_1_loc _ _ _ H) as [E1 H1].
    destruct (IH _ _ H1) as [E2 H2].
    destruct (IH _ _ H2) as [E3 H3].
    assert (Hp : 0 < 2 ^ Zpos p) by (apply Z.pow_pos_nonneg; lia).
    assert (Epow : 2 ^ Zpos p~1 = 2 * 2 ^ Zpos p * 2 ^ Zpos p).
    { replace (Zpos p~1) with (1 + Zpos p + Zpos p) by lia.
      rewrite !Z.pow_add_r, Z.pow_1_r by lia. reflexivity. }
    split.
    + rewrite E3, E2, E1, Epow, !Z.div_div by lia. f_equal; lia.
    + rewrite Epow. replace (d * (2 * 2 ^ Zpos p * 2 ^ Zpos p))
        with (d * 2 * 2 ^ Zpos p * 2 ^ Zpos p) by lia. exact H3.
  - destruct (IH _ _ H) as [E2 H2].
    destruct (IH _ _ H2) as [E3 H3].
    assert (Hp : 0 < 2 ^ Zpos p) by (apply Z.pow_pos_nonneg; lia).
    assert (Epow : 2 ^ Zpos p~0 = 2 ^ Zpos p * 2 ^ Zpos p).
    { replace (Zpos p~0) with (Zpos p + Zpos p) by lia.
      rewrite Z.pow_add_r by lia. reflexivity. }
    split.
    + rewrite E3, E2, Epow, !Z.div_div by lia. reflexivity.
    + rewrite Epow. replace (d * (2 ^ Zpos p * 2 ^ Zpos p))
        with (d * 2 ^ Zpos p * 2 ^ Zpos p) by lia. exact H3.
  - rewrite Z.pow_1_r. apply shr_1_loc. exact H.
Qed.

Lemma round_nearest_even_rne (m : Z) (l : location) (n d : Z) :
  loc_ok m l n d ->
  rne (round_nearest_even m l) n d /\
  (round_nearest_even m l = m \/ round_nearest_even m l = m + 1).
Proof.
  unfold loc_ok, rne. intros (Hd & Hm & Hn & Hl).
  destruct l as [| c]; cbn [round_nearest_even].
  - split; [| left; reflexivity]. split; [nia |]. intros [E | E]; nia.
  - destruct Hl as [Hne Hc].
    destruct c; rewrite ?Z.compare_lt_iff, ?Z.compare_gt_iff, ?Z.compare_eq_iff in Hc.
    + destruct (Z.even m) eqn:Ev.
      * split; [| left; reflexivity]. split; [nia |]. intros _. exact Ev.
      * split; [| right; reflexivity]. split; [nia |]. intros _.
        rewrite Z.even_add, Ev. reflexivity.
    + split; [| left; reflexivity]. split; [nia |]. intros [E | E]; nia.
    + split; [| right; reflexivity]. split; [nia |]. intros [E | E]; nia.
Qed.

End Rounding.

Section RoundAux.

Lemma shr_spec (mrs : shr_record) (e k n d : Z) :
  0 <= k ->
  loc_ok (shr_m mrs) (loc_of_shr_record mrs) n d ->
  exists mrs',
    shr mrs e k = (mrs', e + k) /\
    shr_m mrs' = shr_m mrs / 2 ^ k /\
    loc_ok (shr_m mrs') (loc_of_shr_record mrs') n (d * 2 ^ k).
Proof.
  intros Hk H. destruct k as [| p | p]; try lia.
  - exists mrs. cbn [shr]. rewrite Z.add_0_r, Z.pow_0_r, Z.div_1_r, Z.mul_1_r. auto.
  - exists (SpecFloat.iter_pos shr_1 p mrs). cbn [shr].
    destruct (iter_pos_shr_1_loc p mrs n d H) as [E L]. auto.
Qed.

Lemma shr_fexp_spec (m e : Z) (l : location) (n d : Z) :
  loc_ok m l n d ->
  e <= fexp prec emax (Zdigits2 m + e) ->
  exists mrs',
    shr_fexp prec emax m e l = (mrs', fexp prec emax (Zdigits2 m + e)) /\
    shr_m mrs' = m / 2 ^ (fexp prec emax (Zdigits2 m + e) - e) /\
    loc_ok (shr_m mrs') (loc_of_shr_record mrs') n
      (d * 2 ^ (fexp prec emax (Zdigits2 m + e) - e)).
Proof.
  intros H He. unfold shr_fexp.
  set (k := fexp prec emax (Zdigits2 m + e) - e).
  destruct (shr_spec (shr_record_of_loc m l) e k n d) as (mrs' & E1 & E2 & E3).
  - lia.
  - rewrite shr_m_shr_record_of_loc, loc_of_shr_record_of_loc. exact H.
  - exists mrs'. rewrite E1. replace (e + k) with (fexp prec emax (Zdigits2 m + e)) by lia.
    rewrite shr_m_shr_record_of_loc in E2. auto.
Qed.

(** The mantissa left by the first shift has at most 24 bits, and has 24
    unless the exponent is the smallest one. *)
Lemma shifted_mantissa_bounds (m e : Z) :
  0 <= m ->
  e <= fexp prec emax (Zdigits2 m + e) ->
  let e1 := fexp prec emax (Zdigits2 m + e) in
  0 <= m / 2 ^ (e1 - e) < 2 ^ 24 /\
  (e1 = -149 \/ 2 ^ 23 <= m / 2 ^ (e1 - e)) /\
  (0 < m / 2 ^ (e1 - e) -> Zdigits2 (m / 2 ^ (e1 - e)) + e1 = Zdigits2 m + e).
Proof.
  intros Hm He e1. subst e1. rewrite fexp_eq in *.
  set (k := Z.max (Zdigits2 m + e - 24) (-149) - e) in *.
  assert (Hk : 0 <= k) by lia.
  assert (Hp : 0 < 2 ^ k) by (apply Z.pow_pos_nonneg; lia).
  destruct (Z.eq_dec m 0) as [-> | Hne].
  { rewrite Z.div_0_l by lia. cbn [Zdigits2] in *. repeat split; try lia. }
  pose proof (Zdigits2_bounds m ltac:(lia)) as [Hlo Hhi].
  pose proof (Zdigits2_pos m ltac:(lia)) as Hdp.
  assert (Hq : 0 <= m / 2 ^ k) by (apply Z.div_pos; lia).
  split; [split; [exact Hq |] | split].
  - apply Z.div_lt_upper_bound; [lia |].
    rewrite <- Z.pow_add_r by lia.
    eapply Z.lt_le_trans; [exact Hhi |]. apply Z.pow_le_mono_r; lia.
  - destruct (Z.max_spec (Zdigits2 m + e - 24) (-149)) as [[Hlt E] | [Hle E]];
      [left; lia | right].
    apply Z.div_le_lower_bound; [lia |].
    rewrite Z.mul_comm, <- Z.pow_add_r by lia.
    eapply Z.le_trans; [| exact Hlo]. apply Z.pow_le_mono_r; lia.
  - intros Hpos.
    destruct (Z_lt_le_dec k (Zdigits2 m)) as [Hlt | Hge].
    + rewrite Zdigits2_div_pow2 by lia. lia.
    + exfalso. rewrite Z.div_small in Hpos; [lia |]. split; [lia |].
      eapply Z.lt_le_trans; [exact Hhi |]. apply Z.pow_le_mono_r; lia.
Qed.

(** The result of [binary_round_aux] on an exact value [n / d * 2^ex]
    located by [(mx, lx)]: the value is rounded to the nearest multiple of
    [2^e1], ties to even, where [e1] is the exponent the format gives to
    numbers of that magnitude. *)
Lemma binary_round_aux_spec (s : bool) (mx ex : Z) (lx : location) (n d : Z) :
  loc_ok mx lx n d ->
  ex <= fexp prec emax (Zdigits2 mx + ex) ->
  let e1 := fexp prec emax (Zdigits2 mx + ex) in
  exists mr,
    rne mr n (d * 2 ^ (e1 - ex)) /\
    0 <= mr <= 2 ^ 24 /\
    (e1 = -149 \/ 2 ^ 23 * (d * 2 ^ (e1 - ex)) <= n) /\
    ((mr = 0 /\ binary_round_aux prec emax s mx ex lx = S754_zero s) \/
     (exists m e,
         ((e = e1 /\ mr = Zpos m) \/ (e = e1 + 1 /\ mr = 2 * Zpos m)) /\
         canonical_mantissa prec emax m e = true /\
         binary_round_aux prec emax s mx ex lx =
           if e <=? emax - prec then S754_finite s m e else S754_infinity s)).
Proof.
  intros H He e1.
  assert (Hmx : 0 <= mx) by (destruct H as (_ & ? & _); assumption).
  destruct (shr_fexp_spec mx ex lx n d H He) as (mrs1 & E1 & Em1 & L1).
  fold e1 in E1, Em1, L1.
  destruct (shifted_mantissa_bounds mx ex Hmx He) as (Hb1 & Hn1 & Hd1).
  fold e1 in Hb1, Hn1, Hd1. rewrite <- Em1 in Hb1, Hn1, Hd1.
  destruct (round_nearest_even_rne _ _ _ _ L1) as [Hrne Hmr].
  set (mr := round_nearest_even (shr_m mrs1) (loc_of_shr_record mrs1)) in *.
  assert (He1 : -149 <= e1) by (subst e1; rewrite fexp_eq; lia).
  exists mr. split; [exact Hrne |]. split; [lia |]. split.
  { destruct Hn1 as [? | Hn1]; [left; assumption | right].
    destruct L1 as (? & ? & ? & _). nia. }
  unfold binary_round_aux. rewrite E1. fold mr.
  (* the second shift *)
  destruct (Z.eq_dec mr 0) as [Hz | Hnz].
  { left. split; [exact Hz |]. rewrite Hz. unfold shr_fexp. cbn [Zdigits2].
    rewrite fexp_eq. replace (Z.max (0 + e1 - 24) (-149) - e1) with (Z.max (-24) (-149 - e1)) by lia.
    destruct (Z.max (-24) (-149 - e1)) eqn:E; try lia; reflexivity. }
  right.
  assert (Hmrpos : 0 < mr) by lia.
  destruct (Z.eq_dec mr (2 ^ 24)) as [Hcarry | Hnc].
  - (* the mantissa overflowed to 2^24: one more shift, exact *)
    exists (2 ^ 23)%positive, (e1 + 1).
    split; [right; split; [reflexivity | rewrite Hcarry; reflexivity] |].
    split; [apply canonical_iff; change (Zdigits2 (Zpos (2 ^ 23))) with 24; lia |].
    rewrite Hcarry. unfold shr_fexp. rewrite fexp_eq.
    replace (Zdigits2 (2 ^ 24)) with 25 by reflexivity.
    replace (Z.max (25 + e1 - 24) (-149) - e1) with 1 by lia.
    reflexivity.
  - (* no carry: the rounded mantissa is canonical at e1 *)
    destruct mr as [| m |] eqn:Emr; try lia.
    exists m, e1. split; [left; split; reflexivity |].
    assert (Hdm : Zdigits2 (Zpos m) <= 24) by (apply Zdigits2_le; lia).
    assert (Hcan : e1 = Z.max (Zdigits2 (Zpos m) + e1 - 24) (-149)).
    { destruct Hn1 as [Hs | Hn].
      - lia.
      - assert (24 <= Zdigits2 (Zpos m)) by (apply Zdigits2_ge; lia). lia. }
    split; [apply canonical_iff; exact Hcan |].
    unfold shr_fexp. rewrite fexp_eq.
    replace (Z.max (Zdigits2 (Zpos m) + e1 - 24) (-149) - e1) with 0 by lia.
    reflexivity.
Qed.

End RoundAux.

Section Division.

Lemma new_location_loc (n d : Z) :
  0 <= n -> 0 < d ->
  loc_ok (n / d) (new_location d (n mod d)) n d.
Proof.
  intros Hn Hd.
  pose proof (Z.div_mod n d ltac:(lia)) as E.
  pose proof (Z.mod_pos_bound n d Hd) as Hr.
  assert (Hq : 0 <= n / d) by (apply Z.div_pos; lia).
  set (q := n / d) in *. set (r := n mod d) in *.
  unfold loc_ok. split; [exact Hd |]. split; [exact Hq |]. split; [nia |].
  assert (Hcmp : (2 * n ?= (2 * q + 1) * d) = (2 * r ?= d)).
  { destruct (Z.compare_spec (2 * r) d);
      [apply Z.compare_eq_iff | apply Z.compare_lt_iff | apply Z.compare_gt_iff]; nia. }
  unfold new_location, new_location_even, new_location_odd.
  destruct (Z.even d) eqn:Ev.
  - destruct (Z.eqb_spec r 0) as [Hz | Hnz]; [nia |].
    split; [nia |]. rewrite Hcmp. reflexivity.
  - destruct (Z.eqb_spec r 0) as [Hz | Hnz]; [nia |].
    split; [nia |]. rewrite Hcmp.
    assert (Hodd : Z.odd d = true) by (rewrite <- Z.negb_even, Ev; reflexivity).
    apply Z.odd_spec in Hodd. destruct Hodd as [h Hh].
    destruct (Z.compare_spec (2 * r + 1) d), (Z.compare_spec (2 * r) d);
      try reflexivity; lia.
Qed.

Lemma rne_scale (r n d f : Z) : 0 < f -> rne r n d -> rne r (n * f) (d * f).
Proof. unfold rne. intros Hf [H1 H2]. split; [nia |]. intros [E | E]; apply H2; nia. Qed.

(** The quotient mantissa that [SFdiv] rounds, located against the exact
    quotient [mx * 2^s / my] at exponent [e']. *)
Lemma SFdiv_core_binary_spec (mx my : positive) (ex ey : Z) :
  exists q e' l s,
    SFdiv_core_binary prec emax (Zpos mx) ex (Zpos my) ey = (q, e', l) /\
    0 <= s /\ s = ex - ey - e' /\
    e' = Z.min (fexp prec emax (Zdigits2 (Zpos mx) + ex - (Zdigits2 (Zpos my) + ey))) (ex - ey) /\
    loc_ok q l (Zpos mx * 2 ^ s) (Zpos my) /\
    e' <= fexp prec emax (Zdigits2 q + e').
Proof.
  unfold SFdiv_core_binary.
  set (d1 := Zdigits2 (Zpos mx)). set (d2 := Zdigits2 (Zpos my)).
  set (e' := Z.min (fexp prec emax (d1 + ex - (d2 + ey))) (ex - ey)).
  set (s := ex - ey - e').
  assert (Hs : 0 <= s) by (subst s e'; lia).
  set (m' := match s with Zpos _ => Z.shiftl (Zpos mx) s | Z0 => Zpos mx | Zneg _ => 0 end).
  assert (Hm' : m' = Zpos mx * 2 ^ s).
  { subst m'. generalize s Hs. intros [| p | p] Hp; try lia.
    apply Z.shiftl_mul_pow2. lia. }
  assert (Hp : 0 < 2 ^ s) by (apply Z.pow_pos_nonneg; lia).
  unfold Z.div_eucl at 1. fold (Z.div_eucl m' (Zpos my)).
  pose proof (new_location_loc m' (Zpos my) ltac:(nia) ltac:(lia)) as Hloc.
  unfold Z.div, Z.modulo in Hloc.
  destruct (Z.div_eucl m' (Zpos my)) as [q r] eqn:Ediv.
  exists q, e', (new_location (Zpos my) r), s.
  split; [reflexivity |]. split; [exact Hs |]. split; [reflexivity |].
  split; [reflexivity |]. rewrite Hm' in Hloc. split; [exact Hloc |].
  (* enough digits in the quotient *)
  assert (Ee' : e' = Z.min (Z.max (d1 + ex - (d2 + ey) - 24) (-149)) (ex - ey))
    by (unfold e'; rewrite fexp_eq; reflexivity).
  assert (Es : s = ex - ey - e') by reflexivity.
  clearbody s e'. rewrite fexp_eq.
  destruct (Z_le_gt_dec e' (-149)) as [Hsub | Hnorm]; [lia |].
  (* here the exponent is at most E - 24: the quotient has at least 24 bits *)
  assert (Hd1 : 2 ^ (d1 - 1) <= Zpos mx) by (apply Zdigits2_bounds; lia).
  assert (Hd2 : Zpos my < 2 ^ d2) by (apply Zdigits2_bounds; lia).
  assert (Hd1p : 0 < d1) by (apply Zdigits2_pos; lia).
  assert (Hd2p : 0 < d2) by (apply Zdigits2_pos; lia).
  assert (Hdq : d1 + s - d2 <= Zdigits2 q).
  { apply Zdigits2_ge; [lia |].
    destruct Hloc as (_ & _ & [_ Hup] & _).
    assert (Hlow : 2 ^ (d1 + s - d2 - 1) * 2 ^ d2 <= Zpos mx * 2 ^ s).
    { rewrite <- Z.pow_add_r by lia.
      replace (d1 + s - d2 - 1 + d2) with (d1 - 1 + s) by lia.
      rewrite Z.pow_add_r by lia. nia. }
    assert (0 < 2 ^ (d1 + s - d2 - 1)) by (apply Z.pow_pos_nonneg; lia).
    nia. }
  lia.
Qed.

End Division.

(** [2^a * 2^b = 2^c] when the exponents add up. *)
Ltac pow2_eq a b c :=
  let H := fresh "Hpow" in
  assert (H : 2 ^ a * 2 ^ b = 2 ^ c)
    by (rewrite <- Z.pow_add_r by lia; f_equal; lia).

Section DivisionUnits.

(** Division of two finite floats, in units of [2^-149]: the quotient is
    rounded to the nearest multiple [mr * g] of a power of two [g], ties to
    even, and [mr] has 24 bits unless [g] is one unit. *)
Lemma div_finite_spec (sx sy : bool) (mx my : positive) (ex ey : Z) :
  -149 <= ex -> -149 <= ey ->
  let A := Zpos mx * 2 ^ (ex + 149) in
  let B := Zpos my * 2 ^ (ey + 149) in
  let z := F32.div (S754_finite sx mx ex) (S754_finite sy my ey) in
  exists g mr,
    (exists j, 0 <= j /\ g = 2 ^ j) /\
    0 <= mr <= 2 ^ 24 /\
    rne mr (2 ^ 149 * A) (g * B) /\
    (g = 1 \/ 2 ^ 23 * (g * B) <= 2 ^ 149 * A) /\
    ((mr = 0 /\ z = S754_zero (xorb sx sy)) \/
     (exists m e,
         -149 <= e /\ Zpos m * 2 ^ (e + 149) = mr * g /\
         canonical_mantissa prec emax m e = true /\
         z = if e <=? 104 then S754_finite (xorb sx sy) m e
             else S754_infinity (xorb sx sy))).
Proof.
  intros Hex Hey A B z.
  destruct (SFdiv_core_binary_spec mx my ex ey)
    as (q & e' & l & s & Ecore & Hs & Es & Ee' & Hloc & Hfexp).
  destruct (binary_round_aux_spec (xorb sx sy) q e' l _ _ Hloc Hfexp)
    as (mr & Hrne & Hmr & Hnorm & Hres).
  assert (Ez : z = binary_round_aux prec emax (xorb sx sy) q e' l).
  { subst z. unfold F32.div, SFdiv. rewrite Ecore. reflexivity. }
  rewrite <- Ez in Hres. clear Ez Ecore.
  set (e1 := fexp prec emax (Zdigits2 q + e')) in *.
  assert (He1 : -149 <= e1) by (subst e1; rewrite fexp_eq; lia).
  assert (He' : 0 <= e' + ey + 298) by (rewrite fexp_eq in Ee'; lia).
  set (F := 2 ^ (e' + ey + 298)).
  assert (HF : 0 < F) by (apply Z.pow_pos_nonneg; lia).
  pow2_eq s (e' + ey + 298) (ex + 298).
  pow2_eq 149 (ex + 149) (ex + 298).
  pow2_eq (e1 - e') (e' + ey + 298) (e1 + ey + 298).
  pow2_eq (e1 + 149) (ey + 149) (e1 + ey + 298).
  fold F in Hpow, Hpow1.
  assert (EA : Zpos mx * 2 ^ s * F = 2 ^ 149 * A) by (subst A; nia).
  assert (EB : Zpos my * 2 ^ (e1 - e') * F = 2 ^ (e1 + 149) * B) by (subst B; nia).
  exists (2 ^ (e1 + 149)), mr.
  split; [exists (e1 + 149); split; [lia | reflexivity] |].
  split; [exact Hmr |].
  split; [rewrite <- EA, <- EB; apply rne_scale; assumption |].
  split.
  { destruct Hnorm as [E | Hn].
    - left. rewrite E. reflexivity.
    - right. rewrite <- EA, <- EB. nia. }
  destruct Hres as [[Hz Hr] | (m & e & Hme & Hcan & Hr)].
  - left. split; assumption.
  - right. exists m, e.
    change (emax - prec) with 104 in Hr.
    split; [lia |]. split; [| split; assumption].
    destruct Hme as [[-> ->] | [-> ->]]; [reflexivity |].
    replace (e1 + 1 + 149) with (1 + (e1 + 149)) by lia.
    rewrite Z.pow_add_r by lia. lia.
Qed.

End DivisionUnits.

Section Validity.

Lemma round_result_valid (s : bool) (m : positive) (e : Z) :
  canonical_mantissa prec emax m e = true ->
  valid (if e <=? emax - prec then S754_finite s m e else S754_infinity s) = true.
Proof.
  intros Hc. destruct (Z.leb_spec e (emax - prec)) as [Hle | Hgt]; [| reflexivity].
  unfold valid, valid_binary, bounded. rewrite Hc. apply Z.leb_le in Hle. rewrite Hle.
  reflexivity.
Qed.

(** Division always returns a float in canonical form. *)
Lemma div_valid (x y : float32) : valid (F32.div x y) = true.
Proof.
  destruct x as [sx | sx | | sx mx ex], y as [sy | sy | | sy my ey]; try reflexivity.
  unfold F32.div, SFdiv.
  destruct (SFdiv_core_binary_spec mx my ex ey)
    as (q & e' & l & s & Ecore & Hs & Es & Ee' & Hloc & Hfexp).
  rewrite Ecore.
  destruct (binary_round_aux_spec (xorb sx sy) q e' l _ _ Hloc Hfexp)
    as (mr & _ & _ & _ & [[_ ->] | (m & e & _ & Hcan & ->)]).
  - reflexivity.
  - apply round_result_valid. exact Hcan.
Qed.

(** The quotient of two finite floats is never NaN. *)
Lemma div_finite_not_nan (x y : float32) :
  is_finite x = true -> is_finite y = true -> is_zero y = false ->
  is_nan (F32.div x y) = false.
Proof.
  destruct x as [sx | sx | | sx mx ex], y as [sy | sy | | sy my ey];
    try discriminate; try reflexivity.
  intros _ _ _. unfold F32.div, SFdiv.
  destruct (SFdiv_core_binary_spec mx my ex ey)
    as (q & e' & l & s & Ecore & Hs & Es & Ee' & Hloc & Hfexp).
  rewrite Ecore.
  destruct (binary_round_aux_spec (xorb sx sy) q e' l _ _ Hloc Hfexp)
    as (mr & _ & _ & _ & [[_ ->] | (m & e & _ & Hcan & ->)]).
  - reflexivity.
  - destruct (e <=? emax - prec); reflexivity.
Qed.

End Validity.

Section Order.

Lemma units_finite_pos (m : positive) (e : Z) : -149 <= e -> 0 < Zpos m * 2 ^ (e + 149).
Proof. intros He. assert (0 < 2 ^ (e + 149)) by (apply Z.pow_pos_nonneg; lia). nia. Qed.

(** Among valid floats the one with the smaller exponent is the smaller. *)
Lemma valid_exponent_lt (s1 s2 : bool) (m1 m2 : positive) (e1 e2 : Z) :
  valid (S754_finite s1 m1 e1) = true ->
  valid (S754_finite s2 m2 e2) = true ->
  e1 < e2 ->
  Zpos m1 * 2 ^ (e1 + 149) < Zpos m2 * 2 ^ (e2 + 149).
Proof.
  intros H1 H2 Hlt.
  apply valid_finite_bounds in H1, H2.
  destruct H1 as (He1 & Hm1 & _), H2 as (He2 & _ & [E | Hm2]); [lia |].
  assert (Hp : 0 < 2 ^ (e1 + 149)) by (apply Z.pow_pos_nonneg; lia).
  assert (Hmono : 2 ^ (e1 + 149 + 1) <= 2 ^ (e2 + 149)) by (apply Z.pow_le_mono_r; lia).
  rewrite Z.pow_add_r, Z.pow_1_r in Hmono by lia.
  change (2 ^ 24) with (2 * 2 ^ 23) in Hm1.
  assert (0 < 2 ^ 23) by reflexivity.
  nia.
Qed.

(** On valid finite floats the IEEE comparison is the comparison of the
    values. *)
Lemma compare_units (x y : float32) :
  valid x = true -> valid y = true ->
  is_finite x = true -> is_finite y = true ->
  SFcompare x y = Some (units x ?= units y).
Proof.
  intros Vx Vy Fx Fy.
  destruct x as [sx | sx | | sx mx ex], y as [sy | sy | | sy my ey];
    try discriminate; cbn [SFcompare units].
  - reflexivity.
  - pose proof (valid_finite_bounds _ _ _ Vy) as (He & _).
    pose proof (units_finite_pos my ey ltac:(lia)).
    f_equal. symmetry. destruct sy; cbn [cond_Zopp];
      [apply Z.compare_gt_iff | apply Z.compare_lt_iff]; lia.
  - pose proof (valid_finite_bounds _ _ _ Vx) as (He & _).
    pose proof (units_finite_pos mx ex ltac:(lia)).
    f_equal. symmetry. destruct sx; cbn [cond_Zopp];
      [apply Z.compare_lt_iff | apply Z.compare_gt_iff]; lia.
  - pose proof (valid_finite_bounds _ _ _ Vx) as (Hex & _).
    pose proof (valid_finite_bounds _ _ _ Vy) as (Hey & _).
    pose proof (units_finite_pos mx ex ltac:(lia)) as Px.
    pose proof (units_finite_pos my ey ltac:(lia)) as Py.
    f_equal. symmetry.
    destruct sx, sy; cbn [cond_Zopp].
    + (* both negative *)
      destruct (Z.compare_spec ex ey) as [E | Hlt | Hgt].
      * subst ey. change (Pos.compare_cont Eq mx my) with (Zpos mx ?= Zpos my).
        assert (0 < 2 ^ (ex + 149)) by (apply Z.pow_pos_nonneg; lia).
        destruct (Z.compare_spec (Zpos mx) (Zpos my)) as [E | Hlt | Hgt]; cbn [CompOpp];
          [apply Z.compare_eq_iff | apply Z.compare_gt_iff | apply Z.compare_lt_iff]; nia.
      * pose proof (valid_exponent_lt _ _ _ _ _ _ Vx Vy Hlt).
        apply Z.compare_gt_iff. lia.
      * pose proof (valid_exponent_lt _ _ _ _ _ _ Vy Vx ltac:(lia)).
        apply Z.compare_lt_iff. lia.
    + apply Z.compare_lt_iff. lia.
    + apply Z.compare_gt_iff. lia.
    + destruct (Z.compare_spec ex ey) as [E | Hlt | Hgt].
      * subst ey. change (Pos.compare_cont Eq mx my) with (Zpos mx ?= Zpos my).
        assert (0 < 2 ^ (ex + 149)) by (apply Z.pow_pos_nonneg; lia).
        destruct (Z.compare_spec (Zpos mx) (Zpos my)) as [E | Hlt | Hgt];
          [apply Z.compare_eq_iff | apply Z.compare_lt_iff | apply Z.compare_gt_iff]; nia.
      * pose proof (valid_exponent_lt _ _ _ _ _ _ Vx Vy Hlt).
        apply Z.compare_lt_iff. lia.
      * pose proof (valid_exponent_lt _ _ _ _ _ _ Vy Vx ltac:(lia)).
        apply Z.compare_gt_iff. lia.
Qed.

Lemma ltb_units (x y : float32) :
  valid x = true -> valid y = true ->
  is_finite x = true -> is_finite y = true ->
  F32.ltb x y = (units x <? units y).
Proof.
  intros. unfold F32.ltb, SFltb. rewrite compare_units by assumption.
  unfold Z.ltb. reflexivity.
Qed.

Lemma leb_units (x y : float32) :
  valid x = true -> valid y = true ->
  is_finite x = true -> is_finite y = true ->
  F32.leb x y = (units x <=? units y).
Proof.
  intros. unfold F32.leb, SFleb. rewrite compare_units by assumption.
  unfold Z.leb. destruct (units x ?= units y); reflexivity.
Qed.

Lemma eqb_units (x y : float32) :
  valid x = true -> valid y = true ->
  is_finite x = true -> is_finite y = true ->
  F32.eqb x y = (units x =? units y).
Proof.
  intros. unfold F32.eqb, SFeqb. rewrite compare_units by assumption.
  destruct (Z.eqb_spec (units x) (units y)) as [E | E].
  - rewrite E, Z.compare_refl. reflexivity.
  - destruct (Z.compare_spec (units x) (units y)); try reflexivity. contradiction.
Qed.

(** Two valid finite floats of the same value are the same float, up to
    the sign of zero. *)
Lemma units_inj (s1 s2 : bool) (m1 m2 : positive) (e1 e2 : Z) :
  valid (S754_finite s1 m1 e1) = true ->
  valid (S754_finite s2 m2 e2) = true ->
  units (S754_finite s1 m1 e1) = units (S754_finite s2 m2 e2) ->
  S754_finite s1 m1 e1 = S754_finite s2 m2 e2.
Proof.
  intros V1 V2 E. cbn [units] in E.
  pose proof (valid_finite_bounds _ _ _ V1) as (He1 & _).
  pose proof (valid_finite_bounds _ _ _ V2) as (He2 & _).
  pose proof (units_finite_pos m1 e1 ltac:(lia)) as P1.
  pose proof (units_finite_pos m2 e2 ltac:(lia)) as P2.
  assert (Es : s1 = s2) by (destruct s1, s2; cbn [cond_Zopp] in E; try reflexivity; lia).
  subst s2.
  assert (Eu : Zpos m1 * 2 ^ (e1 + 149) = Zpos m2 * 2 ^ (e2 + 149))
    by (destruct s1; cbn [cond_Zopp] in E; lia).
  destruct (Z.compare_spec e1 e2) as [Ee | Hlt | Hgt].
  - subst e2. assert (0 < 2 ^ (e1 + 149)) by (apply Z.pow_pos_nonneg; lia).
    assert (Zpos m1 = Zpos m2) by nia. congruence.
  - pose proof (valid_exponent_lt _ _ _ _ _ _ V1 V2 Hlt). lia.
  - pose proof (valid_exponent_lt _ _ _ _ _ _ V2 V1 ltac:(lia)). lia.
Qed.

End Order.

Section DivUnits.

Lemma units_finite_abs (s : bool) (m : positive) (e : Z) :
  -149 <= e ->
  Z.abs (units (S754_finite s m e)) = Zpos m * 2 ^ (e + 149).
Proof.
  intros He. pose proof (units_finite_pos m e He). cbn [units].
  destruct s; cbn [cond_Zopp]; lia.
Qed.

(** Division of valid finite non-zero floats, on their values in units of
    [2^-149].  The result is the multiple [mr * g] of a power of two [g]
    nearest to the quotient; it is a float unless it reaches [2^128]. *)
Lemma div_units (sx sy : bool) (mx my : positive) (ex ey : Z) :
  let x := S754_finite sx mx ex in
  let y := S754_finite sy my ey in
  valid x = true -> valid y = true ->
  exists g mr,
    (exists j, 0 <= j /\ g = 2 ^ j) /\
    0 <= mr <= 2 ^ 24 /\
    rne mr (2 ^ 149 * Z.abs (units x)) (g * Z.abs (units y)) /\
    (g = 1 \/ 2 ^ 23 * (g * Z.abs (units y)) <= 2 ^ 149 * Z.abs (units x)) /\
    (mr = 0 -> F32.div x y = S754_zero (xorb sx sy)) /\
    (0 < mr -> mr * g < 2 ^ 277 ->
     exists m e, F32.div x y = S754_finite (xorb sx sy) m e /\
                 -149 <= e /\ Zpos m * 2 ^ (e + 149) = mr * g).
Proof.
  intros x y Vx Vy.
  pose proof (valid_finite_bounds _ _ _ Vx) as (Hex & _).
  pose proof (valid_finite_bounds _ _ _ Vy) as (Hey & _).
  destruct (div_finite_spec sx sy mx my ex ey ltac:(lia) ltac:(lia))
    as (g & mr & Hg & Hmr & Hrne & Hnorm & Hres).
  exists g, mr. subst x y. rewrite !units_finite_abs by lia.
  split; [exact Hg |]. split; [exact Hmr |]. split; [exact Hrne |].
  split; [exact Hnorm |].
  destruct Hg as (j & Hj & ->).
  assert (Hgpos : 0 < 2 ^ j) by (apply Z.pow_pos_nonneg; lia).
  destruct Hres as [[Hz Hr] | (m & e & He & Hval & Hcan & Hr)].
  - split; [intros _; exact Hr | lia].
  - pose proof (units_finite_pos m e He) as Hpos.
    split; [intros Hz; subst mr; lia |].
    intros Hmrpos Hlt. exists m, e.
    destruct (Z.leb_spec e 104) as [Hle | Hgt]; [auto |].
    exfalso. apply canonical_iff in Hcan.
    assert (Hd : 24 <= Zdigits2 (Zpos m)) by lia.
    pose proof (Zdigits2_bounds (Zpos m) ltac:(lia)) as [Hlo _].
    assert (H23 : 2 ^ 23 <= Zpos m).
    { eapply Z.le_trans; [| exact Hlo]. apply Z.pow_le_mono_r; lia. }
    assert (Hbig : 2 ^ 254 <= 2 ^ (e + 149)) by (apply Z.pow_le_mono_r; lia).
    change (2 ^ 277) with (2 ^ 23 * 2 ^ 254) in Hlt.
    assert (0 < 2 ^ 254) by reflexivity. nia.
Qed.

End DivUnits.

(** * The maximum of the absolute values *)

Section AbsMax.

Lemma good_abs (x : float32) : good x = true -> good (F32.abs x) = true.
Proof. destruct x; unfold good; cbn; auto. Qed.

Lemma units_abs (x : float32) :
  good x = true -> units (F32.abs x) = Z.abs (units x).
Proof.
  unfold good. rewrite andb_true_iff. intros [V F].
  destruct x as [s | s | | s m e]; try discriminate; try reflexivity.
  pose proof (valid_finite_bounds _ _ _ V) as (He & _).
  rewrite units_finite_abs by lia. cbn. reflexivity.
Qed.

Lemma maximum_good (a b : float32) :
  good a = true -> good b = true ->
  Np.maximum a b = (if units b <=? units a then a else b).
Proof.
  unfold good. rewrite !andb_true_iff. intros [Va Fa] [Vb Fb].
  unfold Np.maximum. rewrite leb_units by assumption.
  destruct a; try discriminate; reflexivity.
Qed.

Lemma fold_maximum_spec (l : list float32) (x : float32) :
  good x = true -> Forall (fun y => good y = true) l ->
  let r := fold_left Np.maximum l x in
  In r (x :: l) /\ good r = true /\
  Forall (fun y => units y <= units r) (x :: l).
Proof.
  revert x. induction l as [| y l IH]; intros x Gx Gl; cbn [fold_left].
  - split; [left; reflexivity |]. split; [exact Gx |]. constructor; [lia | constructor].
  - inversion Gl as [| ? ? Gy Gl']; subst.
    rewrite maximum_good by assumption.
    destruct (Z.leb_spec (units y) (units x)) as [Hle | Hlt].
    + destruct (IH x Gx Gl') as (Hin & Gr & Hall).
      split; [destruct Hin as [<- | Hin]; [left; reflexivity | right; right; exact Hin] |].
      split; [exact Gr |].
      inversion Hall as [| ? ? Hx Hall']; subst.
      constructor; [exact Hx |]. constructor; [lia | exact Hall'].
    + destruct (IH y Gy Gl') as (Hin & Gr & Hall).
      split; [right; exact Hin |]. split; [exact Gr |].
      inversion Hall as [| ? ? Hy Hall']; subst.
      constructor; [lia |]. constructor; [exact Hy | exact Hall'].
Qed.

(** [np.abs(row).max()] of a non-empty row of finite floats is the largest
    absolute value in the row. *)
Lemma abs_max_spec (row : list float32) :
  row <> [] -> Forall (fun x => good x = true) row ->
  exists abs_max,
    Np.max (Np.abs row) = Ok abs_max /\
    In abs_max (Np.abs row) /\ good abs_max = true /\ 0 <= units abs_max /\
    F32.abs abs_max = abs_max /\
    Forall (fun x => Z.abs (units x) <= units abs_max) row.
Proof.
  intros Hne Hgood. destruct row as [| x row]; [contradiction |].
  inversion Hgood as [| ? ? Gx Grow]; subst.
  assert (Gabs : Forall (fun y => good y = true) (Np.abs row)).
  { unfold Np.abs. apply List.Forall_map. eapply List.Forall_impl; [| exact Grow].
    intros a. apply good_abs. }
  destruct (fold_maximum_spec (Np.abs row) (F32.abs x) (good_abs _ Gx) Gabs)
    as (Hin & Gr & Hall).
  exists (fold_left Np.maximum (Np.abs row) (F32.abs x)).
  set (r := fold_left Np.maximum (Np.abs row) (F32.abs x)) in *.
  split; [reflexivity |]. split; [exact Hin |]. split; [exact Gr |].
  assert (Hallrow : Forall (fun x0 => Z.abs (units x0) <= units r) (x :: row)).
  { change (F32.abs x :: Np.abs row) with (map F32.abs (x :: row)) in Hall.
    rewrite List.Forall_map in Hall.
    rewrite List.Forall_forall in Hall |- *. intros a Ha.
    rewrite <- units_abs; [apply Hall; exact Ha |].
    rewrite List.Forall_forall in Hgood. apply Hgood. exact Ha. }
  split; [| split; [| exact Hallrow]].
  - inversion Hallrow; subst. lia.
  - change (F32.abs x :: Np.abs row) with (map F32.abs (x :: row)) in Hin.
    apply in_map_iff in Hin. destruct Hin as (a & <- & _). destruct a; reflexivity.
Qed.

End AbsMax.

(** * The scale of a row *)

Section Scale.

Lemma of_Z_127 : F32.of_Z 127 = S754_finite false (127 * 2 ^ 17) (-17).
Proof. reflexivity. Qed.

Lemma of_Z_m127 : F32.of_Z (-127) = S754_finite true (127 * 2 ^ 17) (-17).
Proof. reflexivity. Qed.

Lemma one_eq : F32.one = S754_finite false (2 ^ 23) (-23).
Proof. reflexivity. Qed.

Lemma units_127 : units (F32.of_Z 127) = 127 * 2 ^ 149.
Proof. reflexivity. Qed.

Lemma units_one : units F32.one = 2 ^ 149.
Proof. reflexivity. Qed.

Lemma rne_cancel (r n d f : Z) : 0 < f -> rne r (f * n) (d * f) -> rne r n d.
Proof.
  unfold rne. intros Hf [[H1 H2] H3].
  assert (E1 : (2 * r - 1) * (d * f) = f * ((2 * r - 1) * d)) by ring.
  assert (E2 : (2 * r + 1) * (d * f) = f * ((2 * r + 1) * d)) by ring.
  assert (E3 : 2 * (f * n) = f * (2 * n)) by ring.
  rewrite E1, E3 in H1. rewrite E2, E3 in H2. rewrite E1, E2, E3 in H3.
  apply Z.mul_le_mono_pos_l in H1, H2; try assumption.
  split; [split; assumption |].
  intros [E | E]; apply H3; [left | right]; rewrite E; reflexivity.
Qed.

Lemma valid_units_lt (s : bool) (m : positive) (e : Z) :
  valid (S754_finite s m e) = true -> Zpos m * 2 ^ (e + 149) < 2 ^ 277.
Proof.
  intros V. pose proof (valid_finite_bounds _ _ _ V) as (He & Hm & _).
  assert (Hp : 0 < 2 ^ (e + 149)) by (apply Z.pow_pos_nonneg; lia).
  assert (Hle : 2 ^ (e + 149) <= 2 ^ 253) by (apply Z.pow_le_mono_r; lia).
  change (2 ^ 277) with (2 ^ 24 * 2 ^ 253). nia.
Qed.

(** [abs_max / 127.0] for a positive finite [abs_max], in units of
    [2^-149]: a non-negative finite float, the multiple of the power of
    two [g] nearest to the exact quotient. *)
Lemma scale_units (ma : positive) (ea : Z) :
  let a := S754_finite false ma ea in
  valid a = true ->
  exists g mr,
    (exists j, 0 <= j /\ g = 2 ^ j) /\ 0 <= mr <= 2 ^ 24 /\
    rne mr (units a) (g * 127) /\
    (g = 1 \/ 2 ^ 23 * (g * 127) <= units a) /\
    good (F32.div a (F32.of_Z 127)) = true /\
    units (F32.div a (F32.of_Z 127)) = mr * g /\
    (mr = 0 -> F32.div a (F32.of_Z 127) = S754_zero false) /\
    (0 < mr -> exists m e, F32.div a (F32.of_Z 127) = S754_finite false m e).
Proof.
  intros a V. rewrite of_Z_127.
  assert (V127 : valid (S754_finite false (127 * 2 ^ 17) (-17)) = true) by reflexivity.
  destruct (div_units false false ma (127 * 2 ^ 17) ea (-17) V V127)
    as (g & mr & Hg & Hmr & Hrne & Hnorm & Hzero & Hfin).
  fold a in Hrne, Hnorm, Hzero, Hfin.
  pose proof (valid_finite_bounds _ _ _ V) as (Hea & _).
  pose proof (units_finite_pos ma ea ltac:(lia)) as HA.
  pose proof (valid_units_lt _ _ _ V) as HAlt.
  assert (Ea : units a = Zpos ma * 2 ^ (ea + 149)) by reflexivity.
  rewrite <- Ea in HA, HAlt.
  replace (Z.abs (units a)) with (units a) in * by lia.
  change (Z.abs (units (S754_finite false (127 * 2 ^ 17) (-17)))) with (127 * 2 ^ 149) in *.
  assert (HP : 0 < 2 ^ 149) by reflexivity.
  set (P := 2 ^ 149) in *.
  assert (Hrne' : rne mr (units a) (g * 127)).
  { apply (rne_cancel mr (units a) (g * 127) P HP).
    replace (g * 127 * P) with (g * (127 * P)) by ring. exact Hrne. }
  assert (Hnorm' : g = 1 \/ 2 ^ 23 * (g * 127) <= units a).
  { destruct Hnorm as [? | Hn]; [left; assumption | right].
    apply (Z.mul_le_mono_pos_l _ _ P HP).
    replace (P * (2 ^ 23 * (g * 127))) with (2 ^ 23 * (g * (127 * P))) by ring.
    exact Hn. }
  exists g, mr. split; [exact Hg |]. split; [exact Hmr |].
  split; [exact Hrne' |]. split; [exact Hnorm' |].
  destruct Hg as (j & Hj & Eg).
  assert (Hgpos : 0 < g) by (subst g; apply Z.pow_pos_nonneg; lia).
  assert (Hsmall : mr * g < 2 ^ 277).
  { destruct Hrne' as [[Hlo _] _].
    destruct Hnorm' as [-> | Hn].
    - assert (2 ^ 24 < 2 ^ 277) by reflexivity. lia.
    - assert (0 < 2 ^ 23) by reflexivity. nia. }
  pose proof (div_valid a (S754_finite false (127 * 2 ^ 17) (-17))) as Vz.
  destruct (Z.eq_dec mr 0) as [Hz | Hnz].
  - rewrite (Hzero Hz) in *. cbn [xorb] in *.
    split; [reflexivity |]. split; [subst mr; reflexivity |].
    split; [reflexivity | lia].
  - destruct (Hfin ltac:(lia) Hsmall) as (m & e & Ez & He & Hu).
    rewrite Ez in *. cbn [xorb] in *.
    split; [unfold good; rewrite Vz; reflexivity |].
    split; [cbn [units cond_Zopp]; exact Hu |].
    split; [lia |]. intros _. exists m, e. reflexivity.
Qed.

(** The scale underflows to zero exactly when [abs_max] is below 64 units
    of [2^-149]. *)
Lemma scale_zero_iff (ma : positive) (ea : Z) :
  let a := S754_finite false ma ea in
  valid a = true ->
  (is_zero (F32.div a (F32.of_Z 127)) = true <-> units a < 64).
Proof.
  intros a V.
  destruct (scale_units ma ea V)
    as (g & mr & (j & Hj & Eg) & Hmr & [[Hlo Hhi] _] & Hnorm & _ & Hu & Hz & Hf).
  fold a in Hlo, Hhi, Hnorm, Hu, Hz, Hf.
  assert (Hgpos : 0 < g) by (subst g; apply Z.pow_pos_nonneg; lia).
  pose proof (valid_finite_bounds _ _ _ V) as (Hea & _).
  pose proof (units_finite_pos ma ea ltac:(lia)) as HA.
  change (Zpos ma * 2 ^ (ea + 149)) with (units a) in HA.
  assert (0 < 2 ^ 23) by reflexivity.
  split.
  - intros Hzero.
    assert (mr = 0).
    { destruct (Z.eq_dec mr 0) as [? | Hnz]; [assumption |].
      destruct (Hf ltac:(lia)) as (m & e & E). rewrite E in Hzero. discriminate. }
    subst mr. destruct Hnorm as [-> | Hn]; [lia | nia].
  - intros Hlt.
    assert (mr = 0) by nia.
    rewrite (Hz ltac:(assumption)). reflexivity.
Qed.

End Scale.

Section ScaleOne.

(** The scale is 1.0 only for [abs_max = 127.0]. *)
Lemma scale_one_iff (ma : positive) (ea : Z) :
  let a := S754_finite false ma ea in
  valid a = true ->
  (F32.eqb (F32.div a (F32.of_Z 127)) F32.one = true <-> a = F32.of_Z 127).
Proof.
  intros a V. split; [| intros ->; reflexivity].
  destruct (scale_units ma ea V)
    as (g & mr & (j & Hj & Eg) & Hmr & [[Hlo Hhi] _] & Hnorm & Hgood & Hu & _).
  fold a in Hlo, Hhi, Hnorm, Hgood, Hu.
  unfold good in Hgood. apply andb_true_iff in Hgood. destruct Hgood as [Vs Fs].
  rewrite eqb_units by (assumption || reflexivity).
  rewrite units_one, Hu. intros E. apply Z.eqb_eq in E.
  pose proof (valid_finite_bounds _ _ _ V) as (Hea & Hma & Hman).
  assert (Ea : units a = Zpos ma * 2 ^ (ea + 149)) by reflexivity.
  assert (Hgpos : 0 < g) by (subst g; apply Z.pow_pos_nonneg; lia).
  (* the grid step is 2^125 or 2^126 *)
  assert (Hg1 : g <> 1).
  { intros ->. assert (2 ^ 24 < 2 ^ 149) by reflexivity. lia. }
  destruct Hnorm as [? | Hnorm]; [contradiction |].
  assert (Hgle : g <= 2 ^ 126).
  { destruct (Z_le_gt_dec j 126) as [Hle | Hgt].
    - subst g. apply Z.pow_le_mono_r; lia.
    - exfalso. assert (Hbig : 2 ^ 127 <= g) by (subst g; apply Z.pow_le_mono_r; lia).
      assert (0 < 2 ^ 23) by reflexivity.
      assert (2 ^ 127 * (2 ^ 24 - 1) > 2 * 2 ^ 149) by reflexivity.
      nia. }
  assert (Hnear : 127 * 2 ^ 149 - 127 * 2 ^ 125 <= units a <= 127 * 2 ^ 149 + 127 * 2 ^ 125).
  { change (2 ^ 126) with (2 * 2 ^ 125) in Hgle. nia. }
  (* hence the exponent of [abs_max] is -17 *)
  assert (Hea17 : ea = -17).
  { destruct (Z_lt_le_dec ea (-17)) as [Hlt | Hge].
    - exfalso.
      assert (Hp : 2 ^ (ea + 149) <= 2 ^ 131) by (apply Z.pow_le_mono_r; lia).
      assert (0 < 2 ^ (ea + 149)) by (apply Z.pow_pos_nonneg; lia).
      assert (2 ^ 24 * 2 ^ 131 < 127 * 2 ^ 149 - 127 * 2 ^ 125) by reflexivity.
      nia.
    - destruct (Z.eq_dec ea (-17)) as [? | Hne]; [assumption | exfalso].
      destruct Hman as [? | Hman]; [lia |].
      assert (Hp : 2 ^ 133 <= 2 ^ (ea + 149)) by (apply Z.pow_le_mono_r; lia).
      assert (127 * 2 ^ 149 + 127 * 2 ^ 125 < 2 ^ 23 * 2 ^ 133) by reflexivity.
      nia. }
  subst ea. change (2 ^ (-17 + 149)) with (2 ^ 132) in Ea.
  assert (Hm : Zpos ma = 127 * 2 ^ 17).
  { change (127 * 2 ^ 149) with (127 * 2 ^ 17 * 2 ^ 132) in Hnear.
    change (127 * 2 ^ 125) with (127 * 2 ^ 125) in Hnear.
    assert (127 * 2 ^ 125 < 2 ^ 132) by reflexivity.
    assert (0 < 2 ^ 132) by reflexivity.
    nia. }
  subst a. rewrite of_Z_127. f_equal. lia.
Qed.

End ScaleOne.

(** * Rounding to an integer, clamping and conversion to a signed byte *)

Section Rint.

Lemma rint_mag_rne (m k : Z) :
  0 <= m -> 0 <= k -> rne (Np.rint_mag m k) m (2 ^ k) /\ 0 <= Np.rint_mag m k.
Proof.
  intros Hm Hk. unfold Np.rint_mag, rne.
  assert (Hp : 0 < 2 ^ k) by (apply Z.pow_pos_nonneg; lia).
  pose proof (Z.div_mod m (2 ^ k) ltac:(lia)) as E.
  pose proof (Z.mod_pos_bound m (2 ^ k) Hp) as Hr.
  assert (Hq : 0 <= m / 2 ^ k) by (apply Z.div_pos; lia).
  set (q := m / 2 ^ k) in *. set (r := m mod 2 ^ k) in *.
  destruct (Z.compare_spec (2 * r) (2 ^ k)) as [Heq | Hlt | Hgt].
  - destruct (Z.even q) eqn:Ev.
    + split; [| lia]. split; [nia |]. intros _. exact Ev.
    + split; [| lia]. split; [nia |]. intros _. rewrite Z.even_add, Ev. reflexivity.
  - split; [| lia]. split; [nia |]. intros [E' | E']; nia.
  - split; [| lia]. split; [nia |]. intros [E' | E']; nia.
Qed.

Lemma rint_mag_le (m k : Z) :
  0 <= m < 2 ^ 24 -> 0 < k -> Np.rint_mag m k <= 2 ^ 23.
Proof.
  intros Hm Hk. destruct (rint_mag_rne m k ltac:(lia) ltac:(lia)) as [[[Hlo _] _] _].
  assert (Hp : 2 ^ 1 <= 2 ^ k) by (apply Z.pow_le_mono_r; lia).
  change (2 ^ 1) with 2 in Hp. change (2 ^ 24) with (2 * 2 ^ 23) in Hm.
  assert (0 < 2 ^ 23) by reflexivity. nia.
Qed.

Lemma pos_iter_xO (n d : positive) : Zpos (Pos.iter xO n d) = Zpos n * 2 ^ Zpos d.
Proof.
  rewrite (Pos.iter_swap_gen _ _ Zpos xO (Z.mul 2)) by reflexivity.
  rewrite <- Z.shiftl_mul_pow2 by lia. reflexivity.
Qed.

(** A positive integer below [2^24] converts to a float exactly. *)
Lemma binary_round_int (s : bool) (n : positive) :
  Zpos n < 2 ^ 24 ->
  exists m e,
    binary_round prec emax s n 0 = S754_finite s m e /\
    valid (S754_finite s m e) = true /\
    -23 <= e <= 0 /\ Zpos m = Zpos n * 2 ^ (- e).
Proof.
  intros Hn.
  pose proof (Zdigits2_pos (Zpos n) ltac:(lia)) as Hd0.
  assert (Hd : Zdigits2 (Zpos n) <= 24) by (apply Zdigits2_le; lia).
  unfold binary_round. rewrite fexp_eq. fold (Zdigits2 (Zpos n)).
  replace (Z.max (Zdigits2 (Zpos n) + 0 - 24) (-149)) with (Zdigits2 (Zpos n) - 24) by lia.
  set (e := Zdigits2 (Zpos n) - 24).
  assert (Hal : exists mz, shl_align n 0 e = (mz, e) /\ Zpos mz = Zpos n * 2 ^ (- e)).
  { unfold shl_align. replace (e - 0) with e by lia.
    destruct e as [| p | p] eqn:Ee; try lia.
    - exists n. split; [reflexivity | cbn; lia].
    - exists (Pos.iter xO n p). split; [reflexivity |]. apply pos_iter_xO. }
  destruct Hal as (mz & -> & Emz).
  assert (Hdz : Zdigits2 (Zpos mz) = 24).
  { rewrite Emz, Zdigits2_mul_pow2 by lia. lia. }
  assert (Hloc : loc_ok (Zpos mz) loc_Exact (Zpos mz) 1) by (unfold loc_ok; lia).
  assert (Hfe : fexp prec emax (Zdigits2 (Zpos mz) + e) = e) by (rewrite fexp_eq; lia).
  destruct (binary_round_aux_spec s (Zpos mz) e loc_Exact _ _ Hloc ltac:(lia))
    as (mr & [[Hlo Hhi] _] & Hmr & _ & Hres).
  rewrite Hfe, Z.sub_diag, Z.pow_0_r in *.
  assert (mr = Zpos mz) by lia. subst mr.
  destruct Hres as [[? _] | (m & e2 & Hme & Hcan & Hr)]; [lia |].
  destruct Hme as [[-> Em] | [-> Em]]; [| exfalso].
  - exists m, e. change (emax - prec) with 104 in Hr.
    destruct (Z.leb_spec e 104); [| lia].
    split; [exact Hr |]. split; [| split; [lia |]].
    + unfold valid, valid_binary, bounded. rewrite Hcan. apply Z.leb_le.
      change (emax - prec) with 104. lia.
    + injection Em as <-. exact Emz.
  - (* a mantissa of 24 bits is not twice another canonical one at e + 1 *)
    apply canonical_iff in Hcan.
    assert (Zdigits2 (Zpos m) = 23).
    { assert (E2 : Zpos mz = Zpos m * 2 ^ 1) by lia.
      rewrite E2, Zdigits2_mul_pow2 in Hdz by lia. lia. }
    lia.
Qed.

End Rint.

Section Round1.

Lemma good_finite (s : bool) (m : positive) (e : Z) :
  good (S754_finite s m e) = true <-> valid (S754_finite s m e) = true.
Proof. unfold good. cbn [is_finite]. rewrite andb_true_r. reflexivity. Qed.

(** [np.round] on a finite float: the result is a float holding an integer
    [n], the integer nearest to the argument, the even one on a tie. *)
Lemma round1_spec (x : float32) :
  good x = true ->
  exists n : Z,
    good (Np.round1 x) = true /\
    Np.trunc (Np.round1 x) = Some n /\
    units (Np.round1 x) = n * 2 ^ 149 /\
    2 * Z.abs (n * 2 ^ 149 - units x) <= 2 ^ 149 /\
    (2 * Z.abs (n * 2 ^ 149 - units x) = 2 ^ 149 -> Z.even n = true).
Proof.
  intros G. destruct x as [s | s | | s m e]; try discriminate.
  { exists 0. repeat split; cbn; try lia; try reflexivity. }
  pose proof (proj1 (good_finite s m e) G) as V.
  pose proof (valid_finite_bounds _ _ _ V) as (He & Hm & _).
  assert (HP : 0 < 2 ^ 149) by reflexivity.
  cbn [Np.round1]. destruct (Z.leb_spec 0 e) as [Hpos | Hneg].
  - (* already an integer *)
    exists (cond_Zopp s (Zpos m * 2 ^ e)).
    split; [exact G |]. cbn [Np.trunc units].
    destruct (Z.leb_spec 0 e); [| lia].
    split; [reflexivity |].
    assert (Epow : 2 ^ (e + 149) = 2 ^ e * 2 ^ 149) by (apply Z.pow_add_r; lia).
    assert (Eu : cond_Zopp s (Zpos m * 2 ^ (e + 149)) = cond_Zopp s (Zpos m * 2 ^ e) * 2 ^ 149)
      by (rewrite Epow; destruct s; cbn [cond_Zopp]; ring).
    rewrite Eu. split; [reflexivity |].
    rewrite Z.sub_diag. cbn [Z.abs]. split; lia.
  - (* a fraction: round the mantissa *)
    set (k := - e). assert (Hk : 0 < k <= 149) by lia.
    destruct (rint_mag_rne (Zpos m) k ltac:(lia) ltac:(lia)) as [[[Hlo Hhi] Htie] Hn0].
    pose proof (rint_mag_le (Zpos m) k ltac:(lia) ltac:(lia)) as Hn23.
    replace (- e) with k by reflexivity.
    assert (Epow : 2 ^ k * 2 ^ (e + 149) = 2 ^ 149)
      by (rewrite <- Z.pow_add_r by lia; f_equal; lia).
    assert (Hpk : 0 < 2 ^ k) by (apply Z.pow_pos_nonneg; lia).
    assert (Hpe : 0 < 2 ^ (e + 149)) by (apply Z.pow_pos_nonneg; lia).
    set (P := 2 ^ 149) in *. set (u := 2 ^ (e + 149)) in *. set (d := 2 ^ k) in *.
    destruct (Np.rint_mag (Zpos m) k) as [| p | p] eqn:En; try lia.
    + exists 0. split; [reflexivity |]. split; [reflexivity |]. split; [reflexivity |].
      cbn [units]. split.
      * destruct s; cbn [cond_Zopp]; nia.
      * intros _. reflexivity.
    + destruct (binary_round_int s p ltac:(change (2 ^ 24) with (2 * 2 ^ 23); lia))
        as (m' & e' & -> & V' & He' & Em').
      exists (cond_Zopp s (Zpos p)).
      split; [apply good_finite; exact V' |].
      assert (Hpe' : 0 < 2 ^ (- e')) by (apply Z.pow_pos_nonneg; lia).
      split; [| split; [| split]].
      * cbn [Np.trunc]. f_equal. f_equal.
        destruct (Z.leb_spec 0 e') as [H0 | H0].
        -- assert (e' = 0) by lia. subst e'. cbn in Em' |- *. lia.
        -- rewrite Em'. apply Z.div_mul. lia.
      * cbn [units].
        assert (Epow' : 2 ^ (- e') * 2 ^ (e' + 149) = 2 ^ 149)
          by (rewrite <- Z.pow_add_r by lia; f_equal; lia).
        fold P in Epow'. rewrite Em'.
        destruct s; cbn [cond_Zopp]; nia.
      * cbn [units]. destruct s; cbn [cond_Zopp]; nia.
      * cbn [units]. intros Hhalf.
        assert (Ev : Z.even (Zpos p) = true).
        { apply Htie. destruct s; cbn [cond_Zopp] in Hhalf; nia. }
        destruct s; cbn [cond_Zopp]; [rewrite Z.even_opp |]; exact Ev.
Qed.

End Round1.

Section Clip.

Lemma quantize1_inf (s : bool) :
  quantize1 (S754_infinity s) = Ok (if s then -127 else 127).
Proof. destruct s; reflexivity. Qed.

Lemma quantize1_nan : quantize1 S754_nan = Raise InvalidCast.
Proof. reflexivity. Qed.

(** On a finite quotient the byte is the nearest integer, clamped. *)
Lemma quantize1_good (q : float32) :
  good q = true ->
  exists n : Z,
    2 * Z.abs (n * 2 ^ 149 - units q) <= 2 ^ 149 /\
    (2 * Z.abs (n * 2 ^ 149 - units q) = 2 ^ 149 -> Z.even n = true) /\
    Np.trunc (Np.round1 q) = Some n /\
    quantize1 q = Ok (Z.max (-127) (Z.min 127 n)).
Proof.
  intros G. destruct (round1_spec q G) as (n & Gr & Htr & Hu & Herr & Htie).
  exists n. split; [exact Herr |]. split; [exact Htie |]. split; [exact Htr |].
  unfold quantize1, Np.clip1.
  set (t := Np.round1 q) in *.
  assert (Glo : good (F32.of_Z (-127)) = true) by reflexivity.
  assert (Ghi : good (F32.of_Z 127) = true) by reflexivity.
  unfold good in Gr, Glo, Ghi. apply andb_true_iff in Gr, Glo, Ghi.
  destruct Gr as [Vt Ft], Glo as [Vlo Flo], Ghi as [Vhi Fhi].
  assert (Nt : is_nan t = false) by (destruct t; try discriminate; reflexivity).
  rewrite Nt. cbn [orb].
  rewrite (ltb_units _ t Vlo Vt Flo Ft), Hu.
  change (units (F32.of_Z (-127))) with (-127 * 2 ^ 149).
  assert (HP : 0 < 2 ^ 149) by reflexivity. set (P := 2 ^ 149) in *.
  destruct (Z.ltb_spec (-127 * P) (n * P)) as [Hlo | Hlo].
  - rewrite Nt. cbn [orb]. rewrite (ltb_units t _ Vt Vhi Ft Fhi), Hu.
    change (units (F32.of_Z 127)) with (127 * P).
    destruct (Z.ltb_spec (n * P) (127 * P)) as [Hhi | Hhi].
    + unfold Np.int8_of_float. rewrite Htr.
      assert (Hn : -127 < n < 127) by nia.
      destruct (Z.leb_spec (-128) n); [| lia].
      destruct (Z.leb_spec n 127); [| lia].
      cbn [andb]. f_equal. lia.
    + assert (Hn : 127 <= n) by nia.
      replace (Z.max (-127) (Z.min 127 n)) with 127 by lia. reflexivity.
  - assert (Hn : n <= -127) by nia.
    replace (Z.max (-127) (Z.min 127 n)) with (-127) by lia. reflexivity.
Qed.

(** Whatever the quotient, a byte that comes out lies in [-127, 127]. *)
Lemma quantize1_range (q : float32) (v : Z) :
  valid q = true -> quantize1 q = Ok v -> -127 <= v <= 127.
Proof.
  intros V H. destruct q as [s | s | | s m e].
  - destruct (quantize1_good (S754_zero s) eq_refl) as (n & _ & _ & _ & E).
    rewrite E in H. injection H as <-. lia.
  - rewrite quantize1_inf in H. injection H as <-. destruct s; lia.
  - discriminate.
  - destruct (quantize1_good (S754_finite s m e)) as (n & _ & _ & _ & E).
    + apply good_finite. exact V.
    + rewrite E in H. injection H as <-. lia.
Qed.

End Clip.

(** * The loop and the file *)

Section Loop.

Lemma Ok_inj {A} (a b : A) : Ok a = Ok b -> a = b.
Proof. intros E. injection E as E. exact E. Qed.

Lemma mapM_Ok {A B} (f : A -> result B) (l : list A) (bs : list B) :
  mapM f l = Ok bs <-> Forall2 (fun a b => f a = Ok b) l bs.
Proof.
  revert bs. induction l as [| a l IH]; intros bs; cbn [mapM].
  - split.
    + intros E. injection E as <-. constructor.
    + intros H. inversion H. reflexivity.
  - split.
    + destruct (f a) as [b |] eqn:Ea; cbn; [| discriminate].
      destruct (mapM f l) as [bs' |] eqn:El; cbn; [| discriminate].
      intros E. injection E as <-. constructor; [exact Ea | apply IH; reflexivity].
    + intros H. inversion H as [| ? b ? bs' Ea Hl]; subst.
      rewrite Ea. cbn. rewrite (proj2 (IH bs') Hl). reflexivity.
Qed.

Lemma mapM_length {A B} (f : A -> result B) (l : list A) (bs : list B) :
  mapM f l = Ok bs -> length bs = length l.
Proof.
  rewrite mapM_Ok. intros H. induction H; cbn; congruence.
Qed.

Lemma mapM_total {A B} (f : A -> result B) (l : list A) :
  Forall (fun a => is_ok (f a) = true) l -> exists bs, mapM f l = Ok bs.
Proof.
  induction 1 as [| a l Ha Hl [bs IH]]; cbn [mapM].
  - exists []. reflexivity.
  - destruct (f a) as [b |]; [| discriminate].
    exists (b :: bs). cbn. rewrite IH. reflexivity.
Qed.

Lemma q_row_mapM (row : list float32) (scale : float32) :
  q_row row scale = mapM (fun x => quantize1 (F32.div x scale)) row.
Proof.
  unfold q_row, Np.astype_int8, Np.clip, Np.round, Np.divide.
  induction row as [| x row IH]; [reflexivity |].
  cbn [map mapM]. rewrite IH. reflexivity.
Qed.

Lemma q_row_length (row : list float32) (scale : float32) (q : list Z) :
  q_row row scale = Ok q -> length q = length row.
Proof. rewrite q_row_mapM. apply mapM_length. Qed.

Lemma quantize_row_length (row : list float32) (scale : float32) (bytes : list Byte.byte) :
  quantize_row row = Ok (scale, bytes) -> length bytes = length row.
Proof.
  unfold quantize_row. destruct (row_scale row) as [s |]; cbn; [| discriminate].
  destruct (q_row row s) as [q |] eqn:Eq; cbn; [| discriminate].
  intros E. injection E as <- <-. unfold Np.view_uint8.
  rewrite length_map. eapply q_row_length. exact Eq.
Qed.

Lemma loop_body_eq (emb_reduced : list (list float32)) (i : nat) (row : list float32)
    (scales : list float32) (quantized : list (list Byte.byte)) :
  nth_error emb_reduced i = Some row ->
  loop_body emb_reduced (scales, quantized) i =
  (r ← quantize_row row; Ok (scales ++ [fst r], quantized ++ [snd r])).
Proof.
  intros E. unfold loop_body, getitem, quantize_row. rewrite E. cbn.
  destruct (row_scale row) as [scale |]; cbn; [| reflexivity].
  destruct (q_row row scale) as [q |]; reflexivity.
Qed.

(** The loop appends, row after row, what [quantize_row] gives. *)
Lemma foldM_loop_body (pre rows : list (list float32))
    (scales : list float32) (quantized : list (list Byte.byte)) :
  foldM (loop_body (pre ++ rows)) (seq (length pre) (length rows)) (scales, quantized) =
  (rs ← mapM quantize_row rows; Ok (scales ++ map fst rs, quantized ++ map snd rs)).
Proof.
  revert pre scales quantized.
  induction rows as [| row rows IH]; intros pre scales quantized.
  - cbn. rewrite !app_nil_r. reflexivity.
  - cbn [length seq foldM mapM].
    rewrite (loop_body_eq _ _ row)
      by (rewrite nth_error_app2 by lia; rewrite Nat.sub_diag; reflexivity).
    destruct (quantize_row row) as [[scale bytes] |]; cbn; [| reflexivity].
    replace (pre ++ row :: rows) with ((pre ++ [row]) ++ rows)
      by (rewrite <- app_assoc; reflexivity).
    replace (S (length pre)) with (length (pre ++ [row]))
      by (rewrite length_app; cbn; lia).
    rewrite IH.
    destruct (mapM quantize_row rows) as [rs |]; cbn; [| reflexivity].
    rewrite <- !app_assoc. reflexivity.
Qed.

Lemma quantize_eq (emb_reduced : list (list float32)) :
  quantize (length emb_reduced) emb_reduced =
  (rs ← mapM quantize_row emb_reduced;
   quantized ← Np.vstack (map snd rs);
   Ok (map fst rs, quantized)).
Proof.
  unfold quantize.
  pose proof (foldM_loop_body [] emb_reduced [] []) as H. cbn [app length] in H.
  rewrite H. destruct (mapM quantize_row emb_reduced) as [rs |]; reflexivity.
Qed.

Lemma vstack_Ok {A} (rows out : list (list A)) :
  Np.vstack rows = Ok out -> out = rows /\ rows <> [].
Proof.
  unfold Np.vstack. destruct rows as [| r rows]; [discriminate |].
  destruct (forallb _ rows); [| discriminate].
  intros E. injection E as <-. split; [reflexivity | discriminate].
Qed.

Lemma vstack_same_length {A} (k : nat) (rows : list (list A)) :
  rows <> [] -> Forall (fun r => length r = k) rows -> Np.vstack rows = Ok rows.
Proof.
  intros Hne H. destruct rows as [| r rows]; [contradiction |].
  unfold Np.vstack. inversion H as [| ? ? Hr Hrows]; subst.
  replace (forallb _ rows) with true; [reflexivity |].
  symmetry. apply forallb_forall. rewrite List.Forall_forall in Hrows.
  intros r' Hin. apply Nat.eqb_eq. apply Hrows. exact Hin.
Qed.

End Loop.

Section File.

Lemma native_bytes32_length (order : byteorder) (v : Z) :
  length (native_bytes32 order v) = 4%nat.
Proof. destruct order; reflexivity. Qed.

Lemma scales_tobytes_length (order : byteorder) (scales : list float32) :
  length (scales_tobytes order scales) = (4 * length scales)%nat.
Proof.
  unfold scales_tobytes. induction scales as [| s scales IH]; [reflexivity |].
  cbn [map concat length]. rewrite length_app, native_bytes32_length, IH. lia.
Qed.

Lemma quantized_tobytes_length (k : nat) (quantized : list (list Byte.byte)) :
  Forall (fun r => length r = k) quantized ->
  length (quantized_tobytes quantized) = (length quantized * k)%nat.
Proof.
  unfold quantized_tobytes. induction 1 as [| r rows Hr Hrows IH]; [reflexivity |].
  cbn [concat length]. rewrite length_app, Hr, IH. lia.
Qed.

Lemma struct_pack_III_Ok (order : byteorder) (a b c : Z) (header : list Byte.byte) :
  struct_pack_III order a b c = Ok header ->
  header = native_bytes32 order a ++ native_bytes32 order b ++ native_bytes32 order c /\
  length header = 12%nat /\ 0 <= a < 2 ^ 32 /\ 0 <= b < 2 ^ 32 /\ 0 <= c < 2 ^ 32.
Proof.
  unfold struct_pack_III. destruct (forallb _ _) eqn:E; [| discriminate].
  intros H. injection H as <-.
  split; [reflexivity |].
  split; [rewrite !length_app, !native_bytes32_length; reflexivity |].
  cbn [forallb] in E. rewrite !andb_true_iff in E.
  rewrite !Z.leb_le, !Z.ltb_lt in E. lia.
Qed.

Lemma struct_pack_III_total (order : byteorder) (a b c : Z) :
  0 <= a < 2 ^ 32 -> 0 <= b < 2 ^ 32 -> 0 <= c < 2 ^ 32 ->
  struct_pack_III order a b c =
  Ok (native_bytes32 order a ++ native_bytes32 order b ++ native_bytes32 order c).
Proof.
  intros Ha Hb Hc. unfold struct_pack_III.
  replace (forallb _ _) with true; [reflexivity |].
  symmetry. cbn [forallb]. rewrite !andb_true_iff, !Z.leb_le, !Z.ltb_lt. lia.
Qed.

(** What the [with] block leaves in the file system. *)
Lemma write_binary_spec (order : byteorder) (target_dim vocab_size : nat)
    (scales : list float32) (quantized : list (list Byte.byte)) (fs : filesystem) :
  write_binary order target_dim vocab_size scales quantized fs =
  match struct_pack_III order (Z.of_nat vocab_size) (Z.of_nat target_dim) 1 with
  | Ok header =>
      (<[OUTPUT := header ++ scales_tobytes order scales ++ quantized_tobytes quantized]> fs,
       Ok tt)
  | Raise e => (<[OUTPUT := []]> fs, Raise e)
  end.
Proof.
  unfold write_binary, open_wb, write.
  destruct (struct_pack_III _ _ _ _) as [header | e]; [| reflexivity].
  rewrite !lookup_insert_eq, !insert_insert_eq. cbn [app].
  rewrite <- app_assoc. reflexivity.
Qed.

End File.

Section RowScale.

Lemma good_units_zero (x : float32) :
  good x = true -> (units x = 0 <-> is_zero x = true).
Proof.
  intros G. destruct x as [s | s | | s m e]; try discriminate.
  - cbn. tauto.
  - apply good_finite in G. pose proof (valid_finite_bounds _ _ _ G) as (He & _).
    pose proof (units_finite_pos m e ltac:(lia)).
    cbn [units is_zero]. split; [| discriminate].
    destruct s; cbn [cond_Zopp]; lia.
Qed.

(** Lines 35-36 on a non-empty row of finite floats. *)
Lemma row_scale_spec (row : list float32) :
  row <> [] -> Forall (fun x => good x = true) row ->
  exists abs_max,
    Np.max (Np.abs row) = Ok abs_max /\
    In abs_max (Np.abs row) /\
    Forall (fun x => Z.abs (units x) <= units abs_max) row /\
    ((all_zero row = true /\ abs_max = S754_zero false /\
      row_scale row = Ok F32.one) \/
     (all_zero row = false /\
      (exists ma ea, abs_max = S754_finite false ma ea) /\
      valid abs_max = true /\
      row_scale row = Ok (F32.div abs_max (F32.of_Z 127)))).
Proof.
  intros Hne Hgood.
  destruct (abs_max_spec row Hne Hgood) as (a & Emax & Hin & Ga & Hpos & Habs & Hall).
  exists a. split; [exact Emax |]. split; [exact Hin |]. split; [exact Hall |].
  unfold row_scale. rewrite Emax. cbn.
  destruct a as [s | s | | s m e]; try discriminate.
  - left. destruct s; [discriminate |].
    split; [| split; reflexivity].
    unfold all_zero. apply forallb_forall. intros x Hx.
    rewrite List.Forall_forall in Hall, Hgood.
    apply good_units_zero; [apply Hgood; exact Hx |].
    specialize (Hall x Hx). cbn in Hall. lia.
  - right. destruct s; [discriminate |].
    split; [| split; [exists m, e; reflexivity | split; [| reflexivity]]].
    + destruct (all_zero row) eqn:Ez; [exfalso | reflexivity].
      unfold all_zero in Ez. rewrite forallb_forall in Ez.
      unfold Np.abs in Hin. apply in_map_iff in Hin. destruct Hin as (x & Ex & Hx).
      specialize (Ez x Hx). destruct x; discriminate.
    + apply good_finite. exact Ga.
Qed.

End RowScale.

Section ErrorBound.

(** The arithmetic of the bound, on integers.  [S] and [X] are the scale
    and the magnitude of the element in units, [Qa = mr * g] the magnitude
    of the float quotient, [n] the integer it rounds to, [sg] the sign. *)
Lemma quotient_small (P S A X g mr : Z) :
  P = 2 ^ 149 -> 0 < S ->
  2 ^ 24 * A <= 127 * S * (2 ^ 24 + 1) ->
  0 <= X <= A -> 0 <= mr <= 2 ^ 24 -> 1 <= g ->
  (2 * mr - 1) * (g * S) <= 2 * (P * X) ->
  (g = 1 \/ 2 ^ 23 * (g * S) <= P * X) ->
  2 * (mr * g) < 255 * P.
Proof.
  intros -> HS HA HX Hmr Hg Hlo [-> | Hn].
  - assert (2 ^ 25 < 255 * 2 ^ 149) by reflexivity. lia.
  - assert (H1 : 2 ^ 24 * (mr * g * S) <= (2 ^ 24 + 1) * (2 ^ 149 * X)) by nia.
    assert (H2 : 2 ^ 24 * (2 ^ 149 * X) <= 2 ^ 149 * (127 * S * (2 ^ 24 + 1))) by nia.
    assert (H3 : 2 ^ 48 * (mr * g * S) <= (2 ^ 24 + 1) * (2 ^ 24 + 1) * 127 * 2 ^ 149 * S) by nia.
    assert (H4 : 2 ^ 48 * (mr * g) <= (2 ^ 24 + 1) * (2 ^ 24 + 1) * 127 * 2 ^ 149).
    { apply (Z.mul_le_mono_pos_r _ _ S HS). nia. }
    assert (2 * ((2 ^ 24 + 1) * (2 ^ 24 + 1) * 127 * 2 ^ 149) < 2 ^ 48 * (255 * 2 ^ 149))
      by reflexivity.
    lia.
Qed.

Lemma dequant_arith (P S X g mr n sg : Z) :
  P = 2 ^ 149 -> 2 ^ 23 <= S -> 0 <= X -> 0 <= mr <= 2 ^ 24 -> 1 <= g ->
  (sg = 1 \/ sg = -1) ->
  (2 * mr - 1) * (g * S) <= 2 * (P * X) <= (2 * mr + 1) * (g * S) ->
  (g = 1 \/ 2 ^ 23 * (g * S) <= P * X) ->
  2 * (mr * g) < 255 * P ->
  2 * Z.abs (n * P - sg * (mr * g)) <= P ->
  -127 <= n <= 127 /\
  2 ^ 25 * Z.abs (n * S - sg * X) <= 2 ^ 24 * S + 2 * X.
Proof.
  intros -> HS HX Hmr Hg Hsg [Hlo Hhi] Hnorm Hsmall Hn.
  assert (HP : 0 < 2 ^ 149) by reflexivity.
  set (P := 2 ^ 149) in *.
  split; [destruct Hsg as [-> | ->]; lia |].
  destruct Hnorm as [-> | Hnorm].
  - (* the quotient is below 2^-125: it rounds to zero *)
    assert (Hn0 : n = 0).
    { assert (2 * 2 ^ 24 + P < 2 * P) by reflexivity.
      destruct Hsg as [-> | ->]; nia. }
    subst n.
    assert (HX' : 2 * (P * X) <= (2 ^ 25 + 1) * S) by nia.
    assert (Hbig : 2 ^ 25 * (2 ^ 25 + 1) <= 2 ^ 24 * (2 * P)) by (unfold P; lia).
    assert (HX2 : 2 ^ 25 * (2 * (P * X)) <= 2 ^ 24 * (2 * P) * S) by nia.
    assert (HX3 : 2 ^ 25 * X <= 2 ^ 24 * S).
    { apply (Z.mul_le_mono_pos_l _ _ (2 * P)); [lia |]. nia. }
    destruct Hsg as [-> | ->]; lia.
  - (* the quotient is a normal float: relative error 2^-24 *)
    assert (H1 : 2 * Z.abs (n * P - sg * (mr * g)) * S <= P * S) by nia.
    assert (H2 : 2 * Z.abs (mr * g * S - P * X) <= g * S) by lia.
    assert (H3 : 2 ^ 24 * (g * S) <= 2 * (P * X)) by lia.
    assert (H4 : P * (2 ^ 25 * Z.abs (n * S - sg * X)) <= P * (2 ^ 24 * S + 2 * X)).
    { assert (Htri : P * Z.abs (n * S - sg * X) <=
                     Z.abs (n * P - sg * (mr * g)) * S + Z.abs (mr * g * S - P * X)).
      { destruct Hsg as [-> | ->]; nia. }
      nia. }
    apply (Z.mul_le_mono_pos_l _ _ P HP). exact H4.
Qed.

End ErrorBound.

Section ElementBound.

Lemma quantize1_zero (s : bool) : quantize1 (S754_zero s) = Ok 0.
Proof. destruct s; reflexivity. Qed.

(** One element of a row whose scale is a normal float: the byte is in
    range and dequantizes to within half a scale, plus the rounding error
    of the float division. *)
Lemma element_bound (ma : positive) (ea : Z) (x : float32) :
  let a := S754_finite false ma ea in
  let sc := F32.div a (F32.of_Z 127) in
  valid a = true ->
  2 ^ 23 <= units sc ->
  good x = true -> Z.abs (units x) <= units a ->
  exists v,
    quantize1 (F32.div x sc) = Ok v /\ -127 <= v <= 127 /\
    2 ^ 25 * Z.abs (v * units sc - units x) <= 2 ^ 24 * units sc + 2 * Z.abs (units x).
Proof.
  intros a sc V HS G HX.
  destruct (scale_units ma ea V)
    as (g & mr & (j & Hj & Eg) & Hmr & [[_ Hhi] _] & Hnorm & Gsc & Hu & _ & Hfin).
  fold a in Hhi, Hnorm, Gsc, Hu, Hfin. fold sc in Gsc, Hu, Hfin.
  assert (Hgpos : 1 <= g) by (subst g; pose proof (Z.pow_pos_nonneg 2 j); lia).
  assert (Hmrpos : 0 < mr) by nia.
  destruct (Hfin Hmrpos) as (ms & es & Esc).
  assert (Vsc : valid (S754_finite false ms es) = true).
  { rewrite <- Esc. unfold good in Gsc. apply andb_true_iff in Gsc. tauto. }
  (* abs_max is at most 127 (1 + 2^-24) scales *)
  assert (H23 : 2 ^ 23 * g <= units sc).
  { destruct Hnorm as [-> | Hn]; [lia |]. assert (2 ^ 23 <= mr) by nia. nia. }
  assert (HA : 2 ^ 24 * units a <= 127 * units sc * (2 ^ 24 + 1)).
  { rewrite Hu in H23 |- *. clear - Hhi H23. lia. }
  destruct x as [sx | sx | | sx mx ex]; try discriminate.
  - (* a zero element *)
    assert (Eq : F32.div (S754_zero sx) sc = S754_zero (xorb sx false))
      by (rewrite Esc; reflexivity).
    exists 0. rewrite Eq, quantize1_zero.
    split; [reflexivity |]. split; [lia |]. cbn [units]. lia.
  - apply good_finite in G.
    destruct (div_units sx false mx ms ex es G Vsc)
      as (g' & mr' & (j' & Hj' & Eg') & Hmr' & [[Hlo' Hhi'] _] & Hnorm' & Hz' & Hf').
    rewrite <- Esc in Hlo', Hhi', Hnorm', Hz', Hf'.
    assert (Hg'pos : 1 <= g') by (subst g'; pose proof (Z.pow_pos_nonneg 2 j'); lia).
    replace (Z.abs (units sc)) with (units sc) in * by lia.
    set (X := Z.abs (units (S754_finite sx mx ex))) in *.
    set (S := units sc) in *.
    assert (HX0 : 0 <= X) by (subst X; lia).
    pose proof (quotient_small (2 ^ 149) S (units a) X g' mr' eq_refl
                  ltac:(lia) HA ltac:(lia) Hmr' Hg'pos Hlo' Hnorm') as Hsmall.
    set (sg := if sx then -1 else 1).
    assert (Hsg : sg = 1 \/ sg = -1) by (subst sg; destruct sx; auto).
    assert (EX : units (S754_finite sx mx ex) = sg * X).
    { subst X sg. pose proof (valid_finite_bounds _ _ _ G) as (He & _).
      rewrite units_finite_abs by lia. pose proof (units_finite_pos mx ex ltac:(lia)).
      cbn [units]. destruct sx; cbn [cond_Zopp]; lia. }
    assert (Hq : good (F32.div (S754_finite sx mx ex) sc) = true /\
                 units (F32.div (S754_finite sx mx ex) sc) = sg * (mr' * g')).
    { destruct (Z.eq_dec mr' 0) as [E0 | Hne].
      - rewrite (Hz' E0). subst mr'. split; [reflexivity | cbn; lia].
      - assert (Hlt : mr' * g' < 2 ^ 277).
        { assert (255 * 2 ^ 149 < 2 * 2 ^ 277) by reflexivity. lia. }
        destruct (Hf' ltac:(lia) Hlt) as (m & e & Eq & He & Hval).
        rewrite Eq. rewrite xorb_false_r.
        split.
        + apply good_finite. rewrite <- (xorb_false_r sx), <- Eq. apply div_valid.
        + cbn [units]. rewrite Hval. subst sg. destruct sx; cbn [cond_Zopp]; lia. }
    destruct Hq as [Gq Uq].
    destruct (quantize1_good _ Gq) as (n & Hn & _ & _ & Eq1).
    rewrite Uq in Hn.
    destruct (dequant_arith (2 ^ 149) S X g' mr' n sg eq_refl HS HX0 Hmr' Hg'pos Hsg
                (conj Hlo' Hhi') Hnorm' Hsmall Hn) as [Hrange Hbound].
    exists n. rewrite Eq1.
    split; [f_equal; lia |]. split; [exact Hrange |].
    rewrite EX. replace (Z.abs (sg * X)) with X by (destruct Hsg as [-> | ->]; lia).
    exact Hbound.
Qed.

End ElementBound.

(** * From units to rational values *)

Section Rational.

Lemma pow2_pos (e : Z) : (0 < pow2 e)%Q.
Proof. destruct e; reflexivity. Qed.

Lemma pow2_units (e : Z) :
  -149 <= e -> (pow2 e == inject_Z (2 ^ (e + 149)) * pow2 (-149))%Q.
Proof.
  intros He.
  destruct e as [| p | p]; unfold Qeq, pow2, Qmult, inject_Z; cbn [Qnum Qden].
  - reflexivity.
  - rewrite Pos2Z.inj_pow, Z.pow_add_r by lia.
    change (Zpos (1 * 2 ^ 149)) with (2 ^ 149). lia.
  - rewrite !Pos2Z.inj_mul, Pos2Z.inj_pow.
    change (Zpos (2 ^ 149)) with (2 ^ 149).
    assert (E : 2 ^ (Zneg p + 149) * 2 ^ Zpos p = 2 ^ 149)
      by (rewrite <- Z.pow_add_r by lia; f_equal; lia).
    lia.
Qed.

(** The value of a finite float is its number of units times [2^-149]. *)
Lemma B2Q_units (x : float32) :
  good x = true -> (B2Q x == inject_Z (units x) * pow2 (-149))%Q.
Proof.
  intros G. destruct x as [s | s | | s m e]; try discriminate.
  - cbn [B2Q units]. rewrite Qmult_0_l. reflexivity.
  - apply good_finite in G. pose proof (valid_finite_bounds _ _ _ G) as (He & _).
    cbn [B2Q units]. rewrite (pow2_units e) by lia.
    assert (E : cond_Zopp s (Zpos m * 2 ^ (e + 149)) = cond_Zopp s (Zpos m) * 2 ^ (e + 149))
      by (destruct s; cbn [cond_Zopp]; ring).
    rewrite E, inject_Z_mult. ring.
Qed.

Lemma Qabs_units (z : Z) :
  (Qabs (inject_Z z * pow2 (-149)) == inject_Z (Z.abs z) * pow2 (-149))%Q.
Proof.
  rewrite Qabs_Qmult. rewrite (Qabs_pos (pow2 (-149))) by (apply Qlt_le_weak, pow2_pos).
  reflexivity.
Qed.

(** The bound of [element_bound], on rational values. *)
Lemma bound_rational (v S X : Z) :
  2 ^ 25 * Z.abs (v * S - X) <= 2 ^ 24 * S + 2 * Z.abs X ->
  (Qabs (inject_Z v * (inject_Z S * pow2 (-149)) - inject_Z X * pow2 (-149)) <=
   (inject_Z S * pow2 (-149)) / 2 + pow2 (-24) * Qabs (inject_Z X * pow2 (-149)))%Q.
Proof.
  intros H.
  assert (Hu : (0 <= pow2 (-149))%Q) by (apply Qlt_le_weak, pow2_pos).
  set (u := pow2 (-149)) in *.
  assert (E1 : (inject_Z v * (inject_Z S * u) - inject_Z X * u ==
                inject_Z (v * S - X) * u)%Q).
  { unfold Z.sub. rewrite inject_Z_plus, inject_Z_mult, inject_Z_opp. ring. }
  rewrite E1. unfold u at 1 3. rewrite !Qabs_units. fold u.
  rewrite Zle_Qle in H.
  rewrite inject_Z_plus, !inject_Z_mult in H.
  set (a := inject_Z (Z.abs (v * S - X))) in *.
  set (s := inject_Z S) in *. set (xa := inject_Z (Z.abs X)) in *.
  change (pow2 (-24)) with (1 # 16777216)%Q.
  change (inject_Z (2 ^ 25)) with (33554432 # 1)%Q in H.
  change (inject_Z (2 ^ 24)) with (16777216 # 1)%Q in H.
  change (inject_Z 2) with (2 # 1)%Q in H.
  assert (E : (s * u / 2 + (1 # 16777216) * (xa * u) - a * u ==
               (1 # 33554432) * u *
               ((16777216 # 1) * s + (2 # 1) * xa - (33554432 # 1) * a))%Q) by field.
  assert (Hprod : (0 <= (1 # 33554432) * u *
                   ((16777216 # 1) * s + (2 # 1) * xa - (33554432 # 1) * a))%Q).
  { apply Qmult_le_0_compat; [apply Qmult_le_0_compat; [discriminate | exact Hu] | lra]. }
  lra.
Qed.

End Rational.

Section Run.

Lemma Forall2_nth_error {A B} (P : A -> B -> Prop) (l : list A) (l' : list B) (i : nat) (a : A) :
  List.Forall2 P l l' -> nth_error l i = Some a ->
  exists b, nth_error l' i = Some b /\ P a b.
Proof.
  intros H. revert i. induction H as [| x y l l' Hxy Hl IH]; intros i Hi.
  - destruct i; discriminate.
  - destruct i as [| i]; cbn in *.
    + injection Hi as <-. exists y. auto.
    + apply IH. exact Hi.
Qed.

(** A successful run of the loop, row by row. *)
Lemma quantize_Ok (emb_reduced : list (list float32))
    (scales : list float32) (quantized : list (list Byte.byte)) :
  quantize (length emb_reduced) emb_reduced = Ok (scales, quantized) ->
  emb_reduced <> [] /\
  length scales = length emb_reduced /\ length quantized = length emb_reduced /\
  forall i row, nth_error emb_reduced i = Some row ->
    exists scale bytes,
      quantize_row row = Ok (scale, bytes) /\
      nth_error scales i = Some scale /\ nth_error quantized i = Some bytes.
Proof.
  rewrite quantize_eq.
  destruct (mapM quantize_row emb_reduced) as [rs |] eqn:Ers; cbn; [| discriminate].
  destruct (Np.vstack (map snd rs)) as [out |] eqn:Ev; cbn; [| discriminate].
  intros E. injection E as <- <-.
  apply vstack_Ok in Ev. destruct Ev as [-> Hne].
  pose proof (mapM_length _ _ _ Ers) as Hlen.
  split; [intros ->; cbn in Ers; injection Ers as <-; apply Hne; reflexivity |].
  split; [rewrite length_map; exact Hlen |].
  split; [rewrite length_map; exact Hlen |].
  intros i row Hi. apply mapM_Ok in Ers.
  destruct (Forall2_nth_error _ _ _ _ _ Ers Hi) as ([scale bytes] & Hnth & Hq).
  exists scale, bytes. split; [exact Hq |].
  rewrite !nth_error_map, Hnth. split; reflexivity.
Qed.

(** The loop succeeds when every row does and there is at least one row
    (all rows of a matrix have one length). *)
Lemma quantize_total (k : nat) (emb_reduced : list (list float32)) :
  emb_reduced <> [] ->
  Forall (fun row => length row = k) emb_reduced ->
  Forall (fun row => is_ok (quantize_row row) = true) emb_reduced ->
  exists scales quantized,
    quantize (length emb_reduced) emb_reduced = Ok (scales, quantized).
Proof.
  intros Hne Hlen Hok. rewrite quantize_eq.
  destruct (mapM_total _ _ Hok) as [rs Ers]. rewrite Ers. cbn.
  assert (Hrows : Forall (fun r => length r = k) (map snd rs)).
  { apply mapM_Ok in Ers. clear Hok Hne.
    induction Ers as [| row [scale bytes] rows rs Hq Hrest IH]; [constructor |].
    inversion Hlen as [| ? ? Hrow Hlen']; subst. cbn [map snd].
    constructor; [| apply IH; exact Hlen'].
    apply quantize_row_length in Hq. exact Hq. }
  rewrite (vstack_same_length k).
  - cbn. eauto.
  - destruct emb_reduced; [contradiction |]. cbn in Ers.
    destruct (quantize_row l); cbn in Ers; [| discriminate].
    destruct (mapM quantize_row emb_reduced); cbn in Ers; [| discriminate].
    injection Ers as <-. discriminate.
  - exact Hrows.
Qed.

Lemma quantized_rows_length (k : nat) (emb_reduced : list (list float32))
    (scales : list float32) (quantized : list (list Byte.byte)) :
  Forall (fun row => length row = k) emb_reduced ->
  quantize (length emb_reduced) emb_reduced = Ok (scales, quantized) ->
  Forall (fun r => length r = k) quantized.
Proof.
  intros Hlen Hq. destruct (quantize_Ok _ _ _ Hq) as (_ & _ & Hl & Hnth).
  apply List.Forall_forall. intros r Hr.
  apply In_nth_error in Hr. destruct Hr as [i Hi].
  assert (Hlt : (i < length emb_reduced)%nat).
  { rewrite <- Hl. apply nth_error_Some. rewrite Hi. discriminate. }
  destruct (nth_error emb_reduced i) as [row |] eqn:Erow;
    [| apply nth_error_None in Erow; lia].
  destruct (Hnth i row Erow) as (scale & bytes & Hrow & _ & Hb).
  rewrite Hi in Hb. injection Hb as <-.
  rewrite (quantize_row_length _ _ _ Hrow).
  rewrite List.Forall_forall in Hlen. apply Hlen. eapply nth_error_In. exact Erow.
Qed.

End Run.

Section Bytes.

Lemma byte_of_Z_to_N (z : Z) : Byte.to_N (Np.byte_of_Z z) = Z.to_N (z mod 256).
Proof.
  unfold Np.byte_of_Z.
  pose proof (Z.mod_pos_bound z 256 ltac:(lia)) as Hb.
  destruct (Byte.of_N (Z.to_N (z mod 256))) as [b |] eqn:E.
  - apply Byte.to_of_N. exact E.
  - exfalso. apply Byte.of_N_None_iff in E. lia.
Qed.

(** The byte 0x80, which reads -128 as a signed byte, is not the image of
    a value in [-127, 127]. *)
Lemma byte_of_Z_not_x80 (v : Z) : -127 <= v <= 127 -> Np.byte_of_Z v <> Byte.x80.
Proof.
  intros Hv E. apply (f_equal Byte.to_N) in E. rewrite byte_of_Z_to_N in E.
  change (Byte.to_N Byte.x80) with 128%N in E.
  assert (Hm : v mod 256 = v \/ v mod 256 = v + 256).
  { destruct (Z_lt_le_dec v 0).
    - right. symmetry. apply Z.mod_unique with (-1); lia.
    - left. apply Z.mod_small. lia. }
  lia.
Qed.

End Bytes.

Section HalfEven.

Lemma Qfloor_unique (x : Q) (f : Z) :
  (inject_Z f <= x)%Q -> (x < inject_Z (f + 1))%Q -> Qfloor x = f.
Proof.
  intros Hlo Hhi.
  pose proof (Qfloor_le x) as H1. pose proof (Qlt_floor x) as H2.
  assert (Ha : (inject_Z f < inject_Z (Qfloor x + 1))%Q) by (eapply Qle_lt_trans; eassumption).
  assert (Hb : (inject_Z (Qfloor x) < inject_Z (f + 1))%Q) by (eapply Qle_lt_trans; eassumption).
  rewrite <- Zlt_Qlt in Ha, Hb. lia.
Qed.

Lemma round_half_even_comp (x y : Q) :
  (x == y)%Q -> round_half_even x = round_half_even y.
Proof.
  intros E. unfold round_half_even.
  assert (E' : (x + (1 # 2) == y + (1 # 2))%Q) by (rewrite E; reflexivity).
  rewrite (Qfloor_comp _ _ E').
  rewrite (Qeqb_comp _ _ (Qeq_refl (inject_Z (Qfloor (y + (1 # 2))))) _ _ E').
  reflexivity.
Qed.

Lemma half_shift (U : Z) (P : positive) :
  (inject_Z U * (1 # P) + (1 # 2) == (2 * U + Zpos P) # (2 * P))%Q.
Proof.
  unfold Qeq, Qplus, Qmult, inject_Z. cbn [Qnum Qden].
  rewrite !Pos2Z.inj_mul. ring.
Qed.

(** The integer nearest to [U / P], the even one on a tie, is what
    [round_half_even] computes. *)
Lemma round_half_even_nearest (U n : Z) (P : positive) :
  2 * Z.abs (n * Zpos P - U) <= Zpos P ->
  (2 * Z.abs (n * Zpos P - U) = Zpos P -> Z.even n = true) ->
  round_half_even (inject_Z U * (1 # P)) = n.
Proof.
  intros Hnear Htie. unfold round_half_even.
  set (x := (inject_Z U * (1 # P) + (1 # 2))%Q).
  assert (Ex : (x == (2 * U + Zpos P) # (2 * P))%Q) by apply half_shift.
  destruct (Z.eq_dec (2 * U + Zpos P) (2 * (n + 1) * Zpos P)) as [Eup | Hnup].
  - (* halfway between n and n + 1: n is even *)
    assert (Ef : Qfloor x = n + 1).
    { apply Qfloor_unique; rewrite Ex; unfold Qle, Qlt, inject_Z; cbn [Qnum Qden];
        rewrite ?Pos2Z.inj_mul; lia. }
    rewrite Ef.
    assert (Eq : Qeq_bool (inject_Z (n + 1)) x = true).
    { apply Qeq_bool_iff. rewrite Ex. unfold Qeq, inject_Z. cbn [Qnum Qden].
      rewrite ?Pos2Z.inj_mul. lia. }
    rewrite Eq. cbn [andb].
    assert (Ev : Z.even n = true) by (apply Htie; lia).
    rewrite Z.odd_add, <- Z.negb_even, Ev. cbn. lia.
  - assert (Ef : Qfloor x = n).
    { apply Qfloor_unique; rewrite Ex; unfold Qle, Qlt, inject_Z; cbn [Qnum Qden];
        rewrite ?Pos2Z.inj_mul; lia. }
    rewrite Ef.
    destruct (Qeq_bool (inject_Z n) x) eqn:Eq; [| reflexivity].
    apply Qeq_bool_iff in Eq. rewrite Ex in Eq. unfold Qeq, inject_Z in Eq.
    cbn [Qnum Qden] in Eq. rewrite ?Pos2Z.inj_mul in Eq.
    assert (Ev : Z.even n = true) by (apply Htie; lia).
    rewrite <- Z.negb_even, Ev. reflexivity.
Qed.

Lemma mapM_Forall2_exists {A B} (f : A -> result B) (P : A -> B -> Prop) (l : list A) :
  Forall (fun a => exists b, f a = Ok b /\ P a b) l ->
  exists bs, mapM f l = Ok bs /\ List.Forall2 P l bs.
Proof.
  induction 1 as [| a l (b & Hb & Pb) Hl (bs & Hbs & Pbs)].
  - exists []. split; [reflexivity | constructor].
  - exists (b :: bs). cbn [mapM]. rewrite Hb. cbn. rewrite Hbs. cbn.
    split; [reflexivity | constructor; assumption].
Qed.

End HalfEven.

(** * The scale of every row *)

(** C2.  The scale the loop appends for a row is [abs_max / 127.0] when
    [abs_max], the largest absolute value of the row, is positive, and [1.0]
    when the row is all zeros. *)
Theorem scale_formula (vocab_size : nat) (emb_reduced : list (list float32))
    (scales : list float32) (quantized : list (list Byte.byte))
    (i : nat) (row : list float32) :
  length emb_reduced = vocab_size ->
  quantize vocab_size emb_reduced = Ok (scales, quantized) ->
  nth_error emb_reduced i = Some row ->
  exists abs_max,
    Np.max (Np.abs row) = Ok abs_max /\
    (F32.ltb F32.zero abs_max = true ->
     nth_error scales i = Some (F32.div abs_max (F32.of_Z 127))) /\
    (all_zero row = true -> nth_error scales i = Some F32.one) /\
    (Forall (fun x => good x = true) row ->
     In abs_max (Np.abs row) /\
     Forall (fun x => F32.leb (F32.abs x) abs_max = true) row).
Proof.
  intros <- Hq Hrow.
  destruct (quantize_Ok _ _ _ Hq) as (_ & _ & _ & Hnth).
  destruct (Hnth i row Hrow) as (scale & bytes & Hqr & Hs & _).
  unfold quantize_row in Hqr.
  destruct (row_scale row) as [scale' |] eqn:Escale; cbn in Hqr; [| discriminate].
  destruct (q_row row scale') as [q |]; cbn in Hqr; [| discriminate].
  injection Hqr as -> _.
  unfold row_scale in Escale.
  destruct (Np.max (Np.abs row)) as [abs_max |] eqn:Emax; cbn [mbind result_bind] in Escale;
    [| discriminate].
  injection Escale as Escale.
  exists abs_max. split; [reflexivity |]. split; [| split].
  - intros Hpos. rewrite Hpos in Escale. rewrite Hs. f_equal. symmetry. exact Escale.
  - intros Hzero.
    assert (Habs : is_zero abs_max = true).
    { destruct row as [| x row]; [discriminate |].
      cbn in Emax. injection Emax as Emax.
      unfold all_zero in Hzero. cbn [forallb] in Hzero.
      apply andb_true_iff in Hzero. destruct Hzero as [Hx Hrest].
      assert (Hgen : forall l a, forallb is_zero l = true -> is_zero a = true ->
                                 is_zero (fold_left Np.maximum (Np.abs l) a) = true).
      { induction l as [| y l IH]; intros a Hl Ha; [exact Ha |].
        cbn [forallb] in Hl. apply andb_true_iff in Hl. destruct Hl as [Hy Hl].
        cbn [Np.abs map fold_left]. apply IH; [exact Hl |].
        destruct a, y; try discriminate; reflexivity. }
      rewrite <- Emax. apply Hgen; [exact Hrest |]. destruct x; try discriminate; reflexivity. }
    rewrite Hs. f_equal. rewrite <- Escale. destruct abs_max; try discriminate. reflexivity.
  - intros Hgood.
    assert (Hne : row <> []) by (intros ->; discriminate).
    destruct (abs_max_spec row Hne Hgood) as (a & Ea & Hin & Ga & _ & _ & Hall).
    rewrite Emax in Ea. injection Ea as <-.
    split; [exact Hin |].
    rewrite List.Forall_forall in Hall, Hgood |- *. intros x Hx.
    pose proof (good_abs x (Hgood x Hx)) as Gx.
    unfold good in Gx, Ga. apply andb_true_iff in Gx, Ga.
    rewrite leb_units by tauto. rewrite units_abs by (apply Hgood; exact Hx).
    apply Z.leb_le. apply Hall. exact Hx.
Qed.

(** C2 on a matrix of two rows: the second is all zeros. *)
Lemma scale_formula_witness :
  exists abs_max,
    Np.max (Np.abs [F32.zero; F32.zero; F32.zero; F32.zero]) = Ok abs_max /\
    (F32.ltb F32.zero abs_max = true ->
     nth_error [f32_0_02; F32.one] 1 = Some (F32.div abs_max (F32.of_Z 127))) /\
    (all_zero [F32.zero; F32.zero; F32.zero; F32.zero] = true ->
     nth_error [f32_0_02; F32.one] 1 = Some F32.one) /\
    (Forall (fun x => good x = true) [F32.zero; F32.zero; F32.zero; F32.zero] ->
     In abs_max (Np.abs [F32.zero; F32.zero; F32.zero; F32.zero]) /\
     Forall (fun x => F32.leb (F32.abs x) abs_max = true)
       [F32.zero; F32.zero; F32.zero; F32.zero]).
Proof.
  apply (scale_formula 2 two_rows [f32_0_02; F32.one]
           [[Byte.x00; Byte.x7f; Byte.x00; Byte.x00]; [Byte.x00; Byte.x00; Byte.x00; Byte.x00]]
           1%nat).
  - reflexivity.
  - vm_compute. reflexivity.
  - reflexivity.
Defined.

(** C3, as the specification states it, fails: a row whose largest absolute
    value is 127.0 has scale 1.0 and is not all zeros. *)
Lemma scale_one_counterexample :
  row_scale (one_hot F32.zero 64 0 (F32.of_Z 127)) = Ok F32.one /\
  F32.eqb F32.one F32.one = true /\
  all_zero (one_hot F32.zero 64 0 (F32.of_Z 127)) = false.
Proof. vm_compute. repeat split. Qed.

(** C3, amended.  The scale of a row of finite floats is never negative; it
    is 1.0 when the row is all zeros; and it is 1.0 only when the row is all
    zeros or its largest absolute value is 127.0. *)
Theorem scale_nonneg_and_one (row : list float32) (scale : float32) :
  Forall (fun x => good x = true) row ->
  row_scale row = Ok scale ->
  F32.leb F32.zero scale = true /\
  (all_zero row = true -> scale = F32.one) /\
  (F32.eqb scale F32.one = true <->
   all_zero row = true \/ Np.max (Np.abs row) = Ok (F32.of_Z 127)).
Proof.
  intros Hgood Hscale.
  assert (Hne : row <> []) by (intros ->; discriminate).
  destruct (row_scale_spec row Hne Hgood)
    as (a & Emax & _ & _ & [(Hz & Ea & Es) | (Hnz & (ma & ea & Ea) & Va & Es)]).
  - rewrite Es in Hscale. apply Ok_inj in Hscale. subst scale.
    split; [reflexivity |]. split; [reflexivity |].
    split; [intros _; left; exact Hz | reflexivity].
  - rewrite Es in Hscale. apply Ok_inj in Hscale. subst scale a.
    destruct (scale_units ma ea Va) as (g & mr & (j & Hj & Eg) & Hmr & _ & _ & Gs & Hu & _).
    assert (Hgpos : 0 < g) by (subst g; apply Z.pow_pos_nonneg; lia).
    split; [| split].
    + unfold good in Gs. apply andb_true_iff in Gs.
      rewrite leb_units by (reflexivity || tauto).
      rewrite Hu. apply Z.leb_le. cbn [units F32.zero]. nia.
    + rewrite Hnz. discriminate.
    + rewrite (scale_one_iff ma ea Va), Hnz, Emax. split.
      * intros ->. right. reflexivity.
      * intros [? | E]; [discriminate | apply Ok_inj in E; exact E].
Qed.

Lemma scale_nonneg_and_one_witness :
  F32.leb F32.zero F32.one = true /\
  (all_zero (one_hot F32.zero 64 0 (F32.of_Z 127)) = true -> F32.one = F32.one) /\
  (F32.eqb F32.one F32.one = true <->
   all_zero (one_hot F32.zero 64 0 (F32.of_Z 127)) = true \/
   Np.max (Np.abs (one_hot F32.zero 64 0 (F32.of_Z 127))) = Ok (F32.of_Z 127)).
Proof.
  apply (scale_nonneg_and_one (one_hot F32.zero 64 0 (F32.of_Z 127)) F32.one).
  - vm_compute. repeat constructor.
  - vm_compute. reflexivity.
Defined.

(** C10.  The claim is that the scale is always strictly positive, so that
    line 40 never divides by zero.  The script evaluated on a row whose
    largest absolute value is the smallest subnormal float: [abs_max > 0]
    holds, [abs_max / 127.0] underflows to +0.0, and the element divided by
    that scale is +infinity.  The guard of line 36 tests [abs_max], not the
    scale. *)
Lemma scale_positive_counterexample :
  good (S754_finite false 1 (-149)) = true /\
  F32.ltb F32.zero (S754_finite false 1 (-149)) = true /\
  row_scale [S754_finite false 1 (-149); F32.zero] = Ok (S754_zero false) /\
  F32.ltb F32.zero (S754_zero false) = false /\
  Np.divide [S754_finite false 1 (-149); F32.zero] (S754_zero false) =
    [S754_infinity false; S754_nan] /\
  q_row [S754_finite false 1 (-149); F32.zero] (S754_zero false) = Raise InvalidCast /\
  quantize_row [S754_finite false 1 (-149)] = Ok (S754_zero false, [Byte.x7f]).
Proof. vm_compute. repeat split. Qed.

(** Where the scale of a row of finite floats is strictly positive: exactly
    when the row is all zeros or its largest absolute value is at least
    [2^-143] (64 units of [2^-149]).  It is then finite, no quotient of the
    row is NaN and line 40 yields its bytes.  Otherwise the scale is +0.0. *)
Lemma scale_positive_iff (row : list float32) (scale : float32) :
  Forall (fun x => good x = true) row ->
  row_scale row = Ok scale ->
  exists abs_max,
    Np.max (Np.abs row) = Ok abs_max /\
    (F32.ltb F32.zero scale = true <->
     all_zero row = true \/ F32.leb (S754_finite false 64 (-149)) abs_max = true) /\
    (F32.ltb F32.zero scale = true ->
     good scale = true /\
     Forall (fun x => is_nan (F32.div x scale) = false) row /\
     exists q, q_row row scale = Ok q) /\
    (F32.ltb F32.zero scale = false -> scale = S754_zero false).
Proof.
  intros Hgood Hscale.
  assert (Hne : row <> []) by (intros ->; discriminate).
  destruct (row_scale_spec row Hne Hgood)
    as (a & Emax & _ & _ & [(Hz & Ea & Es) | (Hnz & (ma & ea & Ea) & Va & Es)]);
    rewrite Es in Hscale; apply Ok_inj in Hscale; subst scale; exists a;
    (split; [exact Emax |]).
  - (* all zeros: the scale is 1.0 *)
    split; [split; [intros _; left; exact Hz | reflexivity] |].
    split; [| intros H; vm_compute in H; discriminate H]. intros _. split; [reflexivity |].
    assert (Hq : Forall (fun x => quantize1 (F32.div x F32.one) = Ok 0) row).
    { unfold all_zero in Hz. rewrite forallb_forall in Hz.
      apply List.Forall_forall. intros x Hx. specialize (Hz x Hx).
      destruct x as [[] | | |]; try discriminate; reflexivity. }
    split.
    + eapply List.Forall_impl; [| exact Hq]. intros x Hx. cbv beta in Hx.
      destruct (F32.div x F32.one); try reflexivity.
      rewrite quantize1_nan in Hx. discriminate.
    + rewrite q_row_mapM.
      apply mapM_total. eapply List.Forall_impl; [| exact Hq].
      intros x ->. reflexivity.
  - subst a.
    destruct (scale_units ma ea Va)
      as (g & mr & (j & Hj & Eg) & Hmr & _ & _ & Gs & Hu & Hzero & Hfin).
    pose proof (scale_zero_iff ma ea Va) as Hziff.
    set (a := S754_finite false ma ea) in *.
    set (sc := F32.div a (F32.of_Z 127)) in *.
    assert (Hgpos : 0 < g) by (subst g; apply Z.pow_pos_nonneg; lia).
    assert (Hcases : (mr = 0 /\ sc = S754_zero false) \/
                     (0 < mr /\ exists m e, sc = S754_finite false m e)).
    { destruct (Z.eq_dec mr 0) as [E | E]; [left; auto | right].
      split; [lia |]. apply Hfin. lia. }
    assert (G64 : good (S754_finite false 64 (-149)) = true) by reflexivity.
    assert (Ga : good a = true) by (apply good_finite; exact Va).
    unfold good in G64, Ga. apply andb_true_iff in G64, Ga.
    rewrite leb_units by tauto.
    change (units (S754_finite false 64 (-149))) with 64.
    destruct Hcases as [[Hmr0 Esc] | [Hmrpos (m & e & Esc)]].
    + (* underflow *)
      assert (Hlt : units a < 64) by (apply Hziff; rewrite Esc; reflexivity).
      rewrite Esc. cbn [F32.ltb SFltb SFcompare F32.zero].
      split; [| split; [discriminate | reflexivity]].
      split; [discriminate |]. rewrite Hnz.
      intros [? | Hle]; [discriminate |]. apply Z.leb_le in Hle. lia.
    + assert (Hge : 64 <= units a).
      { destruct (Z_lt_le_dec (units a) 64) as [Hlt | ?]; [| assumption].
        apply Hziff in Hlt. rewrite Esc in Hlt. discriminate. }
      assert (Hpos : F32.ltb F32.zero sc = true) by (rewrite Esc; reflexivity).
      rewrite Hpos.
      split; [split; [intros _; right; apply Z.leb_le; exact Hge | reflexivity] |].
      split; [| discriminate]. intros _. split; [exact Gs |].
      assert (Hnan : Forall (fun x => is_nan (F32.div x sc) = false) row).
      { eapply List.Forall_impl; [| exact Hgood]. intros x Gx.
        unfold good in Gx. apply andb_true_iff in Gx.
        apply div_finite_not_nan; [tauto | rewrite Esc; reflexivity | rewrite Esc; reflexivity]. }
      split; [exact Hnan |].
      rewrite q_row_mapM. apply mapM_total.
      eapply List.Forall_impl; [| exact Hnan]. intros x Hx. cbv beta in Hx.
      pose proof (div_valid x sc) as Vq.
      destruct (F32.div x sc) as [s | s | | s mq ez] eqn:Eq; try discriminate.
      * rewrite quantize1_zero. reflexivity.
      * rewrite quantize1_inf. reflexivity.
      * destruct (quantize1_good (S754_finite s mq ez)) as (n & _ & _ & _ & ->);
          [apply good_finite; exact Vq | reflexivity].
Qed.

Lemma scale_positive_iff_witness :
  exists abs_max,
    Np.max (Np.abs (one_hot F32.zero 64 3 f32_2_54)) = Ok abs_max /\
    (F32.ltb F32.zero f32_0_02 = true <->
     all_zero (one_hot F32.zero 64 3 f32_2_54) = true \/
     F32.leb (S754_finite false 64 (-149)) abs_max = true) /\
    (F32.ltb F32.zero f32_0_02 = true ->
     good f32_0_02 = true /\
     Forall (fun x => is_nan (F32.div x f32_0_02) = false) (one_hot F32.zero 64 3 f32_2_54) /\
     exists q, q_row (one_hot F32.zero 64 3 f32_2_54) f32_0_02 = Ok q) /\
    (F32.ltb F32.zero f32_0_02 = false -> f32_0_02 = S754_zero false).
Proof.
  apply (scale_positive_iff (one_hot F32.zero 64 3 f32_2_54) f32_0_02).
  - vm_compute. repeat constructor.
  - vm_compute. reflexivity.
Defined.

(** * The bytes of every row *)

(** C4.  Every value line 40 produces lies in [-127, 127]; the byte 0x80
    (-128) is never stored. *)
Theorem quantized_range (row : list float32) (scale : float32) (q : list Z) :
  q_row row scale = Ok q ->
  Forall (fun v => -127 <= v <= 127) q /\ ~ In Byte.x80 (Np.view_uint8 q).
Proof.
  rewrite q_row_mapM, mapM_Ok. intros H.
  assert (Hrange : Forall (fun v => -127 <= v <= 127) q).
  { induction H as [| x v row q Hv _ IH]; constructor; [| exact IH].
    apply (quantize1_range (F32.div x scale)); [apply div_valid | exact Hv]. }
  split; [exact Hrange |].
  unfold Np.view_uint8. rewrite in_map_iff. intros (v & Ev & Hin).
  rewrite List.Forall_forall in Hrange.
  apply (byte_of_Z_not_x80 v (Hrange v Hin)). exact Ev.
Qed.

Lemma quantized_range_witness :
  Forall (fun v => -127 <= v <= 127) [0; 127; 0; 0] /\
  ~ In Byte.x80 (Np.view_uint8 [0; 127; 0; 0]).
Proof.
  apply (quantized_range (one_hot F32.zero 4 1 f32_2_54) f32_0_02 [0; 127; 0; 0]).
  vm_compute. reflexivity.
Defined.

(** C5, as stated, fails.  With a subnormal scale the division by 127 loses
    so much that the quotient leaves [-127, 127]: the row [400 * 2^-149] has
    scale [3 * 2^-149], byte 127, and 127 scales are 19 units short of the
    element.  With a normal scale the float quotient can round across a
    half: in the second row 3.5000012 / 1.0000004 rounds to 3.5 and then to 4,
    and 4 scales are more than half a scale away. *)
Lemma dequantize_counterexample :
  (row_scale [S754_finite false 400 (-149)] = Ok (S754_finite false 3 (-149)) /\
   q_row [S754_finite false 400 (-149)] (S754_finite false 3 (-149)) = Ok [127] /\
   ~ (Qabs (inject_Z 127 * B2Q (S754_finite false 3 (-149))
            - B2Q (S754_finite false 400 (-149)))
      <= B2Q (S754_finite false 3 (-149)) / 2)%Q) /\
  (row_scale [S754_finite false 16646150 (-17); S754_finite false 14680069 (-22)]
     = Ok (S754_finite false 8388611 (-23)) /\
   q_row [S754_finite false 16646150 (-17); S754_finite false 14680069 (-22)]
     (S754_finite false 8388611 (-23)) = Ok [127; 4] /\
   ~ (Qabs (inject_Z 4 * B2Q (S754_finite false 8388611 (-23))
            - B2Q (S754_finite false 14680069 (-22)))
      <= B2Q (S754_finite false 8388611 (-23)) / 2)%Q).
Proof.
  repeat split; try (vm_compute; reflexivity);
    intros H; vm_compute in H; apply H; reflexivity.
Qed.

(** C5, amended.  On a row of finite floats whose scale is a normal float
    (at least [2^-126]), every byte [v] dequantizes to within half a scale
    of its element [x], plus the rounding error of the float division, at
    most [2^-24 |x|]. *)
Theorem dequantize_bound (row : list float32) (scale : float32) :
  Forall (fun x => good x = true) row ->
  row_scale row = Ok scale ->
  F32.leb F32.min_normal scale = true ->
  exists q,
    q_row row scale = Ok q /\
    List.Forall2
      (fun x v =>
         (Qabs (inject_Z v * B2Q scale - B2Q x)
          <= B2Q scale / 2 + pow2 (-24) * Qabs (B2Q x))%Q)
      row q.
Proof.
  intros Hgood Hscale Hnormal.
  assert (Hne : row <> []) by (intros ->; discriminate).
  rewrite q_row_mapM. apply mapM_Forall2_exists.
  destruct (row_scale_spec row Hne Hgood)
    as (a & Emax & _ & Hall & [(Hz & Ea & Es) | (Hnz & (ma & ea & Ea) & Va & Es)]);
    rewrite Es in Hscale; apply Ok_inj in Hscale; subst scale.
  - (* all zeros *)
    unfold all_zero in Hz. rewrite forallb_forall in Hz.
    apply List.Forall_forall. intros x Hx. specialize (Hz x Hx).
    exists 0. destruct x as [[] | | |]; try discriminate;
      (split; [reflexivity | vm_compute; discriminate]).
  - subst a.
    destruct (scale_units ma ea Va) as (_ & _ & _ & _ & _ & _ & Gs & _).
    set (sc := F32.div (S754_finite false ma ea) (F32.of_Z 127)) in *.
    assert (HS : 2 ^ 23 <= units sc).
    { assert (Gmin : good F32.min_normal = true) by reflexivity.
      unfold good in Gs, Gmin. apply andb_true_iff in Gs, Gmin.
      rewrite leb_units in Hnormal by tauto. apply Z.leb_le in Hnormal. exact Hnormal. }
    rewrite List.Forall_forall in Hall, Hgood |- *. intros x Hx.
    destruct (element_bound ma ea x Va HS (Hgood x Hx) (Hall x Hx)) as (v & Hv & _ & Hb).
    exists v. split; [exact Hv |].
    rewrite (B2Q_units sc Gs), (B2Q_units x (Hgood x Hx)).
    apply bound_rational. exact Hb.
Qed.

Lemma dequantize_bound_witness :
  exists q,
    q_row (one_hot F32.zero 64 7 f32_2_54) f32_0_02 = Ok q /\
    List.Forall2
      (fun x v =>
         (Qabs (inject_Z v * B2Q f32_0_02 - B2Q x)
          <= B2Q f32_0_02 / 2 + pow2 (-24) * Qabs (B2Q x))%Q)
      (one_hot F32.zero 64 7 f32_2_54) q.
Proof.
  apply (dequantize_bound (one_hot F32.zero 64 7 f32_2_54) f32_0_02).
  - vm_compute. repeat constructor.
  - vm_compute. reflexivity.
  - vm_compute. reflexivity.
Defined.

(** C9.  The value line 40 clamps is the float quotient [x / scale] rounded
    half to even, and the byte is that integer clamped to [-127, 127]. *)
Theorem round_half_to_even (x scale : float32) :
  good (F32.div x scale) = true ->
  Np.trunc (Np.round1 (F32.div x scale)) =
    Some (round_half_even (B2Q (F32.div x scale))) /\
  quantize1 (F32.div x scale) =
    Ok (Z.max (-127) (Z.min 127 (round_half_even (B2Q (F32.div x scale))))).
Proof.
  intros G. set (q := F32.div x scale) in *.
  destruct (quantize1_good q G) as (n & Hnear & Htie & Htr & Hq).
  assert (E : round_half_even (B2Q q) = n).
  { rewrite (round_half_even_comp _ _ (B2Q_units q G)).
    change (pow2 (-149)) with (1 # 2 ^ 149)%Q.
    apply round_half_even_nearest; assumption. }
  rewrite E. split; assumption.
Qed.

Lemma round_half_to_even_witness :
  Np.trunc (Np.round1 (F32.div f32_2_54 f32_0_02)) =
    Some (round_half_even (B2Q (F32.div f32_2_54 f32_0_02))) /\
  quantize1 (F32.div f32_2_54 f32_0_02) =
    Ok (Z.max (-127) (Z.min 127 (round_half_even (B2Q (F32.div f32_2_54 f32_0_02))))).
Proof.
  apply (round_half_to_even f32_2_54 f32_0_02). vm_compute. reflexivity.
Defined.

(** Ties go to the even integer: 0.5 to 0, 1.5 and 2.5 to 2, -0.5 to -0. *)
Example round_ties :
  Np.round [F32.div (F32.of_Z 1) (F32.of_Z 2); F32.div (F32.of_Z 3) (F32.of_Z 2);
            F32.div (F32.of_Z 5) (F32.of_Z 2); F32.div (F32.of_Z (-1)) (F32.of_Z 2)] =
  [F32.zero; F32.of_Z 2; F32.of_Z 2; S754_zero true] /\
  map round_half_even [1 # 2; 3 # 2; 5 # 2; -1 # 2]%Q = [0; 2; 2; 0].
Proof. vm_compute. split; reflexivity. Qed.

(** C7.  A row of 64 columns whose only non-zero element is 2.54: the scale
    is the float 0.02, that element becomes 127 and every other one 0. *)
Theorem single_max_scenario (i : nat) :
  (i < 64)%nat ->
  row_scale (one_hot F32.zero 64 i f32_2_54) = Ok f32_0_02 /\
  (Qabs (B2Q f32_2_54 - (254 # 100)) <= pow2 (-23))%Q /\
  (Qabs (B2Q f32_0_02 - (2 # 100)) <= 1 # 1000000000)%Q /\
  f32_0_02 = F32.div f32_2_54 (F32.of_Z 127) /\
  q_row (one_hot F32.zero 64 i f32_2_54) f32_0_02 = Ok (one_hot 0 64 i 127).
Proof.
  intros Hi.
  assert (Hall : Forall (fun i =>
            row_scale (one_hot F32.zero 64 i f32_2_54) = Ok f32_0_02 /\
            q_row (one_hot F32.zero 64 i f32_2_54) f32_0_02 = Ok (one_hot 0 64 i 127))
          (seq 0 64)).
  { repeat (constructor; [split; vm_compute; reflexivity |]). constructor. }
  rewrite List.Forall_forall in Hall.
  destruct (Hall i) as [Hs Hq]; [apply in_seq; lia |].
  split; [exact Hs |].
  split; [vm_compute; discriminate |].
  split; [vm_compute; discriminate |].
  split; [vm_compute; reflexivity | exact Hq].
Qed.

Lemma single_max_scenario_witness :
  row_scale (one_hot F32.zero 64 10 f32_2_54) = Ok f32_0_02 /\
  (Qabs (B2Q f32_2_54 - (254 # 100)) <= pow2 (-23))%Q /\
  (Qabs (B2Q f32_0_02 - (2 # 100)) <= 1 # 1000000000)%Q /\
  f32_0_02 = F32.div f32_2_54 (F32.of_Z 127) /\
  q_row (one_hot F32.zero 64 10 f32_2_54) f32_0_02 = Ok (one_hot 0 64 10 127).
Proof. apply (single_max_scenario 10). lia. Defined.

(** * The output file *)

(** C1, as stated, fails on a big-endian machine: [struct.pack("III", ...)]
    and [tobytes] use the machine's byte order, so for one row of 64 zeros
    the header starts 00 00 00 01 (not 01 00 00 00), the dimension 64 is
    stored 00 00 00 40 and the scale 1.0 is stored 3f 80 00 00. *)
Lemma layout_counterexample :
  fst (quantize_and_write big TARGET_DIM 1 [repeat F32.zero 64] ∅) !! OUTPUT =
    Some ([Byte.x00; Byte.x00; Byte.x00; Byte.x01;
           Byte.x00; Byte.x00; Byte.x00; Byte.x40;
           Byte.x00; Byte.x00; Byte.x00; Byte.x01;
           Byte.x3f; Byte.x80; Byte.x00; Byte.x00] ++ repeat Byte.x00 64) /\
  snd (quantize_and_write big TARGET_DIM 1 [repeat F32.zero 64] ∅) = Ok tt /\
  le_bytes32 1 = [Byte.x01; Byte.x00; Byte.x00; Byte.x00] /\
  le_bytes32 64 = [Byte.x40; Byte.x00; Byte.x00; Byte.x00] /\
  le_bytes32 (F32.bits F32.one) = [Byte.x00; Byte.x00; Byte.x80; Byte.x3f].
Proof. vm_compute. repeat split. Qed.

(** C1, amended.  After a successful run on a matrix of [vocab_size] rows and
    [target_dim] columns the output file holds, in this order: the header
    of three unsigned 32-bit integers [vocab_size], [target_dim], 1 in the
    machine's byte order (little-endian on a little-endian machine); the
    float32 scales of the rows, in row order and in the machine's byte order;
    the bytes of the rows, row after row.  Its size is
    [12 + 4 * vocab_size + vocab_size * target_dim] bytes. *)
Theorem output_layout (order : byteorder) (target_dim vocab_size : nat)
    (emb_reduced : list (list float32)) (fs fs' : filesystem) :
  length emb_reduced = vocab_size ->
  Forall (fun row => length row = target_dim) emb_reduced ->
  quantize_and_write order target_dim vocab_size emb_reduced fs = (fs', Ok tt) ->
  exists scales quantized content,
    quantize vocab_size emb_reduced = Ok (scales, quantized) /\
    length scales = vocab_size /\ length quantized = vocab_size /\
    (forall i row, nth_error emb_reduced i = Some row ->
       exists scale bytes,
         quantize_row row = Ok (scale, bytes) /\ length bytes = target_dim /\
         nth_error scales i = Some scale /\ nth_error quantized i = Some bytes) /\
    fs' !! OUTPUT = Some content /\
    content =
      native_bytes32 order (Z.of_nat vocab_size) ++
      native_bytes32 order (Z.of_nat target_dim) ++
      native_bytes32 order 1 ++
      concat (map (fun s => native_bytes32 order (F32.bits s)) scales) ++
      concat quantized /\
    native_bytes32 little = le_bytes32 /\
    length content = (12 + 4 * vocab_size + vocab_size * target_dim)%nat.
Proof.
  intros Hlen Hcols Hrun. subst vocab_size.
  unfold quantize_and_write in Hrun.
  destruct (quantize (length emb_reduced) emb_reduced) as [[scales quantized] | e] eqn:Hq;
    [| discriminate].
  rewrite write_binary_spec in Hrun.
  destruct (struct_pack_III _ _ _ _) as [header | e] eqn:Hpack; [| discriminate].
  injection Hrun as <-.
  apply struct_pack_III_Ok in Hpack. destruct Hpack as (Eh & Hh & _).
  destruct (quantize_Ok _ _ _ Hq) as (_ & Hls & Hlq & Hnth).
  pose proof (quantized_rows_length _ _ _ _ Hcols Hq) as Hrows.
  exists scales, quantized,
    (header ++ scales_tobytes order scales ++ quantized_tobytes quantized).
  split; [reflexivity |]. split; [exact Hls |]. split; [exact Hlq |].
  split.
  { intros i row Hi. destruct (Hnth i row Hi) as (scale & bytes & Hr & Hs & Hb).
    exists scale, bytes. split; [exact Hr |]. split; [| split; assumption].
    rewrite (quantize_row_length _ _ _ Hr).
    rewrite List.Forall_forall in Hcols. apply Hcols. eapply nth_error_In. exact Hi. }
  split; [apply lookup_insert_eq |].
  split; [rewrite Eh, <- !app_assoc; reflexivity |].
  split; [reflexivity |].
  rewrite !length_app, Hh, scales_tobytes_length,
    (quantized_tobytes_length target_dim) by exact Hrows.
  rewrite Hls, Hlq. lia.
Qed.

Lemma output_layout_witness :
  exists scales quantized content,
    quantize 2 two_rows
      = Ok (scales, quantized) /\
    length scales = 2%nat /\ length quantized = 2%nat /\
    (forall i row,
       nth_error two_rows i
         = Some row ->
       exists scale bytes,
         quantize_row row = Ok (scale, bytes) /\ length bytes = 4%nat /\
         nth_error scales i = Some scale /\ nth_error quantized i = Some bytes) /\
    fst (quantize_and_write little 4 2
           two_rows ∅)
      !! OUTPUT = Some content /\
    content =
      native_bytes32 little (Z.of_nat 2) ++
      native_bytes32 little (Z.of_nat 4) ++
      native_bytes32 little 1 ++
      concat (map (fun s => native_bytes32 little (F32.bits s)) scales) ++
      concat quantized /\
    native_bytes32 little = le_bytes32 /\
    length content = (12 + 4 * 2 + 2 * 4)%nat.
Proof.
  apply (output_layout little 4 2
           two_rows ∅).
  - reflexivity.
  - repeat constructor.
  - vm_compute. reflexivity.
Defined.

(** Runs that succeed exist: at least one row, a row count and a dimension
    that fit 32 bits, finite elements and a positive scale in every row. *)
Lemma run_succeeds (order : byteorder) (target_dim vocab_size : nat)
    (emb_reduced : list (list float32)) (fs : filesystem) :
  length emb_reduced = vocab_size -> (0 < vocab_size)%nat ->
  Z.of_nat vocab_size < 2 ^ 32 -> Z.of_nat target_dim < 2 ^ 32 ->
  Forall (fun row => length row = target_dim) emb_reduced ->
  Forall (fun row => Forall (fun x => good x = true) row /\
                     exists scale, row_scale row = Ok scale /\
                                   F32.ltb F32.zero scale = true) emb_reduced ->
  exists fs', quantize_and_write order target_dim vocab_size emb_reduced fs = (fs', Ok tt).
Proof.
  intros Hlen Hpos HN HK Hcols Hrows. subst vocab_size.
  assert (Hne : emb_reduced <> []) by (intros ->; cbn in Hpos; lia).
  assert (Hok : Forall (fun row => is_ok (quantize_row row) = true) emb_reduced).
  { eapply List.Forall_impl; [| exact Hrows].
    intros row (Hgood & scale & Hscale & Hlt).
    destruct (scale_positive_iff row scale Hgood Hscale) as (_ & _ & _ & Hq & _).
    destruct (Hq Hlt) as (_ & _ & q & Eq).
    unfold quantize_row. rewrite Hscale. cbn. rewrite Eq. reflexivity. }
  destruct (quantize_total target_dim emb_reduced Hne Hcols Hok) as (scales & quantized & Eq).
  unfold quantize_and_write. rewrite Eq, write_binary_spec.
  rewrite struct_pack_III_total by lia. eauto.
Qed.

(** The run either fails in the loop and leaves the file system as it
    was, or sets the output file to bytes that depend on the reduced matrix
    only. *)
Lemma quantize_and_write_cases (order : byteorder) (target_dim vocab_size : nat)
    (emb_reduced : list (list float32)) :
  exists r,
    (r <> Ok tt /\
     forall fs, quantize_and_write order target_dim vocab_size emb_reduced fs = (fs, r)) \/
    (exists content,
       forall fs, quantize_and_write order target_dim vocab_size emb_reduced fs =
                  (<[OUTPUT := content]> fs, r)).
Proof.
  unfold quantize_and_write.
  destruct (quantize vocab_size emb_reduced) as [[scales quantized] | e].
  - destruct (struct_pack_III order (Z.of_nat vocab_size) (Z.of_nat target_dim) 1)
      as [header | e] eqn:Hpack.
    + exists (Ok tt). right.
      exists (header ++ scales_tobytes order scales ++ quantized_tobytes quantized).
      intros fs. rewrite write_binary_spec, Hpack. reflexivity.
    + exists (Raise e). right. exists []. intros fs.
      rewrite write_binary_spec, Hpack. reflexivity.
  - exists (Raise e). left. split; [discriminate | reflexivity].
Qed.

(** C8.  From the same reduced matrix the run gives the same result and
    leaves the same bytes in the output file whatever the file system held
    before; running it again on the file system it left changes nothing;
    and no other file is touched. *)
Theorem rerun_identical (order : byteorder) (target_dim vocab_size : nat)
    (emb_reduced : list (list float32)) (fs1 fs2 : filesystem) :
  let run := quantize_and_write order target_dim vocab_size emb_reduced in
  snd (run fs1) = snd (run fs2) /\
  (snd (run fs1) = Ok tt ->
   is_Some (fst (run fs1) !! OUTPUT) /\
   fst (run fs1) !! OUTPUT = fst (run fs2) !! OUTPUT) /\
  run (fst (run fs1)) = run fs1 /\
  (forall path, path <> OUTPUT -> fst (run fs1) !! path = fs1 !! path).
Proof.
  intros run. subst run.
  destruct (quantize_and_write_cases order target_dim vocab_size emb_reduced)
    as (r & [[Hr Hrun] | (content & Hrun)]).
  - rewrite !Hrun. cbn [fst snd]. rewrite ?Hrun.
    split; [reflexivity |]. split; [intros E; contradiction |].
    split; reflexivity.
  - rewrite !Hrun. cbn [fst snd]. rewrite ?Hrun, ?insert_insert_eq.
    split; [reflexivity |].
    split; [intros _; rewrite !lookup_insert_eq; split; [eexists |]; reflexivity |].
    split; [reflexivity |].
    intros path Hne. apply lookup_insert_ne. congruence.
Qed.

(** * What the script does on its own when the shape is wrong

    The check of the target dimension against the input shape is
    scikit-learn's; the script has none.  Read with [fit_transform] as
    given, the script passes its exception on without touching the output
    file, and fails itself, before opening the file, on a reduced matrix
    with no rows or no columns. *)

Section Failures.

Variable order : byteorder.
Variable np_load : list Byte.byte -> result ndarray.
Variable fit_transform : nat -> ndarray -> result (list (list float32)).

Lemma main_fit_error (fs : filesystem) (bytes : list Byte.byte) (emb : ndarray) (e : exn) :
  fs !! INPUT = Some bytes -> np_load bytes = Ok emb ->
  fit_transform TARGET_DIM emb = Raise e ->
  main order np_load fit_transform fs = (fs, Raise e).
Proof.
  intros Hin Hload Hfit. unfold main. rewrite Hin, Hload, Hfit.
  destruct (shape emb). reflexivity.
Qed.

Lemma quantize_no_rows (vocab_size : nat) :
  quantize vocab_size [] = Raise (if Nat.eqb vocab_size 0 then ValueError else IndexError).
Proof. destruct vocab_size; reflexivity. Qed.

Lemma quantize_no_columns (vocab_size : nat) (rows : list (list float32)) :
  quantize (S vocab_size) ([] :: rows) = Raise ValueError.
Proof. reflexivity. Qed.

Lemma quantize_and_write_error (target_dim vocab_size : nat)
    (emb_reduced : list (list float32)) (fs : filesystem) (e : exn) :
  quantize vocab_size emb_reduced = Raise e ->
  quantize_and_write order target_dim vocab_size emb_reduced fs = (fs, Raise e).
Proof. intros H. unfold quantize_and_write. rewrite H. reflexivity. Qed.

(** Running the whole script again on the file system it left gives the
    same result and the same files: the input file is not the output
    file. *)
Lemma main_idempotent (fs : filesystem) :
  main order np_load fit_transform (fst (main order np_load fit_transform fs)) =
  main order np_load fit_transform fs.
Proof.
  unfold main at 2 3.
  destruct (fs !! INPUT) as [bytes |] eqn:Hin; cbn [fst];
    [| unfold main; rewrite Hin; reflexivity].
  destruct (np_load bytes) as [emb | e] eqn:Hload; cbn [fst];
    [| unfold main; rewrite Hin, Hload; reflexivity].
  destruct (shape emb) as [vocab_size orig_dim] eqn:Hshape.
  destruct (fit_transform TARGET_DIM emb) as [emb_reduced | e] eqn:Hfit; cbn [fst];
    [| unfold main; rewrite Hin, Hload, Hshape, Hfit; reflexivity].
  destruct (quantize_and_write_cases order TARGET_DIM vocab_size emb_reduced)
    as (r & [[_ Hrun] | (content & Hrun)]); rewrite Hrun; cbn [fst]; unfold main.
  - rewrite Hin, Hload, Hshape, Hfit. apply Hrun.
  - rewrite lookup_insert_ne by discriminate.
    rewrite Hin, Hload, Hshape, Hfit, Hrun, insert_insert_eq. reflexivity.
Qed.

End Failures.

(** * Reading back what was written *)

Section Decode.

Lemma byte_to_Z_of_Z (z : Z) : byte_to_Z (Np.byte_of_Z z) = z mod 256.
Proof.
  unfold byte_to_Z. rewrite byte_of_Z_to_N.
  pose proof (Z.mod_pos_bound z 256 ltac:(lia)). lia.
Qed.

Lemma le_word32_bytes (v : Z) : 0 <= v < 2 ^ 32 -> le_word32 (le_bytes32 v) = v.
Proof.
  intros Hv. unfold le_word32, le_bytes32. rewrite !byte_to_Z_of_Z.
  change (2 ^ 16) with (2 ^ 8 * 2 ^ 8). change (2 ^ 24) with (2 ^ 8 * 2 ^ 8 * 2 ^ 8).
  rewrite <- !Z.div_div by lia.
  change (2 ^ 32) with 4294967296 in Hv. change (2 ^ 8) with 256.
  Z.to_euclidean_division_equations. lia.
Qed.

Lemma native_word32_bytes (order : byteorder) (v : Z) :
  0 <= v < 2 ^ 32 -> native_word32 order (native_bytes32 order v) = v.
Proof.
  intros Hv. destruct order; unfold native_word32, native_bytes32.
  - apply le_word32_bytes. exact Hv.
  - rewrite rev_involutive. apply le_word32_bytes. exact Hv.
Qed.

Lemma int8_of_byte_of_Z (v : Z) : -128 <= v <= 127 -> int8_of_byte (Np.byte_of_Z v) = v.
Proof.
  intros Hv. unfold int8_of_byte. rewrite byte_to_Z_of_Z.
  destruct (Z.ltb_spec (v mod 256) 128); Z.to_euclidean_division_equations; lia.
Qed.

Lemma bits_range (x : float32) : valid x = true -> 0 <= bits x < 2 ^ 32.
Proof.
  intros V. destruct x as [s | s | | s m e]; try (destruct s; cbn; lia); [cbn; lia |].
  pose proof (valid_finite_bounds _ _ _ V) as (He & Hm & Hn).
  unfold bits, sign_bit.
  change (2 ^ 24) with 16777216 in *. change (2 ^ 23) with 8388608 in *.
  change (2 ^ 31) with 2147483648. change (2 ^ 32) with 4294967296.
  destruct (Z.ltb_spec (Zpos m) 8388608); destruct s; lia.
Qed.

(** The bit pattern of a float in canonical form reads back as that
    float. *)
Lemma float_of_bits_bits (x : float32) : valid x = true -> float_of_bits (bits x) = x.
Proof.
  intros V. destruct x as [s | s | | s m e]; try (destruct s; reflexivity); [reflexivity |].
  pose proof (valid_finite_bounds _ _ _ V) as (He & Hm & Hn).
  unfold float_of_bits, bits, sign_bit.
  change (2 ^ 24) with 16777216 in *. change (2 ^ 23) with 8388608 in *.
  change (2 ^ 31) with 2147483648.
  destruct (Z.ltb_spec (Zpos m) 8388608) as [Hsub | Hnorm].
  - assert (e = -149) by lia. subst e.
    set (w := (if s then 2147483648 else 0) + Zpos m).
    assert (Es : (2147483648 <=? w) = s)
      by (subst w; destruct s; [apply Z.leb_le | apply Z.leb_gt]; lia).
    assert (Eex : (w / 8388608) mod 256 = 0) by (subst w; destruct s; Z.to_euclidean_division_equations; lia).
    assert (Efrac : w mod 8388608 = Zpos m) by (subst w; destruct s; Z.to_euclidean_division_equations; lia).
    rewrite Es, Eex, Efrac. reflexivity.
  - set (w := (if s then 2147483648 else 0) + ((e + 150) * 8388608 + (Zpos m - 8388608))).
    assert (Es : (2147483648 <=? w) = s)
      by (subst w; destruct s; [apply Z.leb_le | apply Z.leb_gt]; lia).
    assert (Eex : (w / 8388608) mod 256 = e + 150) by (subst w; destruct s; Z.to_euclidean_division_equations; lia).
    assert (Efrac : w mod 8388608 = Zpos m - 8388608) by (subst w; destruct s; Z.to_euclidean_division_equations; lia).
    rewrite Es, Eex, Efrac.
    destruct (Z.eqb_spec (e + 150) 0); [lia |].
    destruct (Z.eqb_spec (e + 150) 255); [lia |].
    replace (Zpos m - 8388608 + 8388608) with (Zpos m) by lia.
    f_equal. lia.
Qed.

End Decode.

(** * The scale on rows of any floats *)

Section AnyRow.

Lemma maximum_cases (a b : float32) : Np.maximum a b = a \/ Np.maximum a b = b.
Proof. unfold Np.maximum. destruct (is_nan a || F32.leb b a); auto. Qed.

Lemma fold_maximum_in (l : list float32) (x : float32) :
  In (fold_left Np.maximum l x) (x :: l).
Proof.
  revert x. induction l as [| y l IH]; intros x; cbn [fold_left].
  - left. reflexivity.
  - destruct (IH (Np.maximum x y)) as [E | Hin].
    + rewrite <- E. destruct (maximum_cases x y) as [-> | ->];
        [left | right; left]; reflexivity.
    + right. right. exact Hin.
Qed.






(** The sign of a quotient of finite floats is the product of the signs;
    the quotient is not NaN. *)
Lemma div_finite_sign (sx sy : bool) (mx my : positive) (ex ey : Z) :
  let z := F32.div (S754_finite sx mx ex) (S754_finite sy my ey) in
  is_nan z = false /\ sign_of z = xorb sx sy.
Proof.
  intros z. subst z. unfold F32.div, SFdiv.
  destruct (SFdiv_core_binary_spec mx my ex ey)
    as (q & e' & l & s & Ecore & Hs & Es & Ee' & Hloc & Hfexp).
  rewrite Ecore.
  destruct (binary_round_aux_spec (xorb sx sy) q e' l _ _ Hloc Hfexp)
    as (mr & _ & _ & _ & [[_ ->] | (m & e & _ & Hcan & ->)]).
  - split; reflexivity.
  - destruct (e <=? emax - prec); split; reflexivity.
Qed.

(** Lines 35-36 on any non-empty row: the scale is a float in canonical
    form, never NaN and never negative. *)
Lemma row_scale_regular (row : list float32) (scale : float32) :
  row_scale row = Ok scale ->
  valid scale = true /\ is_nan scale = false /\ sign_of scale = false.
Proof.
  unfold row_scale. destruct row as [| x row]; [discriminate |].
  cbn [Np.abs map Np.max mbind result_bind].
  set (a := fold_left Np.maximum (map F32.abs row) (F32.abs x)).
  intros E. apply Ok_inj in E. subst scale.
  assert (Ha : exists y, a = F32.abs y).
  { pose proof (fold_maximum_in (map F32.abs row) (F32.abs x)) as Hin. fold a in Hin.
    destruct Hin as [<- | Hin]; [eauto |].
    apply in_map_iff in Hin. destruct Hin as (y & <- & _). eauto. }
  destruct Ha as (y & Ey).
  destruct (F32.ltb F32.zero a) eqn:Hlt; [| repeat split; reflexivity].
  split; [apply div_valid |].
  rewrite Ey in Hlt |- *. rewrite of_Z_127.
  destruct y as [s | s | | s m e]; try discriminate.
  - split; reflexivity.
  - apply (div_finite_sign false false m (127 * 2 ^ 17) e (-17)).
Qed.



End AnyRow.



(** X2.  Whatever a non-empty row holds (NaN and infinities included), the scale
    the script stores for it is not NaN and not negative: its sign bit is
    clear and it compares [>= 0]. *)
Theorem scale_never_nan_or_negative (row : list float32) (scale : float32) :
  row_scale row = Ok scale ->
  is_nan scale = false /\ sign_of scale = false /\ F32.leb F32.zero scale = true.
Proof.
  intros H. destruct (row_scale_regular row scale H) as (V & N & S).
  repeat split; try assumption.
  destruct scale as [[] | [] | | [] m e]; try discriminate; reflexivity.
Qed.

Lemma scale_never_nan_or_negative_witness :
  is_nan (S754_infinity false) = false /\ sign_of (S754_infinity false) = false /\
  F32.leb F32.zero (S754_infinity false) = true.
Proof.
  apply (scale_never_nan_or_negative [F32.of_Z (-2); S754_infinity true] (S754_infinity false)).
  vm_compute. reflexivity.
Defined.



(** * Symmetry of the quantizer *)

Section Symmetry.

Lemma q_row_Forall2 (row : list float32) (scale : float32) (q : list Z) :
  q_row row scale = Ok q <->
  List.Forall2 (fun x v => quantize1 (F32.div x scale) = Ok v) row q.
Proof. rewrite q_row_mapM. apply mapM_Ok. Qed.

Lemma binary_round_aux_opp (s : bool) (m e : Z) (l : location) :
  binary_round_aux prec emax (negb s) m e l =
  SFopp (binary_round_aux prec emax s m e l).
Proof.
  unfold binary_round_aux.
  destruct (shr_fexp prec emax m e l) as [mrs' e'].
  destruct (shr_fexp prec emax _ e' loc_Exact) as [mrs'' e''].
  destruct (shr_m mrs''); try reflexivity.
  destruct (e'' <=? emax - prec); reflexivity.
Qed.

Lemma div_opp (x y : float32) : F32.div (SFopp x) y = SFopp (F32.div x y).
Proof.
  destruct x as [sx | sx | | sx mx ex], y as [sy | sy | | sy my ey];
    cbn [F32.div SFdiv SFopp]; rewrite ?negb_xorb_l; try reflexivity.
  unfold F32.div, SFdiv.
  destruct (SFdiv_core_binary prec emax (Zpos mx) ex (Zpos my) ey) as [[mz ez] lz].
  rewrite <- negb_xorb_l. apply binary_round_aux_opp.
Qed.

Lemma valid_opp (q : float32) : valid (SFopp q) = valid q.
Proof. destruct q; reflexivity. Qed.

Lemma units_opp (q : float32) : units (SFopp q) = - units q.
Proof. destruct q as [| | | [] m e]; cbn; lia. Qed.

(** Two integers nearest, ties to even, to the same number are equal. *)
Lemma nearest_even_unique (n n' U P : Z) :
  0 < P ->
  2 * Z.abs (n * P - U) <= P -> (2 * Z.abs (n * P - U) = P -> Z.even n = true) ->
  2 * Z.abs (n' * P - U) <= P -> (2 * Z.abs (n' * P - U) = P -> Z.even n' = true) ->
  n = n'.
Proof.
  intros HP H1 T1 H2 T2.
  assert (Hd : Z.abs (n - n') <= 1) by nia.
  destruct (Z.eq_dec n n') as [E | Hne]; [exact E | exfalso].
  assert (Htie1 : 2 * Z.abs (n * P - U) = P) by nia.
  assert (Htie2 : 2 * Z.abs (n' * P - U) = P) by nia.
  specialize (T1 Htie1). specialize (T2 Htie2).
  apply Z.even_spec in T1, T2. destruct T1 as [a Ea], T2 as [b Eb]. lia.
Qed.

Lemma quantize1_opp (q : float32) (v : Z) :
  valid q = true -> quantize1 q = Ok v -> quantize1 (SFopp q) = Ok (- v).
Proof.
  intros V H. destruct q as [s | s | | s m e].
  - rewrite quantize1_zero in H. apply Ok_inj in H. subst v.
    cbn [SFopp]. apply quantize1_zero.
  - rewrite quantize1_inf in H. apply Ok_inj in H. subst v.
    cbn [SFopp]. rewrite quantize1_inf. destruct s; reflexivity.
  - discriminate.
  - assert (G : good (S754_finite s m e) = true) by (apply good_finite; exact V).
    assert (G' : good (SFopp (S754_finite s m e)) = true)
      by (apply good_finite; exact V).
    destruct (quantize1_good _ G) as (n & Hn & Tn & _ & En).
    destruct (quantize1_good _ G') as (n' & Hn' & Tn' & _ & En').
    rewrite units_opp in Hn', Tn'.
    rewrite En in H. apply Ok_inj in H. subst v. rewrite En'. f_equal.
    assert (E : - n' = n).
    { apply (nearest_even_unique (- n') n (units (S754_finite s m e)) (2 ^ 149));
        try assumption; try reflexivity.
      - replace (- n' * 2 ^ 149 - units (S754_finite s m e))
          with (- (n' * 2 ^ 149 - - units (S754_finite s m e))) by ring.
        rewrite Z.abs_opp. exact Hn'.
      - replace (- n' * 2 ^ 149 - units (S754_finite s m e))
          with (- (n' * 2 ^ 149 - - units (S754_finite s m e))) by ring.
        rewrite Z.abs_opp, Z.even_opp. exact Tn'. }
    lia.
Qed.

(** The sign of a quotient that is not NaN. *)
Lemma div_sign (x y : float32) :
  is_nan (F32.div x y) = false ->
  sign_of (F32.div x y) = xorb (sign_of x) (sign_of y).
Proof.
  destruct x as [sx | sx | | sx mx ex], y as [sy | sy | | sy my ey];
    try discriminate; try reflexivity.
  intros _. apply (div_finite_sign sx sy mx my ex ey).
Qed.

Lemma quantize1_sign (q : float32) (v : Z) :
  valid q = true -> quantize1 q = Ok v ->
  if sign_of q then v <= 0 else 0 <= v.
Proof.
  intros V H. destruct q as [s | s | | s m e].
  - rewrite quantize1_zero in H. apply Ok_inj in H. subst v. destruct s; cbn; lia.
  - rewrite quantize1_inf in H. apply Ok_inj in H. subst v. destruct s; cbn; lia.
  - discriminate.
  - assert (G : good (S754_finite s m e) = true) by (apply good_finite; exact V).
    destruct (quantize1_good _ G) as (n & Hn & _ & _ & En).
    rewrite En in H. apply Ok_inj in H. subst v.
    pose proof (valid_finite_bounds _ _ _ V) as (He & _).
    pose proof (units_finite_pos m e ltac:(lia)) as Hpos.
    assert (HP : 0 < 2 ^ 149) by reflexivity.
    cbn [units sign_of] in *. destruct s; cbn [cond_Zopp] in Hn; nia.
Qed.

End Symmetry.

(** X4.  In a row that line 40 converts, a zero element (of either sign) always
    becomes the byte 0, whatever the scale: the quantization has no zero
    point. *)
Theorem zero_maps_to_zero (row : list float32) (scale : float32) (q : list Z) :
  q_row row scale = Ok q ->
  List.Forall2 (fun x v => is_zero x = true -> v = 0) row q.
Proof.
  rewrite q_row_Forall2. intros H.
  eapply List.Forall2_impl; [| exact H]. cbv beta.
  intros x v Hv Hz. destruct x as [sx | | |]; try discriminate.
  destruct scale as [sy | sy | | sy my ey]; cbn [F32.div SFdiv] in Hv.
  - discriminate.
  - rewrite quantize1_zero in Hv. apply Ok_inj in Hv. congruence.
  - discriminate.
  - rewrite quantize1_zero in Hv. apply Ok_inj in Hv. congruence.
Qed.

Lemma zero_maps_to_zero_witness :
  List.Forall2 (fun x v => is_zero x = true -> v = 0)
    [S754_zero true; f32_2_54; F32.zero] [0; 127; 0].
Proof.
  apply (zero_maps_to_zero [S754_zero true; f32_2_54; F32.zero] f32_0_02 [0; 127; 0]).
  vm_compute. reflexivity.
Defined.

(** X5.  A non-empty row of zeros, of any length and any signs, is stored with
    scale 1.0 and all bytes 0. *)
Theorem zero_row_bytes (row : list float32) :
  row <> [] -> all_zero row = true ->
  quantize_row row = Ok (F32.one, repeat Byte.x00 (length row)).
Proof.
  intros Hne Hz.
  assert (Hgood : Forall (fun x => good x = true) row).
  { unfold all_zero in Hz. rewrite forallb_forall in Hz.
    apply List.Forall_forall. intros x Hx. specialize (Hz x Hx).
    destruct x; try discriminate. reflexivity. }
  destruct (row_scale_spec row Hne Hgood)
    as (a & _ & _ & _ & [(_ & _ & Es) | (Hnz & _)]); [| congruence].
  unfold quantize_row. rewrite Es. cbn [mbind result_bind].
  assert (Eq : q_row row F32.one = Ok (repeat 0 (length row))).
  { apply q_row_Forall2. unfold all_zero in Hz. clear Hne Hgood Es.
    induction row as [| x row IH]; [constructor |].
    cbn [forallb] in Hz. apply andb_true_iff in Hz. destruct Hz as [Hx Hrow].
    cbn [length repeat]. constructor; [| apply IH; exact Hrow].
    destruct x as [[] | | |]; try discriminate; reflexivity. }
  rewrite Eq. cbn [mbind result_bind]. f_equal. f_equal.
  unfold Np.view_uint8. rewrite map_repeat. reflexivity.
Qed.

Lemma zero_row_bytes_witness :
  quantize_row [F32.zero; S754_zero true; F32.zero] =
  Ok (F32.one, repeat Byte.x00 (length [F32.zero; S754_zero true; F32.zero])).
Proof.
  apply (zero_row_bytes [F32.zero; S754_zero true; F32.zero]).
  - discriminate.
  - reflexivity.
Defined.

(** X6.  Negating every element of a row leaves its scale unchanged and negates
    every signed byte: the quantization is symmetric about zero. *)
Theorem negated_row (row : list float32) (scale : float32) (q : list Z) :
  row_scale row = Ok scale ->
  q_row row scale = Ok q ->
  row_scale (map SFopp row) = Ok scale /\
  q_row (map SFopp row) scale = Ok (map Z.opp q).
Proof.
  intros Hs Hq. split.
  - unfold row_scale in *.
    replace (Np.abs (map SFopp row)) with (Np.abs row); [exact Hs |].
    unfold Np.abs. rewrite map_map. apply map_ext. intros x. destruct x; reflexivity.
  - apply q_row_Forall2. apply q_row_Forall2 in Hq. clear Hs.
    induction Hq as [| x v row q Hv _ IH]; [constructor |].
    cbn [map]. constructor; [| exact IH].
    rewrite div_opp. apply quantize1_opp; [| exact Hv].
    apply div_valid.
Qed.

Lemma negated_row_witness :
  row_scale (map SFopp [f32_2_54; F32.of_Z (-1); F32.zero]) = Ok f32_0_02 /\
  q_row (map SFopp [f32_2_54; F32.of_Z (-1); F32.zero]) f32_0_02 =
    Ok (map Z.opp [127; -50; 0]).
Proof.
  apply (negated_row [f32_2_54; F32.of_Z (-1); F32.zero] f32_0_02 [127; -50; 0]).
  - vm_compute. reflexivity.
  - vm_compute. reflexivity.
Defined.

(** X7.  A signed byte never has the sign opposite to its element: elements with
    the sign bit clear give bytes in [0, 127], elements with the sign bit
    set give bytes in [-127, 0]. *)
Theorem sign_preserved (row : list float32) (scale : float32) (q : list Z) :
  row_scale row = Ok scale ->
  q_row row scale = Ok q ->
  List.Forall2 (fun x v => if sign_of x then -127 <= v <= 0 else 0 <= v <= 127) row q.
Proof.
  intros Hs Hq.
  destruct (row_scale_regular row scale Hs) as (_ & _ & Hsign).
  apply q_row_Forall2 in Hq.
  eapply List.Forall2_impl; [| exact Hq]. cbv beta. intros x v Hv.
  pose proof (div_valid x scale) as V.
  pose proof (quantize1_range _ _ V Hv) as Hr.
  pose proof (quantize1_sign _ _ V Hv) as Hsg.
  assert (Hn : is_nan (F32.div x scale) = false).
  { destruct (F32.div x scale); try reflexivity. discriminate. }
  rewrite (div_sign x scale Hn), Hsign, xorb_false_r in Hsg.
  destruct (sign_of x); lia.
Qed.

Lemma sign_preserved_witness :
  List.Forall2 (fun x v => if sign_of x then -127 <= v <= 0 else 0 <= v <= 127)
    [f32_2_54; F32.of_Z (-1); S754_zero true] [127; -50; 0].
Proof.
  apply (sign_preserved [f32_2_54; F32.of_Z (-1); S754_zero true] f32_0_02 [127; -50; 0]).
  - vm_compute. reflexivity.
  - vm_compute. reflexivity.
Defined.

(** * The largest element of a row *)

Section FullScale.

Lemma Forall2_Forall_l {A B : Type} (P : A -> Prop) (R : A -> B -> Prop)
    (l : list A) (l' : list B) :
  Forall P l -> List.Forall2 R l l' ->
  List.Forall2 (fun a b => P a /\ R a b) l l'.
Proof.
  intros HP HR. induction HR as [| a b l l' Hab _ IH]; [constructor |].
  inversion HP; subst. constructor; auto.
Qed.

(** The scale is within a relative error [2^-24] of [A / 127]. *)
Lemma scale_close (S A g mr : Z) :
  2 ^ 23 <= S -> S = mr * g -> 1 <= g ->
  rne mr A (g * 127) ->
  (g = 1 \/ 2 ^ 23 * (g * 127) <= A) ->
  2 ^ 24 * Z.abs (127 * S - A) <= 127 * S.
Proof.
  intros HS ES Hg [[Hlo Hhi] _] Hnorm.
  assert (H1 : 2 * Z.abs (127 * S - A) <= 127 * g) by (subst S; lia).
  assert (H2 : 2 ^ 23 * g <= S).
  { destruct Hnorm as [-> | Hn]; [lia |].
    assert (Hm : 2 ^ 24 * (g * 127) <= (2 * mr + 1) * (g * 127)) by lia.
    assert (Hm' : 2 ^ 24 <= 2 * mr + 1).
    { apply (Z.mul_le_mono_pos_r _ _ (g * 127)); lia. }
    assert (Hmr : 2 ^ 23 <= mr) by lia.
    subst S. apply Z.mul_le_mono_nonneg_r; lia. }
  lia.
Qed.

Lemma full_scale_arith (S A v X : Z) :
  2 ^ 23 <= S ->
  2 ^ 24 * Z.abs (127 * S - A) <= 127 * S ->
  -127 <= v <= 127 ->
  2 ^ 25 * Z.abs (v * S - X) <= 2 ^ 24 * S + 2 * Z.abs X ->
  Z.abs X = A ->
  (0 < X -> v = 127) /\ (X < 0 -> v = -127).
Proof.
  intros HS Hc Hv Hb HX. split; intros Hsg.
  - destruct (Z.eq_dec v 127) as [E | Hne]; [exact E | exfalso].
    assert (Hw : v * S <= 126 * S) by (apply Z.mul_le_mono_nonneg_r; lia).
    lia.
  - destruct (Z.eq_dec v (-127)) as [E | Hne]; [exact E | exfalso].
    assert (Hw : -126 * S <= v * S) by (apply Z.mul_le_mono_nonneg_r; lia).
    lia.
Qed.

End FullScale.

(** X8.  On a row of finite floats, not all zero, whose scale is a normal float,
    every element of largest absolute value is stored as +127 or -127
    according to its sign: the full range of the byte is used. *)
Theorem largest_element_full_scale (row : list float32) (scale : float32) (q : list Z) :
  Forall (fun x => good x = true) row ->
  all_zero row = false ->
  row_scale row = Ok scale ->
  F32.leb F32.min_normal scale = true ->
  q_row row scale = Ok q ->
  List.Forall2
    (fun x v => Np.max (Np.abs row) = Ok (F32.abs x) ->
                v = if sign_of x then -127 else 127)
    row q.
Proof.
  intros Hgood Hnz Hscale Hnormal Hq.
  assert (Hne : row <> []) by (intros ->; discriminate).
  destruct (row_scale_spec row Hne Hgood)
    as (a & Emax & _ & Hall & [(Hz & _) | (_ & (ma & ea & Ea) & Va & Es)]);
    [congruence |].
  rewrite Es in Hscale. apply Ok_inj in Hscale. subst scale a.
  destruct (scale_units ma ea Va)
    as (g & mr & (j & Hj & Eg) & Hmr & Hrne & Hnorm & Gs & Hu & _).
  set (sc := F32.div (S754_finite false ma ea) (F32.of_Z 127)) in *.
  assert (HS : 2 ^ 23 <= units sc).
  { assert (Gmin : good F32.min_normal = true) by reflexivity.
    unfold good in Gs, Gmin. apply andb_true_iff in Gs, Gmin.
    rewrite leb_units in Hnormal by tauto. apply Z.leb_le in Hnormal. exact Hnormal. }
  assert (Hgpos : 1 <= g) by (subst g; pose proof (Z.pow_pos_nonneg 2 j); lia).
  pose proof (scale_close _ _ g mr HS Hu Hgpos Hrne Hnorm) as Hclose.
  apply q_row_Forall2 in Hq.
  assert (Hboth : Forall (fun x => good x = true /\
                    Z.abs (units x) <= units (S754_finite false ma ea)) row).
  { rewrite List.Forall_forall in Hall, Hgood |- *. intros x Hx. auto. }
  pose proof (Forall2_Forall_l _ _ _ _ Hboth Hq) as H2.
  eapply List.Forall2_impl; [| exact H2]. cbv beta.
  intros x v [[Gx Hx] Hv] Hmax.
  rewrite Emax in Hmax. apply Ok_inj in Hmax.
  assert (EA : Z.abs (units x) = units (S754_finite false ma ea)).
  { rewrite Hmax. symmetry. apply units_abs. exact Gx. }
  destruct (element_bound ma ea x Va HS Gx Hx) as (v' & Hv' & Hr & Hb).
  fold sc in Hv'. rewrite Hv in Hv'. apply Ok_inj in Hv'. subst v'.
  destruct (full_scale_arith _ _ v (units x) HS Hclose Hr Hb EA) as [Hp Hn].
  pose proof (valid_finite_bounds _ _ _ Va) as (Hea & _).
  assert (HApos : 0 < units (S754_finite false ma ea))
    by (apply (units_finite_pos ma ea); lia).
  revert EA HApos Hp Hn. generalize (units (S754_finite false ma ea)). intros A EA HApos Hp Hn.
  destruct x as [sx | sx | | sx mx ex]; try discriminate.
  apply good_finite in Gx. pose proof (valid_finite_bounds _ _ _ Gx) as (Hex & _).
  pose proof (units_finite_pos mx ex ltac:(lia)) as Hxpos.
  cbn [sign_of]. cbn [units] in Hp, Hn. destruct sx; cbn [cond_Zopp] in Hp, Hn.
  - apply Hn. lia.
  - apply Hp. lia.
Qed.

Lemma largest_element_full_scale_witness :
  List.Forall2
    (fun x v => Np.max (Np.abs [F32.of_Z 1; F32.of_Z (-4); F32.of_Z 4]) = Ok (F32.abs x) ->
                v = if sign_of x then -127 else 127)
    [F32.of_Z 1; F32.of_Z (-4); F32.of_Z 4] [32; -127; 127].
Proof.
  apply (largest_element_full_scale [F32.of_Z 1; F32.of_Z (-4); F32.of_Z 4]
           (F32.div (F32.of_Z 4) (F32.of_Z 127)) [32; -127; 127]).
  - repeat constructor.
  - reflexivity.
  - vm_compute. reflexivity.
  - vm_compute. reflexivity.
  - vm_compute. reflexivity.
Defined.

(** * What the file determines *)

Section Injective.

Lemma app_inj_length {A} (l1 l2 k1 k2 : list A) :
  length l1 = length k1 -> l1 ++ l2 = k1 ++ k2 -> l1 = k1 /\ l2 = k2.
Proof.
  revert k1. induction l1 as [| a l1 IH]; intros [| b k1] Hl E; try discriminate.
  - split; [reflexivity | exact E].
  - cbn in Hl, E. injection E as -> E. injection Hl as Hl.
    destruct (IH k1 Hl E) as [-> ->]. split; reflexivity.
Qed.

Lemma concat_inj {A} (k : nat) (l l' : list (list A)) :
  Forall (fun r => length r = k) l -> Forall (fun r => length r = k) l' ->
  length l = length l' -> concat l = concat l' -> l = l'.
Proof.
  intros Hl. revert l'. induction Hl as [| r l Hr _ IH]; intros [| r' l'] Hl' Hlen E;
    try discriminate; [reflexivity |].
  inversion Hl' as [| ? ? Hr' Hl'']; subst. cbn [concat] in E.
  apply app_inj_length in E; [| congruence]. destruct E as [-> E'].
  f_equal. apply IH; [exact Hl'' | | exact E']. cbn in Hlen. lia.
Qed.

Lemma native_bytes32_inj (order : byteorder) (v w : Z) :
  0 <= v < 2 ^ 32 -> 0 <= w < 2 ^ 32 ->
  native_bytes32 order v = native_bytes32 order w -> v = w.
Proof.
  intros Hv Hw E.
  rewrite <- (native_word32_bytes order v Hv), <- (native_word32_bytes order w Hw), E.
  reflexivity.
Qed.

Lemma bits_inj (x y : float32) :
  valid x = true -> valid y = true -> bits x = bits y -> x = y.
Proof.
  intros Vx Vy E.
  rewrite <- (float_of_bits_bits x Vx), <- (float_of_bits_bits y Vy), E. reflexivity.
Qed.

Lemma scales_tobytes_inj (order : byteorder) (scales scales' : list float32) :
  Forall (fun s => valid s = true) scales -> Forall (fun s => valid s = true) scales' ->
  length scales = length scales' ->
  scales_tobytes order scales = scales_tobytes order scales' -> scales = scales'.
Proof.
  unfold scales_tobytes. intros V V' Hlen E.
  apply (concat_inj 4) in E.
  - revert scales' V' Hlen E. induction V as [| s scales Vs _ IH];
      intros [| s' scales'] V' Hlen E; try discriminate; [reflexivity |].
    inversion V' as [| ? ? Vs' V'']; subst. cbn [map] in E. injection E as Es E.
    f_equal.
    + apply bits_inj; try assumption.
      apply (native_bytes32_inj order); try (apply bits_range; assumption). exact Es.
    + apply IH; [exact V'' | cbn in Hlen; lia | exact E].
  - apply List.Forall_map. apply List.Forall_forall. intros s _. apply native_bytes32_length.
  - apply List.Forall_map. apply List.Forall_forall. intros s _. apply native_bytes32_length.
  - rewrite !length_map. exact Hlen.
Qed.

Lemma q_row_range (row : list float32) (scale : float32) (q : list Z) :
  q_row row scale = Ok q -> Forall (fun v => -127 <= v <= 127) q.
Proof.
  rewrite q_row_Forall2. induction 1 as [| x v row q Hv _ IH]; constructor; [| exact IH].
  apply (quantize1_range (F32.div x scale)); [apply div_valid | exact Hv].
Qed.

Lemma view_uint8_inj (q q' : list Z) :
  Forall (fun v => -127 <= v <= 127) q -> Forall (fun v => -127 <= v <= 127) q' ->
  Np.view_uint8 q = Np.view_uint8 q' -> q = q'.
Proof.
  unfold Np.view_uint8. intros H. revert q'.
  induction H as [| v q Hv _ IH]; intros [| v' q'] H' E; try discriminate; [reflexivity |].
  inversion H' as [| ? ? Hv' H'']; subst. cbn [map] in E. injection E as Ev E.
  f_equal; [| apply IH; assumption].
  rewrite <- (int8_of_byte_of_Z v), <- (int8_of_byte_of_Z v'), Ev by lia. reflexivity.
Qed.

(** The scales a successful loop collected are floats in canonical form. *)
Lemma quantize_scales_valid (emb_reduced : list (list float32))
    (scales : list float32) (quantized : list (list Byte.byte)) :
  quantize (length emb_reduced) emb_reduced = Ok (scales, quantized) ->
  Forall (fun s => valid s = true) scales.
Proof.
  intros Hq. destruct (quantize_Ok _ _ _ Hq) as (_ & Hl & _ & Hnth).
  apply List.Forall_forall. intros s Hs.
  apply In_nth_error in Hs. destruct Hs as [i Hi].
  assert (Hlt : (i < length emb_reduced)%nat).
  { rewrite <- Hl. apply nth_error_Some. rewrite Hi. discriminate. }
  destruct (nth_error emb_reduced i) as [row |] eqn:Erow;
    [| apply nth_error_None in Erow; lia].
  destruct (Hnth i row Erow) as (scale & bytes & Hrow & Hsc & _).
  rewrite Hi in Hsc. injection Hsc as <-.
  unfold quantize_row in Hrow.
  destruct (row_scale row) as [s' |] eqn:Es; cbn in Hrow; [| discriminate].
  destruct (q_row row s') as [q |]; cbn in Hrow; [| discriminate].
  injection Hrow as <- _. apply (row_scale_regular row s' Es).
Qed.

End Injective.

(** X9.  Line 41 loses nothing: the unsigned bytes stored for a row determine
    its signed values. *)
Theorem view_uint8_faithful (row row' : list float32) (scale scale' : float32)
    (q q' : list Z) :
  q_row row scale = Ok q -> q_row row' scale' = Ok q' ->
  Np.view_uint8 q = Np.view_uint8 q' -> q = q'.
Proof.
  intros H H' E. apply view_uint8_inj; [eapply q_row_range; eassumption .. | exact E].
Qed.

Lemma view_uint8_faithful_witness : [127; -50; 0] = [127; -50; 0].
Proof.
  apply (view_uint8_faithful [f32_2_54; F32.of_Z (-1); F32.zero]
           [f32_2_54; F32.of_Z (-1); F32.zero] f32_0_02 f32_0_02).
  - vm_compute. reflexivity.
  - vm_compute. reflexivity.
  - reflexivity.
Defined.

(** X10.  The output file determines what was quantized: two successful runs that
    leave the same bytes in the output file had the same number of rows,
    the same dimension, the same scales and the same quantized rows. *)
Theorem file_determines_content (order : byteorder) (target_dim vocab_size : nat)
    (target_dim' vocab_size' : nat) (emb_reduced emb_reduced' : list (list float32))
    (fs1 fs2 fs1' fs2' : filesystem) :
  length emb_reduced = vocab_size ->
  Forall (fun row => length row = target_dim) emb_reduced ->
  length emb_reduced' = vocab_size' ->
  Forall (fun row => length row = target_dim') emb_reduced' ->
  quantize_and_write order target_dim vocab_size emb_reduced fs1 = (fs2, Ok tt) ->
  quantize_and_write order target_dim' vocab_size' emb_reduced' fs1' = (fs2', Ok tt) ->
  fs2 !! OUTPUT = fs2' !! OUTPUT ->
  vocab_size = vocab_size' /\ target_dim = target_dim' /\
  quantize vocab_size emb_reduced = quantize vocab_size' emb_reduced'.
Proof.
  intros Hlen Hcols Hlen' Hcols' Hrun Hrun' Hsame. subst vocab_size vocab_size'.
  unfold quantize_and_write in Hrun, Hrun'.
  destruct (quantize (length emb_reduced) emb_reduced)
    as [[scales quantized] | e] eqn:Hq; [| discriminate].
  destruct (quantize (length emb_reduced') emb_reduced')
    as [[scales' quantized'] | e] eqn:Hq'; [| discriminate].
  rewrite write_binary_spec in Hrun, Hrun'.
  destruct (struct_pack_III order (Z.of_nat (length emb_reduced)) _ _)
    as [header | e] eqn:Hpack; [| discriminate].
  destruct (struct_pack_III order (Z.of_nat (length emb_reduced')) _ _)
    as [header' | e] eqn:Hpack'; [| discriminate].
  injection Hrun as <-. injection Hrun' as <-.
  rewrite !lookup_insert_eq in Hsame. injection Hsame as Hsame.
  apply struct_pack_III_Ok in Hpack, Hpack'.
  destruct Hpack as (Eh & Hh & HN & HK & _), Hpack' as (Eh' & Hh' & HN' & HK' & _).
  apply app_inj_length in Hsame; [| congruence]. destruct Hsame as [Ehh Hbody].
  rewrite Eh, Eh' in Ehh.
  apply app_inj_length in Ehh; [| rewrite !native_bytes32_length; reflexivity].
  destruct Ehh as [EN Ehh'].
  apply app_inj_length in Ehh'; [| rewrite !native_bytes32_length; reflexivity].
  destruct Ehh' as [EK _].
  apply native_bytes32_inj in EN, EK; try assumption.
  apply Nat2Z.inj in EN, EK. subst target_dim'.
  destruct (quantize_Ok _ _ _ Hq) as (_ & Hls & Hlq & _).
  destruct (quantize_Ok _ _ _ Hq') as (_ & Hls' & Hlq' & _).
  apply app_inj_length in Hbody; [| rewrite !scales_tobytes_length; congruence].
  destruct Hbody as [Es Eq].
  apply scales_tobytes_inj in Es.
  2: exact (quantize_scales_valid _ _ _ Hq).
  2: exact (quantize_scales_valid _ _ _ Hq').
  2: congruence.
  apply (concat_inj target_dim) in Eq.
  2: exact (quantized_rows_length _ _ _ _ Hcols Hq).
  2: exact (quantized_rows_length _ _ _ _ Hcols' Hq').
  2: congruence.
  split; [exact EN |]. split; [reflexivity |]. congruence.
Qed.

Lemma file_determines_content_witness :
  2%nat = 2%nat /\ 4%nat = 4%nat /\ quantize 2 two_rows = quantize 2 two_rows.
Proof.
  apply (file_determines_content little 4 2 4 2 two_rows two_rows
           ∅ (fst (quantize_and_write little 4 2 two_rows ∅))
           (<[INPUT := []]> ∅)
           (fst (quantize_and_write little 4 2 two_rows (<[INPUT := []]> ∅)))).
  - reflexivity.
  - repeat constructor.
  - reflexivity.
  - repeat constructor.
  - vm_compute. reflexivity.
  - vm_compute. reflexivity.
  - vm_compute. reflexivity.
Defined.

(** * The whole script *)

Section RowSuccess.

(** A row of finite floats that is all zeros or has an element of
    absolute value at least [2^-143] is quantized without error. *)
Lemma quantize_row_ok (row : list float32) :
  row <> [] ->
  Forall (fun x => good x = true) row ->
  all_zero row = true \/
  Exists (fun x => F32.leb (S754_finite false 64 (-149)) (F32.abs x) = true) row ->
  is_ok (quantize_row row) = true.
Proof.
  intros Hne Hgood Hbig.
  destruct (row_scale_spec row Hne Hgood) as (a & Emax & Hina & Hall & Hcases).
  assert (Hs : exists scale, row_scale row = Ok scale).
  { destruct Hcases as [(_ & _ & Es) | (_ & _ & _ & Es)]; eauto. }
  destruct Hs as (scale & Hscale).
  destruct (scale_positive_iff row scale Hgood Hscale) as (a' & Emax' & Hiff & Hq & _).
  rewrite Emax in Emax'. apply Ok_inj in Emax'. subst a'.
  assert (Hlt : F32.ltb F32.zero scale = true).
  { apply Hiff. destruct Hbig as [Hz | Hex]; [left; exact Hz | right].
    apply List.Exists_exists in Hex. destruct Hex as (x & Hx & Hle).
    rewrite List.Forall_forall in Hall, Hgood.
    pose proof (Hall x Hx) as Hxa. pose proof (Hgood x Hx) as Gx.
    assert (Ga : good a = true).
    { unfold Np.abs in Hina. apply in_map_iff in Hina. destruct Hina as (y & <- & Hy).
      apply good_abs. apply Hgood. exact Hy. }
    pose proof (good_abs x Gx) as Gax.
    assert (G64 : good (S754_finite false 64 (-149)) = true) by reflexivity.
    unfold good in Ga, Gax, G64. apply andb_true_iff in Ga, Gax, G64.
    rewrite leb_units in Hle |- * by tauto.
    apply Z.leb_le in Hle. apply Z.leb_le.
    rewrite (units_abs x Gx) in Hle. lia. }
  destruct (Hq Hlt) as (_ & _ & q & Eq).
  unfold quantize_row. rewrite Hscale. cbn [mbind result_bind]. rewrite Eq. reflexivity.
Qed.

End RowSuccess.

(** X11.  Whatever happens, the script changes no file other than the
    output file; in particular the input file is left as it was. *)
Theorem main_other_files_untouched (order : byteorder)
    (np_load : list Byte.byte -> result ndarray)
    (fit_transform : nat -> ndarray -> result (list (list float32)))
    (fs : filesystem) (path : string) :
  path <> OUTPUT ->
  fst (main order np_load fit_transform fs) !! path = fs !! path.
Proof.
  intros Hp. unfold main.
  destruct (fs !! INPUT) as [bytes |]; [| reflexivity].
  destruct (np_load bytes) as [emb | e]; [| reflexivity].
  destruct (shape emb) as [vocab_size orig_dim].
  destruct (fit_transform TARGET_DIM emb) as [emb_reduced | e]; [| reflexivity].
  destruct (quantize_and_write_cases order TARGET_DIM vocab_size emb_reduced)
    as (r & [[_ Hrun] | (content & Hrun)]); rewrite Hrun; cbn [fst].
  - reflexivity.
  - apply lookup_insert_ne. congruence.
Qed.


(** X13.  The script succeeds, and leaves a file of
    [12 + 4 * N + N * 64] bytes, when the input file loads, the PCA
    returns [N] rows of 64 finite floats for [0 < N < 2^32], and every
    row is all zeros or has an element of absolute value at least
    [2^-143]. *)
Theorem main_succeeds (order : byteorder)
    (np_load : list Byte.byte -> result ndarray)
    (fit_transform : nat -> ndarray -> result (list (list float32)))
    (fs : filesystem) (bytes : list Byte.byte) (emb : ndarray)
    (emb_reduced : list (list float32)) :
  fs !! INPUT = Some bytes ->
  np_load bytes = Ok emb ->
  fit_transform TARGET_DIM emb = Ok emb_reduced ->
  length emb_reduced = fst (shape emb) ->
  (0 < fst (shape emb))%nat -> Z.of_nat (fst (shape emb)) < 2 ^ 32 ->
  Forall (fun row => length row = TARGET_DIM) emb_reduced ->
  Forall (fun row =>
            Forall (fun x => good x = true) row /\
            (all_zero row = true \/
             Exists (fun x => F32.leb (S754_finite false 64 (-149)) (F32.abs x) = true)
               row)) emb_reduced ->
  exists content,
    main order np_load fit_transform fs = (<[OUTPUT := content]> fs, Ok tt) /\
    length content =
      (12 + 4 * fst (shape emb) + fst (shape emb) * TARGET_DIM)%nat.
Proof.
  intros Hin Hload Hfit Hlen Hpos HN Hcols Hrows.
  unfold main. rewrite Hin, Hload.
  destruct (shape emb) as [vocab_size orig_dim]. cbn [fst] in *. rewrite Hfit.
  subst vocab_size.
  assert (Hne : emb_reduced <> []) by (intros ->; cbn in Hpos; lia).
  assert (Hok : Forall (fun row => is_ok (quantize_row row) = true) emb_reduced).
  { rewrite List.Forall_forall in Hrows, Hcols |- *. intros row Hrow.
    destruct (Hrows row Hrow) as [Hgood Hbig].
    apply quantize_row_ok; try assumption.
    intros ->. specialize (Hcols [] Hrow). discriminate Hcols. }
  destruct (quantize_total TARGET_DIM emb_reduced Hne Hcols Hok)
    as (scales & quantized & Eq).
  unfold quantize_and_write. rewrite Eq, write_binary_spec.
  rewrite struct_pack_III_total; [| lia | unfold TARGET_DIM; lia | lia].
  eexists. split; [reflexivity |].
  destruct (quantize_Ok _ _ _ Eq) as (_ & Hls & Hlq & _).
  pose proof (quantized_rows_length _ _ _ _ Hcols Eq) as Hr.
  rewrite !length_app, !native_bytes32_length, scales_tobytes_length,
    (quantized_tobytes_length TARGET_DIM) by exact Hr.
  rewrite Hls, Hlq. lia.
Qed.


Lemma main_other_files_untouched_witness :
  fst (main little (fun _ => Ok {| shape := (2%nat, 4%nat); data := two_rows |})
         (fun _ _ => Ok two_rows) (<[INPUT := [Byte.x01]]> ∅)) !! INPUT =
  (<[INPUT := [Byte.x01]]> ∅ : filesystem) !! INPUT.
Proof.
  apply (main_other_files_untouched little
           (fun _ => Ok {| shape := (2%nat, 4%nat); data := two_rows |})
           (fun _ _ => Ok two_rows) (<[INPUT := [Byte.x01]]> ∅) INPUT).
  discriminate.
Defined.


Lemma main_succeeds_witness :
  exists content,
    main big (fun _ => Ok {| shape := (2%nat, 300%nat);
                             data := [repeat F32.one 300; repeat F32.zero 300] |})
      (fun k _ => Ok [one_hot F32.zero k 7 f32_2_54; repeat F32.zero k])
      (<[INPUT := [Byte.x01]]> ∅) =
    (<[OUTPUT := content]> (<[INPUT := [Byte.x01]]> ∅), Ok tt) /\
    length content = (12 + 4 * 2 + 2 * TARGET_DIM)%nat.
Proof.
  apply (main_succeeds big
           (fun _ => Ok {| shape := (2%nat, 300%nat);
                           data := [repeat F32.one 300; repeat F32.zero 300] |})
           (fun k _ => Ok [one_hot F32.zero k 7 f32_2_54; repeat F32.zero k])
           (<[INPUT := [Byte.x01]]> ∅) [Byte.x01]
           {| shape := (2%nat, 300%nat);
              data := [repeat F32.one 300; repeat F32.zero 300] |}
           [one_hot F32.zero TARGET_DIM 7 f32_2_54; repeat F32.zero TARGET_DIM]).
  - reflexivity.
  - reflexivity.
  - reflexivity.
  - reflexivity.
  - cbn. lia.
  - cbn. lia.
  - repeat constructor.
  - constructor; [| constructor; [| constructor]].
    + split; [apply List.Forall_forall; intros x Hx; vm_compute in Hx;
              repeat (destruct Hx as [<- | Hx]; [reflexivity |]); destruct Hx |].
      right. apply List.Exists_exists. exists f32_2_54. split; [| reflexivity].
      vm_compute. do 7 right. left. reflexivity.
    + split; [apply List.Forall_forall; intros x Hx; vm_compute in Hx;
              repeat (destruct Hx as [<- | Hx]; [reflexivity |]); destruct Hx |].
      left. reflexivity.
Defined.

(** * The quantizer preserves order *)

Section Monotone.

(** Rounding to nearest, ties to even, is monotone. *)
Lemma rne_mono (r1 r2 n1 n2 d : Z) :
  0 < d -> rne r1 n1 d -> rne r2 n2 d -> n1 <= n2 -> r1 <= r2.
Proof.
  intros Hd [[L1 H1] T1] [[L2 H2] T2] Hn.
  destruct (Z_le_gt_dec r1 r2) as [Hle | Hgt]; [exact Hle | exfalso].
  assert (Hm : (2 * r2 + 1) * d <= (2 * r1 - 1) * d)
    by (apply Z.mul_le_mono_nonneg_r; lia).
  assert (E1 : 2 * n1 = (2 * r1 - 1) * d) by lia.
  assert (E2 : 2 * n2 = (2 * r2 + 1) * d) by lia.
  assert (Er : (2 * r2 + 1) * d = (2 * r1 - 1) * d) by lia.
  apply Z.mul_cancel_r in Er; [| lia].
  specialize (T1 (or_introl E1)). specialize (T2 (or_intror E2)).
  apply Z.even_spec in T1, T2. destruct T1 as [a Ea], T2 as [b Eb]. lia.
Qed.

Lemma nearest_rne (n u P : Z) :
  0 < P ->
  2 * Z.abs (n * P - u) <= P -> (2 * Z.abs (n * P - u) = P -> Z.even n = true) ->
  rne n u P.
Proof.
  intros HP H T. split; [lia |]. intros E. apply T. lia.
Qed.

Lemma pow2_cases (j1 j2 : Z) :
  0 <= j1 -> 0 <= j2 ->
  2 ^ j1 = 2 ^ j2 \/
  (exists k, 2 <= k /\ 2 ^ j2 = k * 2 ^ j1) \/
  (exists k, 2 <= k /\ 2 ^ j1 = k * 2 ^ j2).
Proof.
  intros H1 H2.
  assert (Hk : forall a b, 0 <= a -> a < b ->
               exists k, 2 <= k /\ 2 ^ b = k * 2 ^ a).
  { intros a b Ha Hab. exists (2 ^ (b - a)). split.
    - change 2 with (2 ^ 1) at 1. apply Z.pow_le_mono_r; lia.
    - rewrite <- Z.pow_add_r by lia. f_equal. lia. }
  destruct (Z.lt_trichotomy j1 j2) as [Hlt | [-> | Hgt]].
  - right. left. apply Hk; assumption.
  - left. reflexivity.
  - right. right. apply Hk; assumption.
Qed.

Lemma mul_ge_2 (k g : Z) : 2 <= k -> 1 <= g -> 2 <= k * g.
Proof. intros Hk Hg. nia. Qed.

Lemma mag_mono_up (k g mr1 mr2 : Z) :
  2 <= k -> 1 <= g -> 0 <= mr1 <= 2 ^ 24 -> 2 ^ 23 <= mr2 ->
  mr1 * g <= mr2 * (k * g).
Proof.
  intros Hk Hg H1 H2.
  assert (H : mr1 <= mr2 * k) by nia.
  rewrite Z.mul_assoc. apply Z.mul_le_mono_nonneg_r; lia.
Qed.

Lemma mag_mono_down (g mr1 mr2 : Z) :
  1 <= g -> mr1 <= 2 ^ 23 -> 2 ^ 24 <= mr2 ->
  mr1 * (2 * g) <= mr2 * g.
Proof.
  intros Hg H1 H2.
  replace (mr1 * (2 * g)) with (2 * mr1 * g) by ring.
  apply Z.mul_le_mono_nonneg_r; lia.
Qed.

(** The magnitude of a correctly rounded quotient grows with the
    magnitude of the numerator. *)
Lemma mag_mono (P S X1 X2 g1 g2 mr1 mr2 : Z) :
  0 < S -> 0 <= X1 <= X2 ->
  1 <= g1 -> 1 <= g2 ->
  (g1 = g2 \/ (exists k, 2 <= k /\ g2 = k * g1) \/ (exists k, 2 <= k /\ g1 = k * g2)) ->
  0 <= mr1 <= 2 ^ 24 -> 0 <= mr2 <= 2 ^ 24 ->
  rne mr1 (P * X1) (g1 * S) -> rne mr2 (P * X2) (g2 * S) ->
  0 <= P ->
  (g1 = 1 \/ 2 ^ 23 * (g1 * S) <= P * X1) ->
  (g2 = 1 \/ 2 ^ 23 * (g2 * S) <= P * X2) ->
  mr1 * g1 <= mr2 * g2.
Proof.
  intros HS HX Hg1 Hg2 Hcases Hm1 Hm2 R1 R2 HP N1 N2.
  assert (HPX : P * X1 <= P * X2) by (apply Z.mul_le_mono_nonneg_l; lia).
  assert (HgS1 : 0 < g1 * S) by (apply Z.mul_pos_pos; lia).
  assert (HgS2 : 0 < g2 * S) by (apply Z.mul_pos_pos; lia).
  destruct Hcases as [E | [(k & Hk & E) | (k & Hk & E)]].
  - subst g2. apply Z.mul_le_mono_nonneg_r; [lia |].
    apply (rne_mono mr1 mr2 (P * X1) (P * X2) (g1 * S)); assumption.
  - pose proof (mul_ge_2 k g1 Hk Hg1) as Hkg.
    destruct N2 as [N2 | N2]; [lia |].
    destruct R2 as [[_ U2] _].
    assert (H1 : 2 ^ 24 * (g2 * S) <= (2 * mr2 + 1) * (g2 * S)) by lia.
    apply Z.mul_le_mono_pos_r in H1; [| exact HgS2].
    subst g2. apply mag_mono_up; lia.
  - pose proof (mul_ge_2 k g2 Hk Hg2) as Hkg.
    destruct N1 as [N1 | N1]; [lia |].
    destruct R1 as [[L1 _] _]. destruct R2 as [[_ U2] _].
    assert (Eg : g1 * S = k * (g2 * S)) by (subst g1; ring).
    rewrite Eg in L1, N1.
    assert (H1 : 2 ^ 24 * k * (g2 * S) <= (2 * mr2 + 1) * (g2 * S)).
    { replace (2 ^ 24 * k * (g2 * S)) with (2 * (2 ^ 23 * (k * (g2 * S)))) by ring.
      lia. }
    apply Z.mul_le_mono_pos_r in H1; [| exact HgS2].
    assert (Ek : k = 2) by lia. subst k.
    assert (H2 : (2 * mr1 - 1) * 2 * (g2 * S) <= (2 * mr2 + 1) * (g2 * S)).
    { replace ((2 * mr1 - 1) * 2 * (g2 * S))
        with ((2 * mr1 - 1) * (2 * (g2 * S))) by ring. lia. }
    apply Z.mul_le_mono_pos_r in H2; [| exact HgS2].
    subst g1. apply mag_mono_down; lia.
Qed.

Variables (ms : positive) (es : Z).
Local Abbreviation s := (S754_finite false ms es).
Hypothesis Vs : valid s = true.

(** A quotient by a positive scale that is at most 190.5 in magnitude. *)
Lemma quotient_spec (sx : bool) (mx : positive) (ex : Z) :
  let x := S754_finite sx mx ex in
  valid x = true -> 2 * Z.abs (units x) <= 381 * units s ->
  exists g mr,
    (exists j, 0 <= j /\ g = 2 ^ j) /\ 0 <= mr <= 2 ^ 24 /\
    rne mr (2 ^ 149 * Z.abs (units x)) (g * units s) /\
    (g = 1 \/ 2 ^ 23 * (g * units s) <= 2 ^ 149 * Z.abs (units x)) /\
    good (F32.div x s) = true /\
    units (F32.div x s) = cond_Zopp sx (mr * g).
Proof.
  intros x Vx Hb.
  pose proof (valid_finite_bounds _ _ _ Vs) as (Hes & _).
  pose proof (units_finite_pos ms es ltac:(lia)) as HSpos.
  assert (ES : Z.abs (units s) = units s) by (cbn [units cond_Zopp]; lia).
  destruct (div_units sx false mx ms ex es Vx Vs)
    as (g & mr & (j & Hj & Eg) & Hmr & Hrne & Hnorm & Hzero & Hfin).
  fold x in Hrne, Hnorm, Hzero, Hfin.
  rewrite ES in Hrne, Hnorm. rewrite xorb_false_r in Hzero, Hfin.
  exists g, mr. split; [eauto |]. split; [exact Hmr |].
  split; [exact Hrne |]. split; [exact Hnorm |].
  assert (Hg : 1 <= g) by (subst g; pose proof (Z.pow_pos_nonneg 2 j); lia).
  destruct (Z.eq_dec mr 0) as [E0 | Hn0].
  - rewrite (Hzero E0). subst mr. split; [reflexivity |].
    destruct sx; reflexivity.
  - assert (Hsmall : mr * g < 2 ^ 277).
    { destruct Hrne as [[Hlo _] _].
      assert (HS' : 0 < units s) by (cbn [units cond_Zopp]; lia).
      assert (H1 : (2 * mr - 1) * g * units s <= 381 * 2 ^ 149 * units s) by nia.
      apply Z.mul_le_mono_pos_r in H1; [| exact HS'].
      assert (H2 : mr * g <= (2 * mr - 1) * g) by nia.
      assert (H3 : 381 * 2 ^ 149 < 2 ^ 277) by reflexivity.
      lia. }
    destruct (Hfin ltac:(lia) Hsmall) as (m & e & Eq & He & Hme).
    rewrite Eq. split.
    + apply good_finite. rewrite <- Eq. apply div_valid.
    + cbn [units]. rewrite Hme. reflexivity.
Qed.

(** Division by a positive scale preserves the order of the elements. *)
Lemma div_units_mono (x y : float32) :
  good x = true -> good y = true ->
  2 * Z.abs (units x) <= 381 * units s -> 2 * Z.abs (units y) <= 381 * units s ->
  units x <= units y ->
  good (F32.div x s) = true /\ good (F32.div y s) = true /\
  units (F32.div x s) <= units (F32.div y s).
Proof.
  intros Gx Gy Bx By Hxy.
  pose proof (valid_finite_bounds _ _ _ Vs) as (Hes & _).
  pose proof (units_finite_pos ms es ltac:(lia)) as HSpos.
  assert (HS : 0 < units s) by (cbn [units cond_Zopp]; lia).
  assert (Hq : forall z, good z = true -> 2 * Z.abs (units z) <= 381 * units s ->
            good (F32.div z s) = true /\
            ((is_zero z = true /\ units z = 0 /\ units (F32.div z s) = 0) \/
             exists sz g mr,
               sign_of z = sz /\ units z = cond_Zopp sz (Z.abs (units z)) /\
               0 < Z.abs (units z) /\ 1 <= g /\
               (exists j, 0 <= j /\ g = 2 ^ j) /\ 0 <= mr <= 2 ^ 24 /\
               rne mr (2 ^ 149 * Z.abs (units z)) (g * units s) /\
               (g = 1 \/ 2 ^ 23 * (g * units s) <= 2 ^ 149 * Z.abs (units z)) /\
               units (F32.div z s) = cond_Zopp sz (mr * g))).
  { intros z Gz Bz. destruct z as [sz | sz | | sz mz ez]; try discriminate.
    - split; [reflexivity |]. left. repeat split; reflexivity.
    - apply good_finite in Gz.
      destruct (quotient_spec sz mz ez Gz Bz)
        as (g & mr & (j & Hj & Eg) & Hmr & Hrne & Hnorm & Gq & Uq).
      split; [exact Gq |]. right. exists sz, g, mr.
      pose proof (valid_finite_bounds _ _ _ Gz) as (Hez & _).
      pose proof (units_finite_pos mz ez ltac:(lia)) as Hzpos.
      split; [reflexivity |].
      split; [rewrite units_finite_abs by lia; reflexivity |].
      split; [rewrite units_finite_abs by lia; exact Hzpos |].
      split; [subst g; pose proof (Z.pow_pos_nonneg 2 j); lia |].
      split; [eauto |]. split; [exact Hmr |]. split; [exact Hrne |].
      split; [exact Hnorm | exact Uq]. }
  destruct (Hq x Gx Bx) as [Gqx Cx]. destruct (Hq y Gy By) as [Gqy Cy].
  split; [exact Gqx |]. split; [exact Gqy |].
  destruct Cx as [(_ & Ux & Qx) | (sx & gx & mrx & _ & Ux & Px & Hgx & (jx & Hjx & Egx)
                                   & Hmx & Rx & Nx & Qx)];
    destruct Cy as [(_ & Uy & Qy) | (sy & gy & mry & _ & Uy & Py & Hgy & (jy & Hjy & Egy)
                                     & Hmy & Ry & Ny & Qy)];
    rewrite Qx, Qy.
  - lia.
  - assert (0 <= mry * gy) by (apply Z.mul_nonneg_nonneg; lia).
    destruct sy; cbn [cond_Zopp] in Uy |- *; lia.
  - assert (0 <= mrx * gx) by (apply Z.mul_nonneg_nonneg; lia).
    destruct sx; cbn [cond_Zopp] in Ux |- *; lia.
  - assert (Hcases : forall a b ja jb, 0 <= ja -> 0 <= jb -> a = 2 ^ ja -> b = 2 ^ jb ->
              a = b \/ (exists k, 2 <= k /\ b = k * a) \/ (exists k, 2 <= k /\ a = k * b)).
    { intros a b ja jb Ha Hb -> ->. apply pow2_cases; assumption. }
    assert (0 <= mrx * gx) by (apply Z.mul_nonneg_nonneg; lia).
    assert (0 <= mry * gy) by (apply Z.mul_nonneg_nonneg; lia).
    destruct sx, sy; cbn [cond_Zopp] in Ux, Uy |- *.
    + assert (Hm : mry * gy <= mrx * gx).
      { apply (mag_mono (2 ^ 149) (units s) (Z.abs (units y)) (Z.abs (units x)));
          try assumption; try lia. apply (Hcases gy gx jy jx); assumption. }
      lia.
    + lia.
    + lia.
    + apply (mag_mono (2 ^ 149) (units s) (Z.abs (units x)) (Z.abs (units y)));
        try assumption; try lia. apply (Hcases gx gy jx jy); assumption.
Qed.

Lemma quantize1_mono (p q : float32) (vp vq : Z) :
  good p = true -> good q = true -> units p <= units q ->
  quantize1 p = Ok vp -> quantize1 q = Ok vq -> vp <= vq.
Proof.
  intros Gp Gq Hpq Hp Hq.
  destruct (quantize1_good p Gp) as (n & Hn & Tn & _ & En).
  destruct (quantize1_good q Gq) as (n' & Hn' & Tn' & _ & En').
  rewrite En in Hp. rewrite En' in Hq. apply Ok_inj in Hp, Hq. subst vp vq.
  assert (HP : 0 < 2 ^ 149) by reflexivity.
  assert (Hnn : n <= n').
  { apply (rne_mono n n' (units p) (units q) (2 ^ 149)); try assumption;
      apply nearest_rne; assumption. }
  lia.
Qed.

End Monotone.

(** X14.  The quantization of a row of finite floats preserves order: if
    one element is at most another, so are their signed bytes. *)
Theorem order_preserved (row : list float32) (scale : float32) (q : list Z)
    (i j : nat) (x y : float32) (vx vy : Z) :
  Forall (fun x => good x = true) row ->
  row_scale row = Ok scale ->
  q_row row scale = Ok q ->
  nth_error row i = Some x -> nth_error row j = Some y ->
  nth_error q i = Some vx -> nth_error q j = Some vy ->
  F32.leb x y = true ->
  vx <= vy.
Proof.
  intros Hgood Hscale Hq Hi Hj Hvi Hvj Hle.
  assert (Hne : row <> []) by (intros ->; discriminate).
  apply q_row_Forall2 in Hq.
  destruct (Forall2_nth_error _ _ _ i x Hq Hi) as (vx' & Hvi' & Qx).
  destruct (Forall2_nth_error _ _ _ j y Hq Hj) as (vy' & Hvj' & Qy).
  rewrite Hvi in Hvi'. rewrite Hvj in Hvj'.
  injection Hvi' as <-. injection Hvj' as <-.
  rewrite List.Forall_forall in Hgood.
  pose proof (Hgood x (nth_error_In _ _ Hi)) as Gx.
  pose proof (Hgood y (nth_error_In _ _ Hj)) as Gy.
  assert (Hxy : units x <= units y).
  { unfold good in Gx, Gy. apply andb_true_iff in Gx, Gy.
    rewrite leb_units in Hle by tauto. apply Z.leb_le. exact Hle. }
  rewrite <- List.Forall_forall in Hgood.
  destruct (row_scale_spec row Hne Hgood)
    as (a & Emax & _ & Hall & [(Hz & _ & Es) | (_ & (ma & ea & Ea) & Va & Es)]);
    rewrite Es in Hscale; apply Ok_inj in Hscale; subst scale.
  - (* all zeros *)
    unfold all_zero in Hz. rewrite forallb_forall in Hz.
    pose proof (Hz x (nth_error_In _ _ Hi)) as Zx.
    pose proof (Hz y (nth_error_In _ _ Hj)) as Zy.
    destruct x as [sx | | |]; try discriminate.
    destruct y as [sy | | |]; try discriminate.
    cbn [F32.div SFdiv] in Qx, Qy. rewrite one_eq in Qx, Qy. cbn in Qx, Qy.
    rewrite quantize1_zero in Qx, Qy. apply Ok_inj in Qx, Qy. lia.
  - subst a.
    rewrite List.Forall_forall in Hall.
    pose proof (Hall x (nth_error_In _ _ Hi)) as Ax.
    pose proof (Hall y (nth_error_In _ _ Hj)) as Ay.
    destruct (scale_units ma ea Va)
      as (g & mr & (jg & Hjg & Eg) & Hmr & Hrne & _ & Gs & Hu & Hzero & Hfin).
    set (sc := F32.div (S754_finite false ma ea) (F32.of_Z 127)) in *.
    assert (Hg : 1 <= g) by (subst g; pose proof (Z.pow_pos_nonneg 2 jg); lia).
    destruct (Z.eq_dec mr 0) as [E0 | Hn0].
    + (* the scale underflowed to zero *)
      rewrite (Hzero E0) in Qx, Qy.
      assert (Hsg : forall z v, good z = true ->
                quantize1 (F32.div z (S754_zero false)) = Ok v ->
                (0 < units z /\ v = 127) \/ (units z < 0 /\ v = -127)).
      { intros z v Gz Hv. destruct z as [sz | sz | | sz mz ez]; try discriminate.
        apply good_finite in Gz. pose proof (valid_finite_bounds _ _ _ Gz) as (Hez & _).
        pose proof (units_finite_pos mz ez ltac:(lia)) as Hzpos.
        cbn [F32.div SFdiv] in Hv. rewrite quantize1_inf in Hv. apply Ok_inj in Hv.
        rewrite xorb_false_r in Hv. cbn [units].
        destruct sz; cbn [cond_Zopp]; [right | left]; split; lia. }
      destruct (Hsg x vx Gx Qx) as [[Hx ->] | [Hx ->]];
        destruct (Hsg y vy Gy Qy) as [[Hy ->] | [Hy ->]]; lia.
    + destruct (Hfin ltac:(lia)) as (m & e & Esc).
      assert (Vsc : valid (S754_finite false m e) = true).
      { rewrite <- Esc. apply div_valid. }
      assert (Hb : 2 * units (S754_finite false ma ea) <= 381 * units sc).
      { rewrite Hu. destruct Hrne as [[_ Hhi] _]. nia. }
      rewrite Esc in Qx, Qy, Hb.
      destruct (div_units_mono m e Vsc x y Gx Gy ltac:(lia) ltac:(lia) Hxy)
        as (Gqx & Gqy & Hq').
      exact (quantize1_mono _ _ _ _ Gqx Gqy Hq' Qx Qy).
Qed.

Lemma order_preserved_witness : -50 <= 127.
Proof.
  apply (order_preserved [f32_2_54; F32.of_Z (-1); F32.zero] f32_0_02 [127; -50; 0]
           1 0 (F32.of_Z (-1)) f32_2_54 (-50) 127).
  - repeat constructor.
  - vm_compute. reflexivity.
  - vm_compute. reflexivity.
  - reflexivity.
  - reflexivity.
  - reflexivity.
  - reflexivity.
  - vm_compute. reflexivity.
Defined.
